(** * iCaRL incremental learner (inclearn/models/icarl.py, inclearn/lib/utils.py)

    A shallow embedding of the exemplar-memory lifecycle, the loss guard of
    the training loop, head growth and nearest-class-mean classification,
    with the helpers of utils.py that work on arrays of labels
    ([to_onehot], [compute_accuracy], [select_class_samples]).

    Conventions of the embedding.
    - Python integers are [Z]; [//] is [Z.div] (both round towards minus
      infinity) and raises [ZeroDivisionError] on a zero divisor.
    - Tensor elements are IEEE binary32 values (torch's default dtype),
      computed with the Standard Library's [SpecFloat] operations at
      precision 24 and maximal exponent 128.  A 1-D tensor is a list of
      such values, a 2-D tensor a list of rows.  Reductions add from left
      to right.
      A tensor of one element is represented by that element.  Binary
      operations pair the components of their arguments; the shape
      errors torch raises on mismatched tensors are not part of the model,
      every embedding having the [out_dim] components of the extractor.
    - Python exceptions are values of [exn]; a call that raises returns
      [Raise e], a call that completes returns [Ok v].
    - The dictionary [_examplars] is a [gmap Z (list Z)].
    - The optimizer, the scheduler and the debugger are seen through the
      events the training loop sends them, in order.
    - numpy arrays of labels are lists of [Z]; the quotients
      [compute_accuracy] rounds are float64 values (precision 53, maximal
      exponent 1024), the rounding itself being numpy's. *)

From Stdlib Require Import ZArith List Bool Lia Ascii.
From Stdlib Require Import SpecFloat.
From stdpp Require Import base option list gmap strings pretty.

Local Open Scope Z_scope.

(** ** IEEE binary32 scalars *)

Module Float32.

Definition prec : Z := 24.
Definition emax : Z := 128.

Definition f32 : Type := spec_float.

Definition zero : f32 := S754_zero false.
Definition nan : f32 := S754_nan.
Definition inf : f32 := S754_infinity false.

Definition add : f32 -> f32 -> f32 := SFadd prec emax.
Definition sub : f32 -> f32 -> f32 := SFsub prec emax.
Definition mul : f32 -> f32 -> f32 := SFmul prec emax.
Definition div : f32 -> f32 -> f32 := SFdiv prec emax.
Definition sqrt : f32 -> f32 := SFsqrt prec emax.
Definition ltb : f32 -> f32 -> bool := SFltb.
Definition leb : f32 -> f32 -> bool := SFleb.

(** Conversion of a Python integer to a float32 (round to nearest even). *)
Definition of_Z (n : Z) : f32 := binary_normalize prec emax n 0 false.

Definition is_nan (x : f32) : bool :=
  match x with S754_nan => true | _ => false end.

Definition is_finite (x : f32) : bool :=
  match x with S754_zero _ | S754_finite _ _ _ => true | _ => false end.

#[global] Instance f32_eq_dec : EqDecision spec_float.
Proof. solve_decision. Defined.

End Float32.

Import Float32.

(** numpy's float64, in which [compute_accuracy] divides. *)
Module Float64.

Definition prec : Z := 53.
Definition emax : Z := 1024.

Definition f64 : Type := spec_float.

Definition div : f64 -> f64 -> f64 := SFdiv prec emax.

(** The float64 nearest to an integer. *)
Definition of_Z (n : Z) : f64 := binary_normalize prec emax n 0 false.

End Float64.

(** ** Python values: exceptions, results, slices *)

Module Py.

Inductive exn : Type :=
| ValueError (msg : string)
| KeyError (key : Z)
| IndexError
| TypeError
| ZeroDivisionError
| RuntimeError
| AssertionError.

Inductive result (A : Type) : Type :=
| Ok (a : A)
| Raise (e : exn).
Arguments Ok {A} a.
Arguments Raise {A} e.

#[global] Instance result_ret : MRet result := fun A a => Ok a.
#[global] Instance result_bind : MBind result := fun A B f r =>
  match r with
  | Ok a => f a
  | Raise e => Raise e
  end.

(** [foldM f xs a]: a [for x in xs] loop whose body may raise. *)
Fixpoint foldM {A B} (f : A -> B -> result A) (xs : list B) (a : A) : result A :=
  match xs with
  | [] => Ok a
  | x :: xs' => a' ← f a x; foldM f xs' a'
  end.

(** [a // b] *)
Definition floordiv (a b : Z) : result Z :=
  if decide (b = 0) then Raise ZeroDivisionError else Ok (a / b).

(** [range(lo, hi)] *)
Definition range (lo hi : Z) : list Z := seqZ lo (hi - lo).

(** [range(lo, hi, step)]: a step of zero is refused. *)
Definition range_step (lo hi step : Z) : result (list Z) :=
  if decide (step = 0) then Raise (ValueError "range() arg 3 must not be zero")
  else if decide (0 < step)
       then Ok (map (fun i => lo + i * step) (seqZ 0 ((hi - lo + step - 1) / step)))
       else Ok (map (fun i => lo + i * step) (seqZ 0 ((lo - hi - step - 1) / - step))).

(** [l[:m]]: a negative bound counts from the end. *)
Definition slice_to {A} (l : list A) (m : Z) : list A :=
  if decide (0 <= m) then take (Z.to_nat m) l
  else take (Z.to_nat (Z.of_nat (length l) + m)) l.

(** [l[m:]] *)
Definition slice_from {A} (l : list A) (m : Z) : list A :=
  if decide (0 <= m) then drop (Z.to_nat m) l
  else drop (Z.to_nat (Z.of_nat (length l) + m)) l.

(** [d[k]] on a dictionary *)
Definition getitem {A} (d : gmap Z A) (k : Z) : result A :=
  match d !! k with
  | Some a => Ok a
  | None => Raise (KeyError k)
  end.

(** [l[i]] on a list, with a non-negative index *)
Definition list_getitem {A} (l : list A) (i : nat) : result A :=
  match l !! i with
  | Some a => Ok a
  | None => Raise IndexError
  end.

(** [min(a, b)] *)
Definition min (a b : Z) : Z := Z.min a b.

End Py.

Import Py.

(** ** The torch operations the learner calls *)

Module Torch.

Definition tensor1 : Type := list f32.
Definition tensor2 : Type := list tensor1.

(** [torch.zeros(n)] *)
Definition zeros (n : nat) : tensor1 := replicate n zero.

(** Elementwise operations on tensors of one shape. *)
Definition vadd (a b : tensor1) : tensor1 := zip_with add a b.
Definition vsub (a b : tensor1) : tensor1 := zip_with sub a b.
Definition vdiv (a b : tensor1) : tensor1 := zip_with div a b.

(** [t / n] for a Python integer [n] *)
Definition div_int (t : tensor1) (n : Z) : tensor1 :=
  map (fun x => div x (of_Z n)) t.

(** [torch.pow(t, 2)] *)
Definition pow2 (t : tensor1) : tensor1 := map (fun x => mul x x) t.

(** [t.sum(-1)] on a 1-D tensor *)
Definition sum (t : tensor1) : f32 := fold_left add t zero.

(** [t.norm(2)] on a 1-D tensor *)
Definition norm2 (t : tensor1) : f32 := sqrt (sum (pow2 t)).

(** Number of columns of a 2-D tensor. *)
Definition ncols (m : tensor2) : nat :=
  match m with [] => 0%nat | r :: _ => length r end.

(** [m.sum(0)]: the sum of the rows. *)
Definition sum_rows (m : tensor2) : tensor1 :=
  fold_left vadd m (zeros (ncols m)).

(** [torch.mean(m, dim=0)] *)
Definition mean_dim0 (m : tensor2) : tensor1 :=
  div_int (sum_rows m) (Z.of_nat (length m)).

(** The float32 nearest to 1e-12, the default [eps] of [F.normalize]. *)
Definition eps : f32 := S754_finite false 9223372 (-63).

(** [x.clamp_min(lo)] *)
Definition clamp_min (x lo : f32) : f32 := if ltb x lo then lo else x.

(** [F.normalize(t, dim=0)] on a 1-D tensor: [t / max(norm(t), eps)]. *)
Definition normalize (t : tensor1) : tensor1 :=
  let d := clamp_min (norm2 t) eps in
  map (fun x => div x d) t.

(** [F.normalize(m)] on a 2-D tensor (default [dim=1]): every row. *)
Definition normalize_dim1 (m : tensor2) : tensor2 := map normalize m.

(** [F.normalize(m, dim=0)] on a 2-D tensor: every column is divided by
    its own norm. *)
Definition normalize_dim0 (m : tensor2) : tensor2 :=
  let d := map (fun s => clamp_min (sqrt s) eps) (sum_rows (map pow2 m)) in
  map (fun r => vdiv r d) m.

(** [m.norm(2, 1)]: the norm of every row. *)
Definition norm2_dim1 (m : tensor2) : tensor1 := map norm2 m.

(** Order used by [sort]: ascending, NaN after every number. *)
Definition sort_lt (a b : f32) : bool :=
  if is_nan a then false else if is_nan b then true else ltb a b.

Fixpoint insert (x : f32 * nat) (l : list (f32 * nat)) : list (f32 * nat) :=
  match l with
  | [] => [x]
  | y :: l' => if sort_lt y.1 x.1 then y :: insert x l' else x :: y :: l'
  end.

Fixpoint isort (l : list (f32 * nat)) : list (f32 * nat) :=
  match l with
  | [] => []
  | x :: l' => insert x (isort l')
  end.

(** [t.argsort()]: the positions of [t] in ascending order of value,
    NaN last.  The call passes no [stable=True], so torch does not fix
    the order of positions holding equal values; this definition lists
    them in position order, and the properties below use only that the
    result is an ascending permutation of the positions. *)
Definition argsort (t : tensor1) : list nat :=
  (isort (zip t (seq 0 (length t)))).*2.

(** The scan of torch's [min] kernel: a value replaces the current
    minimum when [not (value >= minimum)], and a NaN ends the scan. *)
Fixpoint argmin_loop (l : tensor1) (i : nat) (the_min : f32) (the_index : nat) : nat :=
  match l with
  | [] => the_index
  | value :: rest =>
      if negb (leb the_min value)
      then if is_nan value then i else argmin_loop rest (S i) value i
      else argmin_loop rest (S i) the_min the_index
  end.

(** [t.argmin().item()]: the first NaN when there is one, else the first
    minimal element; an empty tensor is an error. *)
Definition argmin (t : tensor1) : result nat :=
  match t with
  | [] => Raise RuntimeError
  | x :: _ => Ok (argmin_loop t 0 x 0)
  end.

(** [torch.cat(ts)] and [torch.stack(ts)] refuse an empty list. *)
Definition cat {A} (ts : list (list A)) : result (list A) :=
  match ts with
  | [] => Raise RuntimeError
  | _ => Ok (concat ts)
  end.

Definition stack (ts : list tensor1) : result tensor2 :=
  match ts with
  | [] => Raise RuntimeError
  | _ => Ok ts
  end.

(** [t >= 0.] on a scalar tensor *)
Definition ge_zero (t : f32) : bool := leb zero t.

(** [nn.Linear(in, out, bias=False)]: only a weight of [out] rows. *)
Record Linear : Type := mkLinear {
  weight : tensor2;
  bias : option tensor1
}.

(** [layer(x)] for a bias-free layer: one logit per weight row, each
    computed from its own row with additions from left to right.  The
    rounding of torch's kernel may depend on the shape of the weight, so
    no property compares the logits of two heads of different sizes. *)
Definition linear (l : Linear) (x : tensor1) : tensor1 :=
  map (fun w => sum (zip_with mul x w)) (weight l).

End Torch.

Import Torch.

(** ** inclearn/lib/utils.py *)

Module utils.

(** [_check_loss]: [not isnan(loss) and loss >= 0.] *)
Definition _check_loss (loss : f32) : bool :=
  negb (is_nan loss) && ge_zero loss.

(** [to_onehot]: [scatter_] writes a one at column [target] of every
    row, and refuses a column outside [0, n_classes). *)
Definition to_onehot (targets : list Z) (n_classes : Z) : result tensor2 :=
  mapM (M := result) (fun t : Z =>
    if decide (0 <= t < n_classes)
    then Ok (<[Z.to_nat t := of_Z 1]> (zeros (Z.to_nat n_classes)))
    else Raise RuntimeError) targets.

(** [a[idxes]] with an array of positions. *)
Definition take_idxes {A} (a : list A) (idxes : list nat) : result (list A) :=
  mapM (M := result) (list_getitem a) idxes.

(** [(a == b).sum()] on two arrays of one shape. *)
Definition count_equal (a b : list Z) : Z :=
  Z.of_nat (length (filter (fun p : Z * Z => p.1 = p.2) (zip a b))).

(** [np.max(a)]: an empty array is refused. *)
Definition np_max (a : list Z) : result Z :=
  match a with
  | [] => Raise (ValueError "zero-size array to reduction operation maximum which has no identity")
  | x :: a' => Ok (foldr Z.max x a')
  end.

(** [s.rjust(width, fill)] *)
Definition rjust (s : string) (width : nat) (fill : ascii) : string :=
  String.string_of_list_ascii (replicate (width - String.length s) fill) +:+ s.

(** The key of a group of classes: ["00-09"], ["10-19"], ... *)
Definition group_label (class_id task_size : Z) : string :=
  rjust (pretty class_id) 2 "0"%char +:+ "-" +:+
  rjust (pretty (class_id + task_size - 1)) 2 "0"%char.

(** [np.where(np.logical_and(ytrue >= class_id, ytrue < class_id + task_size))[0]] *)
Definition group_idxes (ytrue : list Z) (class_id task_size : Z) : list nat :=
  (filter (fun p : nat * Z => class_id <= p.2 < class_id + task_size)
          (zip (seq 0 (length ytrue)) ytrue)).*1.

(** The groups the loop of [compute_accuracy] goes through: the first
    class of each group with the positions of its samples. *)
Definition accuracy_groups (ytrue : list Z) (task_size : Z) : result (list (Z * list nat)) :=
  the_max ← np_max ytrue;
  class_ids ← range_step 0 the_max task_size;
  Ok (map (fun class_id => (class_id, group_idxes ytrue class_id task_size)) class_ids).

Section Accuracy.

(** [round(x, 3)] on a float64 is numpy's. *)
Variable round3 : Float64.f64 -> Float64.f64.

(** [round(n / d, 3)] for two integers: numpy divides in float64, and
    a zero denominator gives NaN or an infinity, not an error. *)
Definition rounded_ratio (n d : Z) : Float64.f64 :=
  round3 (Float64.div (Float64.of_Z n) (Float64.of_Z d)).

(** [compute_accuracy], for two arrays of one shape (as [_eval_task]
    asserts). *)
Definition compute_accuracy (ypred ytrue : list Z) (task_size : Z)
    : result (gmap string Float64.f64) :=
  let all_acc : gmap string Float64.f64 :=
    {[ "total" := rounded_ratio (count_equal ypred ytrue) (Z.of_nat (length ytrue)) ]} in
  groups ← accuracy_groups ytrue task_size;
  foldM (fun (all_acc : gmap string Float64.f64) (g : Z * list nat) =>
           p ← take_idxes ypred g.2;
           t ← take_idxes ytrue g.2;
           Ok (<[group_label g.1 task_size :=
                   rounded_ratio (count_equal p t) (Z.of_nat (length g.2))]> all_acc))
        groups all_acc.

End Accuracy.

(** [select_class_samples]: the positions where [targets] holds the
    class, then [samples[indexes], targets[indexes]]. *)
Definition select_class_samples {A} (samples : list A) (targets : list Z) (selected_class : Z)
    : result (list A * list Z) :=
  let indexes := (filter (fun p : nat * Z => p.2 = selected_class)
                         (zip (seq 0 (length targets)) targets)).*1 in
  s ← take_idxes samples indexes;
  t ← take_idxes targets indexes;
  Ok (s, t).

End utils.

(** ** The data a loader yields *)

(** One sample of a batch: its identifier in the whole dataset
    ([real_idx]), its position in the current training data ([idx]), the
    input tensor and the class label. *)
Record sample : Type := mkSample {
  real_idx : Z;
  idx : Z;
  input : tensor1;
  target : Z
}.

Definition batch : Type := list sample.

(** A data loader: the batches of one pass, and what a pass yields once
    its dataset has been restricted with [set_idxes] or
    [set_classes_range]. *)
Record Loader : Type := mkLoader {
  batches : list batch;
  set_idxes : list Z -> list batch;
  set_classes_range : Z -> Z -> list batch
}.

(** The feature extractor: [out_dim] and the embedding it computes. *)
Record FeaturesExtractor : Type := mkFeaturesExtractor {
  out_dim : nat;
  embed : tensor1 -> tensor1
}.

(** What the training loop does to the optimizer and the debugger. *)
Inductive event : Type :=
| SchedulerStep
| ZeroGrad
| PdbSetTrace
| Backward (loss : f32)
| OptimizerStep.

#[global] Instance event_eq_dec : EqDecision event.
Proof. solve_decision. Defined.

(** ** inclearn/models/icarl.py *)

Module ICarl.

(** The attributes of an [ICarl] object.  [_task], [_task_size],
    [_new_task_index] and [_n_train_data] belong to the base class
    [IncrementalLearner], which assigns them before every task. *)
Record t : Type := mk {
  _memory_size : Z;
  _n_epochs : Z;
  _k : Z;
  _n_classes : Z;
  _features_extractor : FeaturesExtractor;
  _classifier : Linear;
  _examplars : gmap Z (list Z);
  _means : option tensor2;
  _clf_loss : tensor2 -> tensor2 -> f32;
  _distil_loss : tensor2 -> tensor2 -> f32;
  _previous_preds : option tensor2;
  _previous_preds_val : option tensor2;
  _task : Z;
  _task_size : Z;
  _new_task_index : Z;
  _n_train_data : Z
}.

Definition with_n_classes (n : Z) (self : t) : t :=
  mk (_memory_size self) (_n_epochs self) (_k self) n
     (_features_extractor self) (_classifier self) (_examplars self)
     (_means self) (_clf_loss self) (_distil_loss self)
     (_previous_preds self) (_previous_preds_val self)
     (_task self) (_task_size self) (_new_task_index self) (_n_train_data self).

Definition with_classifier (c : Linear) (self : t) : t :=
  mk (_memory_size self) (_n_epochs self) (_k self) (_n_classes self)
     (_features_extractor self) c (_examplars self)
     (_means self) (_clf_loss self) (_distil_loss self)
     (_previous_preds self) (_previous_preds_val self)
     (_task self) (_task_size self) (_new_task_index self) (_n_train_data self).

Definition with_features_extractor (fe : FeaturesExtractor) (self : t) : t :=
  mk (_memory_size self) (_n_epochs self) (_k self) (_n_classes self)
     fe (_classifier self) (_examplars self)
     (_means self) (_clf_loss self) (_distil_loss self)
     (_previous_preds self) (_previous_preds_val self)
     (_task self) (_task_size self) (_new_task_index self) (_n_train_data self).

Definition with_examplars (e : gmap Z (list Z)) (self : t) : t :=
  mk (_memory_size self) (_n_epochs self) (_k self) (_n_classes self)
     (_features_extractor self) (_classifier self) e
     (_means self) (_clf_loss self) (_distil_loss self)
     (_previous_preds self) (_previous_preds_val self)
     (_task self) (_task_size self) (_new_task_index self) (_n_train_data self).

Definition with_means (m : option tensor2) (self : t) : t :=
  mk (_memory_size self) (_n_epochs self) (_k self) (_n_classes self)
     (_features_extractor self) (_classifier self) (_examplars self)
     m (_clf_loss self) (_distil_loss self)
     (_previous_preds self) (_previous_preds_val self)
     (_task self) (_task_size self) (_new_task_index self) (_n_train_data self).

Definition with_previous_preds (p : option tensor2) (self : t) : t :=
  mk (_memory_size self) (_n_epochs self) (_k self) (_n_classes self)
     (_features_extractor self) (_classifier self) (_examplars self)
     (_means self) (_clf_loss self) (_distil_loss self)
     p (_previous_preds_val self)
     (_task self) (_task_size self) (_new_task_index self) (_n_train_data self).

Definition with_previous_preds_val (p : option tensor2) (self : t) : t :=
  mk (_memory_size self) (_n_epochs self) (_k self) (_n_classes self)
     (_features_extractor self) (_classifier self) (_examplars self)
     (_means self) (_clf_loss self) (_distil_loss self)
     (_previous_preds self) p
     (_task self) (_task_size self) (_new_task_index self) (_n_train_data self).

(** Modelled from the spec: the task bookkeeping of the base class
    [IncrementalLearner] (inclearn/models/base.py), which gives a task
    its index, its size and the boundary [new_task_index] between old
    and new class columns. *)
Definition set_task_info (task task_size n_train_data : Z) (self : t) : t :=
  mk (_memory_size self) (_n_epochs self) (_k self) (_n_classes self)
     (_features_extractor self) (_classifier self) (_examplars self)
     (_means self) (_clf_loss self) (_distil_loss self)
     (_previous_preds self) (_previous_preds_val self)
     task task_size (task * task_size) n_train_data.

(** The arguments [__init__] reads, with the network
    [factory.get_resnet] returns. *)
Record Args : Type := mkArgs {
  memory_size : Z;
  epochs : Z;
  increment : Z;
  convnet : FeaturesExtractor
}.

(** [nn.Linear(in, out, bias=False)] followed by [kaiming_normal_]:
    [fresh i] is the row the initialiser drew for output [i]; a negative
    number of outputs is refused. *)
Definition new_linear (out : Z) (fresh : nat -> tensor1) : result Linear :=
  if decide (0 <= out) then Ok (mkLinear (map fresh (seq 0 (Z.to_nat out))) None)
  else Raise RuntimeError.

Section Learner.

(** [F.binary_cross_entropy_with_logits] and [torch.sigmoid] are
    torch's; [loss.backward()] followed by [optimizer.step()] is the
    optimizer's, and yields the new embedding and the new weight of
    the head. *)
Variable binary_cross_entropy_with_logits : tensor2 -> tensor2 -> f32.
Variable sigmoid : f32 -> f32.
Variable backward_and_step : t -> batch -> f32 -> (tensor1 -> tensor1) * tensor2.

(** [__init__]; the four attributes of the base class start at 0 and
    are assigned by [set_task_info] before a task. *)
Definition __init__ (args : Args) (fresh : nat -> tensor1) : result t :=
  classifier ← new_linear (increment args) fresh;
  Ok (mk (memory_size args) (epochs args) (memory_size args) (increment args)
         (convnet args) classifier ∅ None
         binary_cross_entropy_with_logits binary_cross_entropy_with_logits
         None None 0 0 0 0).

Definition forward (self : t) (x : tensor1) : tensor1 :=
  linear (_classifier self) (embed (_features_extractor self) x).

(** [_m]: the number of exemplars per class. *)
Definition _m (self : t) : result Z :=
  floordiv (_k self) (_n_classes self).

(** [dst[: hi] = src] on the rows of a weight: [src] must have as
    many rows as the slice, or a single row that is repeated. *)
Definition setitem_slice_to (dst : tensor2) (hi : Z) (src : tensor2) : result tensor2 :=
  let n := length (slice_to dst hi) in
  if decide (length src = n) then Ok (src ++ drop n dst)
  else match src with
       | [row] => Ok (replicate n row ++ drop n dst)
       | _ => Raise RuntimeError
       end.

Definition _add_n_classes (n : Z) (fresh : nat -> tensor1) (self : t) : result t :=
  let self := with_n_classes (_n_classes self + n) self in
  let weight := weight (_classifier self) in
  classifier ← new_linear (_n_classes self) fresh;
  let self := with_classifier classifier self in
  w ← setitem_slice_to (Torch.weight (_classifier self)) (_n_classes self - n) weight;
  let self := with_classifier (mkLinear w (bias (_classifier self))) self in
  _ ← _m self;
  Ok self.

(** [_extract_features]: the embeddings of every sample of the
    loader, their mean and the dataset identifiers. *)
Definition _extract_features (self : t) (loader : list batch)
    : result (tensor2 * tensor1 * list Z) :=
  features ← cat (map (fun b : batch =>
                         map (fun s => embed (_features_extractor self) (input s)) b) loader);
  let idxes := concat (map (fun b : batch => map real_idx b) loader) in
  Ok (features, mean_dim0 features, idxes).

(** [_remove_row]: the rows before [row_idx] followed by the rows
    after it, and the same two slices of the identifiers. *)
Definition _remove_row (matrix : tensor2) (idxes : list Z) (row_idx : Z) : tensor2 * list Z :=
  (slice_to matrix row_idx ++ slice_from matrix (row_idx + 1),
   slice_to idxes row_idx ++ slice_from idxes (row_idx + 1)).

(** [_dist(a, b)]: [torch.pow(a - b, 2).sum(-1)], one value per row
    of [a]. *)
Definition _dist (a : tensor2) (b : tensor1) : tensor1 :=
  map (fun row => sum (pow2 (vsub row b))) a.

(** [_get_closest]: for every feature the position of the closest
    center. *)
Definition _get_closest (centers : tensor2) (features : tensor2) : result (list nat) :=
  mapM (M := result) (fun feature => argmin (_dist centers feature)) features.

(** The loop of [_classify] over the batches of the loader. *)
Definition classify_batch (self : t) (means : tensor2)
    (acc : list nat * list Z) (b : batch) : result (list nat * list Z) :=
  let features := map (fun s => embed (_features_extractor self) (input s)) b in
  preds ← _get_closest means (normalize_dim1 features);
  Ok (acc.1 ++ preds, acc.2 ++ map target b).

Definition not_built : string :=
  "Cannot classify without built examplar means, Have you forgotten to call `before_task`?".

Definition inconsistent (n_means : nat) (n_classes : Z) : string :=
  "The number of examplar means (" +:+ pretty (Z.of_nat n_means) +:+ ") is inconsistent" +:+
  " with the number of classes (" +:+ pretty n_classes +:+ ").".

Definition _classify (self : t) (data_loader : Loader) : result (list nat * list Z) :=
  match _means self with
  | None => Raise (ValueError not_built)
  | Some means =>
      if decide (Z.of_nat (length means) ≠ _n_classes self)
      then Raise (ValueError (inconsistent (length means) (_n_classes self)))
      else foldM (classify_batch self means) (batches data_loader) ([], [])
  end.

Definition _eval_task (self : t) (data_loader : Loader) : result (list nat * list Z) :=
  '(ypred, ytrue) ← _classify self data_loader;
  if decide (length ypred = length ytrue) then Ok (ypred, ytrue)
  else Raise AssertionError.

(** One turn of the loop of [_reduce_examplars]. *)
Definition reduce_class (self : t) (class_idx : Z) : result t :=
  examplars ← getitem (_examplars self) class_idx;
  m ← _m self;
  Ok (with_examplars (<[class_idx := slice_to examplars m]> (_examplars self)) self).

Definition _reduce_examplars (self : t) : result t :=
  foldM reduce_class (range 0 (Z.of_nat (size (_examplars self)))) self.

(** The two variables the herding loop updates. *)
Record herd : Type := mkHerd {
  examplars_idxes : list Z;
  examplars_mean : tensor1
}.

(** The distances ranked at iteration [i] of the herding loop. *)
Definition herding_distances (class_mean : tensor1) (features : tensor2)
    (examplars_mean : tensor1) (i : nat) : tensor1 :=
  let tmp := normalize_dim0
               (map (fun f => div_int (vadd f examplars_mean) (Z.of_nat i + 1)) features) in
  norm2_dim1 (map (fun r => vsub class_mean r) tmp).

(** [for idx in idxes_winner]: the first candidate whose identifier
    is not selected yet is appended, then the loop breaks. *)
Fixpoint pick_winner (idxes_winner : list nat) (features : tensor2) (idxes : list Z)
    (h : herd) : result herd :=
  match idxes_winner with
  | [] => Ok h
  | idx :: rest =>
      real_idx ← list_getitem idxes idx;
      if decide (real_idx ∈ examplars_idxes h)
      then pick_winner rest features idxes h
      else
        feature ← list_getitem features idx;
        Ok (mkHerd (examplars_idxes h ++ [real_idx]) (vadd (examplars_mean h) feature))
  end.

Definition herding_step (class_mean : tensor1) (features : tensor2) (idxes : list Z)
    (h : herd) (i : nat) : result herd :=
  let distances := herding_distances class_mean features (examplars_mean h) i in
  pick_winner (argsort distances) features idxes h.

(** [for i in range(min(self._m, features.shape[0]))] *)
Definition herding (m : Z) (dim : nat) (class_mean : tensor1) (features : tensor2)
    (idxes : list Z) : result herd :=
  foldM (herding_step class_mean features idxes)
        (seq 0 (Z.to_nat (Py.min m (Z.of_nat (length features)))))
        (mkHerd [] (zeros dim)).

(** First loop of [_build_examplars]: the mean of a known class from
    its stored exemplars. *)
Definition known_class_mean (loader : Loader) (acc : list tensor1 * t) (class_idx : Z)
    : result (list tensor1 * t) :=
  let '(means, self) := acc in
  examplars ← getitem (_examplars self) class_idx;
  '(_, examplar_mean, _) ← _extract_features self (set_idxes loader examplars);
  Ok (means ++ [normalize examplar_mean], self).

(** Second loop of [_build_examplars]: herding for a new class. *)
Definition build_class (loader : Loader) (acc : list tensor1 * t) (class_idx : Z)
    : result (list tensor1 * t) :=
  let '(means, self) := acc in
  '(features, class_mean, idxes) ←
    _extract_features self (set_classes_range loader class_idx class_idx);
  let class_mean := normalize class_mean in
  m ← _m self;
  h ← herding m (out_dim (_features_extractor self)) class_mean features idxes;
  let mean := normalize (div_int (examplars_mean h)
                                 (Z.of_nat (length (examplars_idxes h)))) in
  Ok (means ++ [mean],
      with_examplars (<[class_idx := examplars_idxes h]> (_examplars self)) self).

Definition _build_examplars (self : t) (loader : Loader) : result t :=
  acc ← foldM (known_class_mean loader) (range 0 (_task self * _task_size self)) ([], self);
  acc ← foldM (build_class loader)
              (range (_task self * _task_size self) (_n_classes acc.2)) acc;
  means ← stack acc.1;
  Ok (with_means (Some means) acc.2).

Definition _after_task (self : t) (data_loader : Loader) : result t :=
  self ← _reduce_examplars self;
  _build_examplars self data_loader.

(** [m[i]] and [m[i] = row] on the rows of a 2-D tensor; a negative
    index counts from the end. *)
Definition row_index (m : tensor2) (i : Z) : result nat :=
  let j := if decide (i < 0) then Z.of_nat (length m) + i else i in
  if decide (0 <= j < Z.of_nat (length m)) then Ok (Z.to_nat j) else Raise IndexError.

Definition getrow (m : tensor2) (i : Z) : result tensor1 :=
  j ← row_index m i; list_getitem m j.

Definition setrow (m : tensor2) (i : Z) (row : tensor1) : result tensor2 :=
  j ← row_index m i; Ok (<[j := row]> m).

(** [_compute_loss].  A one-element tensor is represented by its
    element: [torch.zeros(1)] is [zero].  The two losses are torch's
    and are total here: that [F.binary_cross_entropy_with_logits] refuses
    two tensors of different shapes is a precondition of the properties
    that say what the losses are given. *)
Definition _compute_loss (self : t) (logits targets : tensor2) (idxes : list Z)
    (train : bool) : result (f32 * f32) :=
  if decide (_task self = 0) then
    let clf_loss := _clf_loss self logits targets in
    let distil_loss := zero in
    Ok (clf_loss, distil_loss)
  else
    let clf_loss :=
      _clf_loss self
        (map (fun r => slice_from r (_new_task_index self)) logits)
        (map (fun r => slice_from r (_new_task_index self)) targets) in
    previous_preds ←
      match (if train then _previous_preds self else _previous_preds_val self) with
      | Some p => Ok p
      | None => Raise TypeError
      end;
    soft ← mapM (M := result) (getrow previous_preds) idxes;
    let distil_loss :=
      _distil_loss self (map (fun r => slice_to r (_new_task_index self)) logits) soft in
    Ok (clf_loss, distil_loss).

Definition _compute_predictions (self : t) (data_loader : Loader) : result tensor2 :=
  if decide (0 <= _n_train_data self ∧ 0 <= _n_classes self) then
    preds ← foldM (fun preds (s : sample) => setrow preds (idx s) (forward self (input s)))
                  (concat (batches data_loader))
                  (replicate (Z.to_nat (_n_train_data self))
                             (zeros (Z.to_nat (_n_classes self))));
    Ok (map (map sigmoid) preds)
  else Raise RuntimeError.

Definition _before_task (self : t) (train_loader : Loader) (val_loader : option Loader)
    (fresh : nat -> tensor1) : result t :=
  if decide (_task self = 0) then
    Ok (with_previous_preds None self)
  else
    preds ← _compute_predictions self train_loader;
    let self := with_previous_preds (Some preds) self in
    self ← match val_loader with
           | Some l =>
               if decide (batches l = []) then Ok self
               else preds_val ← _compute_predictions self l;
                    Ok (with_previous_preds_val (Some preds_val) self)
           | None => Ok self
           end;
    _add_n_classes (_task_size self) fresh self.

(** Lines 104-105 of [_train_task]: the debugger is entered when one
    of the two losses fails [_check_loss]; nothing is raised. *)
Definition loss_guard (clf_loss distil_loss : f32) : list event :=
  if negb (utils._check_loss clf_loss) || negb (utils._check_loss distil_loss)
  then [PdbSetTrace] else [].

(** Lines 104-110: guard, sum of the losses, backward pass and
    optimizer step of one mini-batch. *)
Definition guard_and_step (self : t) (b : batch) (clf_loss distil_loss : f32)
    : t * list event :=
  let loss := add clf_loss distil_loss in
  let '(embed', weight') := backward_and_step self b loss in
  let self' :=
    with_classifier (mkLinear weight' (bias (_classifier self)))
      (with_features_extractor
         (mkFeaturesExtractor (out_dim (_features_extractor self)) embed') self) in
  (self', loss_guard clf_loss distil_loss ++ [Backward loss; OptimizerStep]).

(** The body of the mini-batch loop of [_train_task]. *)
Definition train_batch (acc : t * list event) (b : batch) : result (t * list event) :=
  let '(self, trace) := acc in
  targets ← utils.to_onehot (map target b) (_n_classes self);
  let logits := map (fun s => forward self (input s)) b in
  '(clf_loss, distil_loss) ← _compute_loss self logits targets (map idx b) true;
  let '(self, events) := guard_and_step self b clf_loss distil_loss in
  Ok (self, trace ++ [ZeroGrad] ++ events).

(** The body of the loop of [_compute_val_loss]. *)
Definition val_batch (self : t) (trace : list event) (b : batch) : result (list event) :=
  targets ← utils.to_onehot (map target b) (_n_classes self);
  let logits := map (fun s => forward self (input s)) b in
  '(clf_loss, distil_loss) ← _compute_loss self logits targets (map idx b) false;
  Ok (trace ++ [ZeroGrad] ++ loss_guard clf_loss distil_loss).

(** [_compute_val_loss]: what it sends to the optimizer and to the
    debugger; the total it returns is only displayed. *)
Definition _compute_val_loss (self : t) (trace : list event) (val_loader : Loader)
    : result (list event) :=
  foldM (val_batch self) (batches val_loader) trace.

(** One epoch of [_train_task]; the running averages shown at its end
    divide by the number of samples seen. *)
Definition train_epoch (train_loader : Loader) (val_loader : option Loader)
    (acc : t * list event) (epoch : nat) : result (t * list event) :=
  let '(self, trace) := acc in
  acc ← foldM train_batch (batches train_loader) (self, trace ++ [SchedulerStep]);
  acc ← match val_loader with
        | Some l => trace ← _compute_val_loss acc.1 acc.2 l; Ok (acc.1, trace)
        | None => Ok acc
        end;
  if decide (concat (batches train_loader) = []) then Raise ZeroDivisionError
  else Ok acc.

Definition _train_task (self : t) (train_loader : Loader) (val_loader : option Loader)
    : result (t * list event) :=
  foldM (train_epoch train_loader val_loader) (seq 0 (Z.to_nat (_n_epochs self))) (self, []).

(** The exemplar set of class [c], empty when the class has none. *)
Definition examplar_set (self : t) (c : Z) : list Z :=
  default [] (_examplars self !! c).

(** [sum(len(exemplar_set[c]) for c in range(n_classes))] *)
Definition n_stored (self : t) : nat :=
  sum_list (map (fun c => length (examplar_set self c)) (range 0 (_n_classes self))).

(** The states a learner goes through: it is constructed, the base
    class assigns the task (an index and a size that are not
    negative), and the phases that change it run ([_eval_task] changes
    nothing); a phase that raises leaves no state to continue from. *)
Inductive reachable : t -> Prop :=
| reach_init args fresh self :
    __init__ args fresh = Ok self -> reachable self
| reach_set_task_info self task task_size n_train_data :
    reachable self -> 0 <= task -> 0 <= task_size ->
    reachable (set_task_info task task_size n_train_data self)
| reach_before_task self train_loader val_loader fresh self' :
    reachable self ->
    _before_task self train_loader val_loader fresh = Ok self' ->
    reachable self'
| reach_train_task self train_loader val_loader self' trace :
    reachable self ->
    _train_task self train_loader val_loader = Ok (self', trace) ->
    reachable self'
| reach_after_task self data_loader self' :
    reachable self ->
    _after_task self data_loader = Ok self' ->
    reachable self'.

End Learner.

End ICarl.

(** * Predicates and scenarios of the properties *)

Import ICarl.

(** ** Predicates *)

(** The dictionary has the keys [0 .. len - 1], as the loop of
    [_reduce_examplars] expects. *)
Definition contiguous (e : gmap Z (list Z)) : Prop :=
  forall c, is_Some (e !! c) <-> 0 <= c < Z.of_nat (size e).

(** Two learners agree on what the exemplar memory reads. *)
Definition same_memory (a b : ICarl.t) : Prop :=
  _examplars a = _examplars b /\ _k a = _k b /\ _n_classes a = _n_classes b.

(** What the phases leave untouched in the memory bookkeeping. *)
Definition same_bookkeeping (a b : ICarl.t) : Prop :=
  _memory_size a = _memory_size b /\ _k a = _k b /\ _n_classes a = _n_classes b /\
  _task a = _task b /\ _task_size a = _task_size b.

(** What holds of every learner between two phases. *)
Definition well_formed (self : ICarl.t) : Prop :=
  _k self = _memory_size self /\ 0 <= _n_classes self /\
  0 <= _task self /\ 0 <= _task_size self /\
  forall c, is_Some (_examplars self !! c) -> 0 <= c < _n_classes self.

(** [a] comes before [b] in [l]. *)
Definition before {A} (l : list A) (a b : A) : Prop :=
  exists l1 l2 l3, l = l1 ++ a :: l2 ++ b :: l3.

(** Every candidate at one of [positions] has its identifier selected
    already. *)
Definition all_selected (positions : list nat) (idxes : list Z) (h : herd) : Prop :=
  forall j, j ∈ positions -> exists id, idxes !! j = Some id /\ id ∈ examplars_idxes h.

(** How many times an event occurs in a trace. *)
Definition count_event (e : event) (trace : list event) : nat :=
  length (filter (fun e' => e' = e) trace).

(** ** Scenarios *)

(** A parameter update that changes nothing. *)
Definition no_update (s : ICarl.t) (b : batch) (loss : f32) : (tensor1 -> tensor1) * tensor2 :=
  (embed (_features_extractor s), weight (_classifier s)).

(** Scenario A: a budget of 20 for 2 classes, 50 candidates per class;
    candidate [i] of class [c] has identifier [100 * c + i]. *)
Definition scenario_A_loader : Loader :=
  mkLoader [] (fun _ => [])
    (fun lo _ => [map (fun i => mkSample (100 * lo + i) i [of_Z i] lo) (seqZ 0 50)]).

Definition scenario_A_learner : ICarl.t :=
  ICarl.mk 20 1 20 2 (mkFeaturesExtractor 1 (fun x => x))
    (mkLinear [[zero]; [zero]] None) ∅ None
    (fun _ _ => zero) (fun _ _ => zero) None None 0 2 0 100.

(** A first task of two classes with three candidates each, under a
    budget of four. *)
Definition first_task_loader : Loader :=
  mkLoader [] (fun _ => [])
    (fun lo _ => [[mkSample (10 * lo) 0 [of_Z 1] lo;
                   mkSample (10 * lo + 1) 1 [of_Z 2] lo;
                   mkSample (10 * lo + 2) 2 [of_Z 4] lo]]).

Definition first_task_args : Args :=
  mkArgs 4 1 2 (mkFeaturesExtractor 1 (fun x => x)).

(** A learner at task 0 whose classification loss comes out as NaN. *)
Definition nan_loss_learner : ICarl.t :=
  ICarl.mk 20 1 20 2 (mkFeaturesExtractor 1 (fun x => x))
    (mkLinear [[zero]; [zero]] None) ∅ None
    (fun _ _ => nan) (fun _ _ => nan) None None 0 2 0 100.

(** The float32 2^-100, whose square is below the smallest float32. *)
Definition tiny : f32 := S754_finite false 8388608 (-123).

(** Two unit vectors that differ by 2^-100 in their second component,
    stored as the means of classes 0 and 1. *)
Definition near_means : tensor2 := [[of_Z 1; tiny]; [of_Z 1; zero]].

Definition near_learner : ICarl.t :=
  ICarl.mk 20 1 20 2 (mkFeaturesExtractor 2 (fun x => x))
    (mkLinear [[zero; zero]; [zero; zero]] None) ∅ (Some near_means)
    (fun _ _ => zero) (fun _ _ => zero) None None 0 2 0 100.

(** One sample of class 1 whose embedding is the mean of class 1. *)
Definition near_loader : Loader :=
  mkLoader [[mkSample 0 0 [of_Z 1; zero] 1]] (fun _ => []) (fun _ _ => []).

(** A second task of two classes (2 and 3) under a budget of four:
    classes 0 and 1 hold two exemplars each. *)
Definition second_task_loader : Loader :=
  mkLoader []
    (fun idxes => [map (fun i => mkSample i 0 [of_Z (i + 1)] 0) idxes])
    (fun lo _ => [[mkSample (10 * lo) 0 [of_Z 1] lo;
                   mkSample (10 * lo + 1) 1 [of_Z 2] lo;
                   mkSample (10 * lo + 2) 2 [of_Z 4] lo]]).

Definition second_task_learner : ICarl.t :=
  ICarl.mk 4 1 4 4 (mkFeaturesExtractor 1 (fun x => x))
    (mkLinear [[zero]; [zero]; [zero]; [zero]] None)
    {[ 0 := [0; 1]; 1 := [10; 11] ]} None
    (fun _ _ => zero) (fun _ _ => zero) None None 1 2 2 6.

(** A training set of two batches of one sample. *)
Definition two_batch_loader : Loader :=
  mkLoader [[mkSample 5 0 [of_Z 1] 0]; [mkSample 6 1 [of_Z 2] 1]]
    (fun _ => []) (fun _ _ => []).

(** The training set of that second task: one batch of two samples. *)
Definition second_task_train_loader : Loader :=
  mkLoader [[mkSample 20 0 [of_Z 1] 2; mkSample 21 1 [of_Z 2] 3]]
    (fun _ => []) (fun _ _ => []).

(** Three stored means, those of classes 1 and 2 being equal, and one
    sample of class 1 whose embedding normalises to that mean. *)
Definition mean_learner : ICarl.t :=
  ICarl.mk 20 1 20 3 (mkFeaturesExtractor 2 (fun x => x))
    (mkLinear [[zero; zero]; [zero; zero]; [zero; zero]] None) ∅
    (Some [[of_Z 3; of_Z 4]; [zero; of_Z 1]; [zero; of_Z 1]])
    (fun _ _ => zero) (fun _ _ => zero) None None 0 3 0 100.

Definition mean_loader : Loader :=
  mkLoader [[mkSample 0 0 [zero; of_Z 2] 1]] (fun _ => []) (fun _ _ => []).

(** Two stored means one rounding apart: the mean of class 1 is the
    normalised vector (1, 1) and the mean of class 0 is that vector
    normalised once more; the sample of class 1 has the mean of class 1
    as its embedding. *)
Definition renorm_means : tensor2 :=
  [normalize (normalize [of_Z 1; of_Z 1]); normalize [of_Z 1; of_Z 1]].

Definition renorm_learner : ICarl.t :=
  ICarl.mk 20 1 20 2 (mkFeaturesExtractor 2 (fun x => x))
    (mkLinear [[zero; zero]; [zero; zero]] None) ∅ (Some renorm_means)
    (fun _ _ => zero) (fun _ _ => zero) None None 0 2 0 100.

Definition renorm_loader : Loader :=
  mkLoader [[mkSample 0 0 (normalize [of_Z 1; of_Z 1]) 1]] (fun _ => []) (fun _ _ => []).

(** A learner that has seen one task of two classes and starts the
    next one, before its head grows. *)
Definition one_task_learner : ICarl.t :=
  ICarl.mk 4 1 4 2 (mkFeaturesExtractor 1 (fun x => x))
    (mkLinear [[zero]; [zero]] None)
    {[ 0 := [0; 1]; 1 := [10; 11] ]} None
    (fun _ _ => zero) (fun _ _ => zero) None None 1 2 2 6.

(** * Properties *)

(** ** The result monad and its loops *)

Lemma bind_Ok {A B} (f : A -> result B) (r : result A) (b : B) :
  r ≫= f = Ok b -> exists a, r = Ok a /\ f a = Ok b.
Proof. destruct r as [a|e]; simpl; [eauto | discriminate]. Qed.

(** A loop whose body keeps an invariant keeps it when it completes. *)
Lemma foldM_invariant {A B} (P : A -> Prop) (f : A -> B -> result A) (xs : list B) :
  (forall a x a', x ∈ xs -> P a -> f a x = Ok a' -> P a') ->
  forall a a', P a -> foldM f xs a = Ok a' -> P a'.
Proof.
  induction xs as [|x xs IH]; intros Hf a a' Ha Hrun; simpl in Hrun.
  - by injection Hrun as <-.
  - apply bind_Ok in Hrun as (a1 & H1 & Hrun).
    eapply IH; [| |exact Hrun].
    + intros ? ? ? Hin. apply Hf. by right.
    + eapply Hf; [by left|exact Ha|exact H1].
Qed.

Lemma range_elem (lo hi c : Z) : c ∈ range lo hi <-> lo <= c < hi.
Proof. unfold range. rewrite elem_of_seqZ. lia. Qed.

Lemma range_NoDup (lo hi : Z) : NoDup (range lo hi).
Proof. apply NoDup_seqZ. Qed.

Lemma range_length (lo hi : Z) : length (range lo hi) = Z.to_nat (hi - lo).
Proof. apply length_seqZ. Qed.

Lemma slice_to_nonneg {A} (l : list A) (m : Z) :
  0 <= m -> slice_to l m = take (Z.to_nat m) l.
Proof. intros Hm. unfold slice_to. by case_decide. Qed.

Lemma slice_to_length {A} (l : list A) (m : Z) :
  0 <= m -> (Z.of_nat (length (slice_to l m)) <= m)%Z.
Proof. intros Hm. rewrite slice_to_nonneg, length_take; lia. Qed.

(** ** Reduction of the exemplar sets *)

Lemma reduce_class_ok (self : ICarl.t) (c : Z) (l : list Z) (m : Z) :
  _examplars self !! c = Some l -> _m self = Ok m ->
  reduce_class self c = Ok (with_examplars (<[c := slice_to l m]> (_examplars self)) self).
Proof. intros Hl Hm. unfold reduce_class, getitem. rewrite Hl. simpl. by rewrite Hm. Qed.

Lemma reduce_loop (ks : list Z) :
  NoDup ks ->
  forall self m, _m self = Ok m ->
  (forall c, c ∈ ks -> is_Some (_examplars self !! c)) ->
  exists e', foldM reduce_class ks self = Ok (with_examplars e' self) /\
    forall c, e' !! c =
      if decide (c ∈ ks) then (fun l => slice_to l m) <$> (_examplars self !! c)
      else _examplars self !! c.
Proof.
  induction 1 as [|k ks Hk Hnd IH]; intros self m Hm Hkeys.
  - exists (_examplars self). split; [by destruct self|].
    intros c. case_decide as Hc; [by apply elem_of_nil in Hc | done].
  - destruct (Hkeys k) as [l Hl]; [by left|].
    set (self1 := with_examplars (<[k := slice_to l m]> (_examplars self)) self).
    destruct (IH self1 m) as (e' & Hrun & Hlook).
    { exact Hm. }
    { intros c Hc. simpl. rewrite lookup_insert. case_decide; [by eexists|].
      apply Hkeys. by right. }
    exists e'. split.
    + cbn [foldM]. rewrite (reduce_class_ok self k l m Hl Hm). simpl.
      fold self1. rewrite Hrun. done.
    + intros c. rewrite Hlook. simpl. rewrite lookup_insert.
      destruct (decide (k = c)) as [->|Hne].
      * rewrite decide_False by done. rewrite decide_True by (by left).
        by rewrite Hl.
      * destruct (decide (c ∈ ks)) as [Hc|Hc].
        -- rewrite decide_True by (by right). done.
        -- rewrite decide_False; [done|].
           intros [->|?]%elem_of_cons; done.
Qed.

Lemma contiguous_keys (e : gmap Z (list Z)) :
  contiguous e -> forall c, c ∈ range 0 (Z.of_nat (size e)) -> is_Some (e !! c).
Proof. intros He c Hc%range_elem. by apply He. Qed.

(** A dictionary on which the loop completes has the keys the loop
    visited and no other. *)
Lemma keys_visited_contiguous (e : gmap Z (list Z)) :
  (forall c, 0 <= c < Z.of_nat (size e) -> is_Some (e !! c)) -> contiguous e.
Proof.
  intros Hall c. split; [|apply Hall].
  intros Hc.
  assert (Hsub : (list_to_set (range 0 (Z.of_nat (size e))) : gset Z) ⊆ dom e).
  { intros x Hx. apply elem_of_list_to_set, range_elem in Hx.
    by apply elem_of_dom, Hall. }
  assert (Heq : (list_to_set (range 0 (Z.of_nat (size e))) : gset Z) = dom e).
  { apply set_subseteq_size_eq; [exact Hsub|].
    rewrite size_dom, size_list_to_set by apply range_NoDup.
    rewrite range_length. lia. }
  apply elem_of_dom in Hc. rewrite <- Heq in Hc.
  by apply elem_of_list_to_set, range_elem in Hc.
Qed.

Lemma _m_Ok (self : ICarl.t) (m : Z) :
  _m self = Ok m <-> _n_classes self ≠ 0 /\ m = _k self / _n_classes self.
Proof.
  unfold _m, floordiv. case_decide as Hn; split.
  - discriminate.
  - intros [? _]. done.
  - intros [= <-]. done.
  - intros [_ ->]. done.
Qed.

Lemma reduce_class_inv (self self' : ICarl.t) (c : Z) :
  reduce_class self c = Ok self' ->
  exists l m, _examplars self !! c = Some l /\ _m self = Ok m /\
    self' = with_examplars (<[c := slice_to l m]> (_examplars self)) self.
Proof.
  unfold reduce_class, getitem. intros H.
  destruct (_examplars self !! c) as [l|]; [|discriminate]. simpl in H.
  destruct (_m self) as [m|]; [|discriminate]. simpl in H.
  injection H as <-. eauto.
Qed.

Lemma reduce_loop_inv (ks : list Z) :
  forall self self', foldM reduce_class ks self = Ok self' ->
  (forall c, c ∈ ks -> is_Some (_examplars self !! c)) /\
  (ks ≠ [] -> _n_classes self ≠ 0).
Proof.
  induction ks as [|k ks IH]; intros self self' Hrun.
  - split; [by intros c Hc%elem_of_nil | done].
  - cbn [foldM] in Hrun. apply bind_Ok in Hrun as (self1 & H1 & Hrun).
    apply reduce_class_inv in H1 as (l & m & Hl & Hm & ->).
    apply IH in Hrun as [Hks _]. split.
    + intros c [->|Hc]%elem_of_cons; [by eexists|].
      specialize (Hks c Hc). simpl in Hks. rewrite lookup_insert in Hks.
      case_decide; [subst; by eexists | done].
    + intros _. by apply _m_Ok in Hm as [? _].
Qed.

(** [_reduce_examplars] completes on a dictionary with contiguous keys
    and truncates every entry. *)
Lemma reduce_spec (self : ICarl.t) :
  contiguous (_examplars self) ->
  (size (_examplars self) ≠ 0%nat -> _n_classes self ≠ 0) ->
  exists e', _reduce_examplars self = Ok (with_examplars e' self) /\
    forall c, e' !! c =
      (fun l => slice_to l (_k self / _n_classes self)) <$> (_examplars self !! c).
Proof.
  intros Hcont Hn. unfold _reduce_examplars.
  destruct (decide (size (_examplars self) = 0%nat)) as [Hz|Hnz].
  - rewrite Hz. simpl. exists (_examplars self). split; [by destruct self|].
    intros c. apply map_size_empty_inv in Hz. rewrite Hz. by rewrite lookup_empty.
  - destruct (reduce_loop (range 0 (Z.of_nat (size (_examplars self)))) (range_NoDup _ _)
                self (_k self / _n_classes self)) as (e' & Hrun & Hlook).
    { apply _m_Ok. auto. }
    { by apply contiguous_keys. }
    exists e'. split; [exact Hrun|].
    intros c. rewrite Hlook. case_decide as Hc; [done|].
    destruct (_examplars self !! c) as [l|] eqn:Hl; [|done].
    exfalso. apply Hc, range_elem, Hcont. by eexists.
Qed.

Lemma reduce_inv (self self' : ICarl.t) :
  _reduce_examplars self = Ok self' ->
  contiguous (_examplars self) /\ (size (_examplars self) ≠ 0%nat -> _n_classes self ≠ 0).
Proof.
  unfold _reduce_examplars. intros Hrun.
  apply reduce_loop_inv in Hrun as [Hks Hn]. split.
  - apply keys_visited_contiguous. intros c Hc. by apply Hks, range_elem.
  - intros Hsz. apply Hn. intros Hnil.
    apply (f_equal length) in Hnil. rewrite range_length in Hnil. simpl in Hnil. lia.
Qed.

(** What a completed [_reduce_examplars] leaves. *)
Lemma reduce_result (self self' : ICarl.t) :
  _reduce_examplars self = Ok self' ->
  exists e', self' = with_examplars e' self /\
    forall c, e' !! c =
      (fun l => slice_to l (_k self / _n_classes self)) <$> (_examplars self !! c).
Proof.
  intros Hrun. destruct (reduce_inv _ _ Hrun) as [Hc Hn].
  destruct (reduce_spec self Hc Hn) as (e' & Hrun' & Hlook).
  rewrite Hrun in Hrun'. injection Hrun' as ->. eauto.
Qed.

(** ** Growth of the classifier head *)

Lemma new_linear_Ok (out : Z) (fresh : nat -> tensor1) :
  0 <= out -> new_linear out fresh = Ok (mkLinear (map fresh (seq 0 (Z.to_nat out))) None).
Proof. intros H. unfold new_linear. by rewrite decide_True. Qed.

Lemma drop_map_seq {A} (f : nat -> A) (a b : nat) :
  drop a (map f (seq 0 (a + b))) = map f (seq a b).
Proof.
  rewrite seq_app, map_app. simpl.
  rewrite drop_app_length'; [done|]. by rewrite length_map, length_seq.
Qed.

Lemma add_n_classes_spec (self : ICarl.t) (n : Z) (fresh : nat -> tensor1) (old_n : nat) :
  length (weight (_classifier self)) = old_n ->
  _n_classes self = Z.of_nat old_n ->
  0 <= n -> 0 < Z.of_nat old_n + n ->
  _add_n_classes n fresh self =
    Ok (with_classifier
          (mkLinear (weight (_classifier self) ++ map fresh (seq old_n (Z.to_nat n))) None)
          (with_n_classes (Z.of_nat old_n + n) self)).
Proof.
  intros Hlen Hn Hpos Hnz. unfold _add_n_classes. cbn [_n_classes with_n_classes].
  rewrite Hn, new_linear_Ok by lia. cbn.
  replace (Z.of_nat old_n + n - n) with (Z.of_nat old_n) by lia.
  unfold setitem_slice_to.
  assert (Hsl : length (slice_to (map fresh (seq 0 (Z.to_nat (Z.of_nat old_n + n))))
                         (Z.of_nat old_n)) = old_n).
  { rewrite slice_to_nonneg by lia.
    rewrite length_take, length_map, length_seq. lia. }
  rewrite Hsl, decide_True by done. cbn.
  unfold _m, floordiv. cbn. rewrite decide_False by lia. cbn.
  replace (Z.to_nat (Z.of_nat old_n + n)) with (old_n + Z.to_nat n)%nat by lia.
  rewrite drop_map_seq. reflexivity.
Qed.

(** C5.  Growing a head of [old_n] outputs by [task_size] classes gives a
    head without bias, of [old_n + task_size] rows, whose first [old_n]
    rows are the rows of the previous head, value for value, and whose
    other rows are the freshly drawn ones; this is the state right after
    [_add_n_classes], before any training step. *)
Theorem C5_head_growth_keeps_old_rows
    (self : ICarl.t) (task_size : Z) (fresh : nat -> tensor1) (old_n : nat) :
  length (weight (_classifier self)) = old_n ->
  _n_classes self = Z.of_nat old_n ->
  0 <= task_size -> 0 < Z.of_nat old_n + task_size ->
  exists self',
    _add_n_classes task_size fresh self = Ok self' /\
    _n_classes self' = Z.of_nat old_n + task_size /\
    bias (_classifier self') = None /\
    length (weight (_classifier self')) = (old_n + Z.to_nat task_size)%nat /\
    take old_n (weight (_classifier self')) = weight (_classifier self) /\
    (forall i row, (i < old_n)%nat ->
       weight (_classifier self) !! i = Some row ->
       weight (_classifier self') !! i = Some row) /\
    drop old_n (weight (_classifier self')) = map fresh (seq old_n (Z.to_nat task_size)).
Proof.
  intros Hlen Hn Hpos Hnz. eexists. split; [by apply add_n_classes_spec|].
  cbn. split_and!.
  - done.
  - done.
  - rewrite length_app, length_map, length_seq. lia.
  - by rewrite take_app_length'.
  - intros i row Hi Hrow. by apply lookup_app_l_Some.
  - by rewrite drop_app_length'.
Qed.

Lemma C5_head_growth_keeps_old_rows_witness :
  let head := mkLinear [[of_Z 1; of_Z 2]; [of_Z 3; of_Z 4]] None in
  let self := ICarl.mk 20 1 20 2 (mkFeaturesExtractor 2 (fun x => x)) head ∅ None
                (fun _ _ => zero) (fun _ _ => zero) None None 1 2 2 0 in
  exists self',
    _add_n_classes 2 (fun _ => [of_Z 7; of_Z 7]) self = Ok self' /\
    take 2 (weight (_classifier self')) = [[of_Z 1; of_Z 2]; [of_Z 3; of_Z 4]].
Proof.
  intros head self.
  destruct (C5_head_growth_keeps_old_rows self 2 (fun _ => [of_Z 7; of_Z 7]) 2)
    as (self' & Hrun & _ & _ & _ & Htake & _).
  - reflexivity.
  - reflexivity.
  - lia.
  - lia.
  - exists self'. split; [exact Hrun | exact Htake].
Defined.

Lemma add_n_classes_inv (self self' : ICarl.t) (n : Z) (fresh : nat -> tensor1) :
  _add_n_classes n fresh self = Ok self' ->
  _examplars self' = _examplars self /\ _k self' = _k self /\
  _n_classes self' = _n_classes self + n /\ _n_classes self' ≠ 0 /\
  0 <= _n_classes self' /\
  _task self' = _task self /\ _task_size self' = _task_size self /\
  _memory_size self' = _memory_size self.
Proof.
  unfold _add_n_classes. intros H.
  apply bind_Ok in H as (c & Hc & H). apply bind_Ok in H as (w & Hw & H).
  apply bind_Ok in H as (m & Hm & H). injection H as <-.
  apply _m_Ok in Hm as [Hnz _]. cbn in Hnz. cbn.
  unfold new_linear in Hc. cbn in Hc. case_decide; [|discriminate]. done.
Qed.

(** C3.  A class known before the head grew keeps, after the reduction
    step, the first [memory_size // n_classes] entries of its exemplar
    set, [n_classes] being the value after the growth; the reduction
    completes, and the kept set has at most that many entries. *)
Theorem C3_reduction_truncates_to_quota
    (before grown self : ICarl.t) (task_size : Z) (fresh : nat -> tensor1) :
  _add_n_classes task_size fresh before = Ok grown ->
  same_memory grown self ->
  contiguous (_examplars before) ->
  0 <= _k before -> 0 < _n_classes before + task_size ->
  let m := _k before / (_n_classes before + task_size) in
  exists self',
    _reduce_examplars self = Ok self' /\
    forall c l, _examplars before !! c = Some l ->
      _examplars self' !! c = Some (take (Z.to_nat m) l) /\
      Z.of_nat (length (take (Z.to_nat m) l)) <= m.
Proof.
  intros Hgrow (He & Hk & Hn) Hcont Hmem Hpos m.
  apply add_n_classes_inv in Hgrow as (He' & Hk' & Hn' & Hnz & _).
  assert (Hm : 0 <= m) by (apply Z.div_pos; lia).
  destruct (reduce_spec self) as (e' & Hrun & Hlook).
  { by rewrite <- He, He'. }
  { intros _. by rewrite <- Hn. }
  exists (with_examplars e' self). split; [exact Hrun|].
  intros c l Hl. cbn. rewrite Hlook, <- He, He', Hl. cbn.
  rewrite <- Hk, Hk', <- Hn, Hn'. fold m.
  rewrite slice_to_nonneg by done. split; [done|].
  rewrite length_take. lia.
Qed.

Lemma C3_reduction_truncates_to_quota_witness :
  let e : gmap Z (list Z) := {[ 0 := [10; 11; 12; 13] ; 1 := [20; 21; 22; 23] ]} in
  let before := ICarl.mk 8 1 8 2 (mkFeaturesExtractor 1 (fun x => x))
                  (mkLinear [[zero]; [zero]] None) e None
                  (fun _ _ => zero) (fun _ _ => zero) None None 1 2 2 0 in
  exists grown self',
    _add_n_classes 2 (fun _ => [zero]) before = Ok grown /\
    _reduce_examplars grown = Ok self' /\
    _examplars self' !! 0 = Some [10; 11] /\
    _examplars self' !! 1 = Some [20; 21].
Proof.
  intros e before.
  pose proof (add_n_classes_spec before 2 (fun _ => [zero]) 2
                eq_refl eq_refl ltac:(lia) ltac:(lia)) as Hgrow.
  match type of Hgrow with _ = Ok ?g => set (grown := g) in * end.
  destruct (C3_reduction_truncates_to_quota before grown grown 2 (fun _ => [zero]) Hgrow)
    as (self' & Hrun & Hres).
  - done.
  - intros c. subst e. cbn.
    assert (Hsz : size ({[ 0 := [10; 11; 12; 13] ; 1 := [20; 21; 22; 23] ]} : gmap Z (list Z))
                  = 2%nat) by (vm_compute; reflexivity).
    rewrite Hsz.
    destruct (decide (c = 0)) as [->|?]; [split; [lia | by eexists]|].
    destruct (decide (c = 1)) as [->|?]; [split; [lia | by eexists]|].
    rewrite lookup_insert_ne, lookup_singleton_ne by done.
    split; [by intros [? ?] | lia].
  - cbn. lia.
  - cbn. lia.
  - exists grown, self'. split; [exact Hgrow|]. split; [exact Hrun|].
    split; [apply (Hres 0 [10; 11; 12; 13]) | apply (Hres 1 [20; 21; 22; 23])]; done.
Defined.

(** ** The ranking [argsort] returns *)

Lemma insert_perm (x : f32 * nat) (l : list (f32 * nat)) : insert x l ≡ₚ x :: l.
Proof.
  induction l as [|y l IH]; simpl; [done|].
  destruct (sort_lt y.1 x.1); [|done].
  rewrite IH. apply Permutation_swap.
Qed.

Lemma isort_perm (l : list (f32 * nat)) : isort l ≡ₚ l.
Proof.
  induction l as [|x l IH]; simpl; [done|].
  by rewrite insert_perm, IH.
Qed.

(** [argsort] returns every position of the tensor once. *)
Lemma argsort_perm (t : tensor1) : argsort t ≡ₚ seq 0 (length t).
Proof.
  unfold argsort. rewrite isort_perm.
  rewrite snd_zip; [done|]. by rewrite length_seq.
Qed.

Lemma argsort_elem (t : tensor1) (i : nat) : i ∈ argsort t <-> (i < length t)%nat.
Proof. rewrite argsort_perm, elem_of_seq. lia. Qed.

(** No value is ranked strictly before itself. *)
Lemma ltb_irrefl (x : f32) : ltb x x = false.
Proof.
  unfold ltb, SFltb.
  destruct x as [s|s| |s m e]; simpl; try done.
  - by destruct s.
  - destruct s; rewrite Z.compare_refl, Pos.compare_cont_refl; done.
Qed.

Lemma sort_lt_irrefl (x : f32) : sort_lt x x = false.
Proof. unfold sort_lt. destruct (is_nan x); [done|apply ltb_irrefl]. Qed.

Lemma before_cons_inv {A} (x : A) (l : list A) (a b : A) :
  before (x :: l) a b -> (x = a /\ b ∈ l) \/ before l a b.
Proof.
  intros (l1 & l2 & l3 & Heq). destruct l1 as [|y l1]; simpl in Heq.
  - injection Heq as -> ->. left. split; [done|]. set_solver.
  - injection Heq as -> ->. right. by exists l1, l2, l3.
Qed.

Lemma before_cons {A} (x : A) (l : list A) (a b : A) :
  before l a b -> before (x :: l) a b.
Proof. intros (l1 & l2 & l3 & ->). by exists (x :: l1), l2, l3. Qed.

Lemma before_head {A} (a b : A) (l : list A) : b ∈ l -> before (a :: l) a b.
Proof. intros (l2 & l3 & ->)%list_elem_of_split. by exists [], l2, l3. Qed.

Lemma before_fmap_inv {A B} (f : A -> B) (l : list A) (x y : B) :
  before (f <$> l) x y -> exists a b, before l a b /\ f a = x /\ f b = y.
Proof.
  intros (k1 & k2 & k3 & Heq).
  apply fmap_app_inv in Heq as (l1 & r & _ & Hr & ->).
  symmetry in Hr.
  apply fmap_cons_inv in Hr as (a & r' & -> & Hr' & ->).
  symmetry in Hr'.
  apply fmap_app_inv in Hr' as (l2 & r'' & _ & Hr'' & ->).
  symmetry in Hr''.
  apply fmap_cons_inv in Hr'' as (b & l3 & -> & _ & ->).
  exists a, b. split; [|done]. by exists l1, l2, l3.
Qed.

Lemma zip_seq_lookup (t : tensor1) (i : nat) (p : f32 * nat) :
  zip t (seq 0 (length t)) !! i = Some p -> p.2 = i /\ t !! i = Some p.1.
Proof.
  intros H. apply lookup_zip_with_Some in H as (x & y & -> & Hx & Hy).
  apply lookup_seq in Hy as [-> _]. done.
Qed.

(** ** Herding selection *)

(** The inner loop either finds every ranked candidate selected and
    leaves the herd as it is, or appends the first candidate of the
    ranking whose identifier is new. *)
Lemma pick_winner_spec (ranking : list nat) (features : tensor2) (idxes : list Z) (h : herd) :
  length features = length idxes ->
  (forall i, i ∈ ranking -> (i < length idxes)%nat) ->
  (pick_winner ranking features idxes h = Ok h /\ all_selected ranking idxes h) \/
  (exists pre i post id feature,
     ranking = pre ++ i :: post /\ all_selected pre idxes h /\
     idxes !! i = Some id /\ (id ∉ examplars_idxes h) /\ features !! i = Some feature /\
     pick_winner ranking features idxes h =
       Ok (mkHerd (examplars_idxes h ++ [id]) (vadd (examplars_mean h) feature))).
Proof.
  intros Hlen. induction ranking as [|i ranking IH]; intros Hrange.
  - left. split; [done|]. by intros j Hj%elem_of_nil.
  - assert (Hi : (i < length idxes)%nat) by (apply Hrange; by left).
    destruct (lookup_lt_is_Some_2 idxes i Hi) as [id Hid].
    destruct (lookup_lt_is_Some_2 features i) as [feature Hf]; [lia|].
    cbn [pick_winner]. unfold list_getitem. rewrite Hid. cbn.
    destruct (decide (id ∈ examplars_idxes h)) as [Hsel|Hnew].
    + destruct IH as [[Hrun Hall]|(pre & i' & post & id' & f' & -> & Hall & H1 & H2 & H3 & Hrun)].
      { intros j Hj. apply Hrange. by right. }
      * left. split; [done|].
        intros j [->|Hj]%elem_of_cons; [by exists id | by apply Hall].
      * right. exists (i :: pre), i', post, id', f'. split_and!; try done.
        intros j [->|Hj]%elem_of_cons; [by exists id | by apply Hall].
    + right. exists [], i, ranking, id, feature. rewrite Hf. cbn. split_and!; try done.
      by intros j Hj%elem_of_nil.
Qed.

Lemma herding_distances_length (class_mean : tensor1) (features : tensor2)
    (mean : tensor1) (i : nat) :
  length (herding_distances class_mean features mean i) = length features.
Proof.
  unfold herding_distances, norm2_dim1, normalize_dim0.
  by rewrite !length_map.
Qed.

(** What one iteration of the herding loop does. *)
Lemma herding_step_spec (class_mean : tensor1) (features : tensor2) (idxes : list Z)
    (h : herd) (i : nat) :
  length features = length idxes ->
  let ranking := argsort (herding_distances class_mean features (examplars_mean h) i) in
  (herding_step class_mean features idxes h i = Ok h /\ all_selected ranking idxes h) \/
  (exists pre w post id feature,
     ranking = pre ++ w :: post /\ all_selected pre idxes h /\
     idxes !! w = Some id /\ (id ∉ examplars_idxes h) /\ features !! w = Some feature /\
     herding_step class_mean features idxes h i =
       Ok (mkHerd (examplars_idxes h ++ [id]) (vadd (examplars_mean h) feature))).
Proof.
  intros Hlen ranking. unfold herding_step. apply pick_winner_spec; [done|].
  intros j Hj. apply argsort_elem in Hj.
  by rewrite herding_distances_length, Hlen in Hj.
Qed.

(** When no candidate is new, every identifier of the pool is selected. *)
Lemma all_selected_pool (t : tensor1) (idxes : list Z) (h : herd) :
  length t = length idxes ->
  all_selected (argsort t) idxes h -> idxes ⊆ examplars_idxes h.
Proof.
  intros Hlen Hall id Hid.
  apply list_elem_of_lookup in Hid as [j Hj].
  destruct (Hall j) as (id' & Hj' & Hsel).
  { apply argsort_elem. rewrite Hlen. by eapply lookup_lt_Some. }
  congruence.
Qed.

(** The herding loop completes; it selects distinct identifiers of the
    pool, at most one per iteration, and exactly one per iteration as
    long as the pool holds distinct identifiers that are not exhausted. *)
Lemma herding_loop_spec (class_mean : tensor1) (features : tensor2) (idxes : list Z)
    (its : list nat) :
  length features = length idxes ->
  forall h0, NoDup (examplars_idxes h0) -> examplars_idxes h0 ⊆ idxes ->
  exists h,
    foldM (herding_step class_mean features idxes) its h0 = Ok h /\
    NoDup (examplars_idxes h) /\ examplars_idxes h ⊆ idxes /\
    (length (examplars_idxes h) <= length (examplars_idxes h0) + length its)%nat /\
    (NoDup idxes ->
     (length (examplars_idxes h0) + length its <= length idxes)%nat ->
     length (examplars_idxes h) = (length (examplars_idxes h0) + length its)%nat).
Proof.
  intros Hlen. induction its as [|i its IH]; intros h0 Hnd Hsub.
  - exists h0. cbn. split_and!; try done; lia.
  - cbn [foldM].
    destruct (herding_step_spec class_mean features idxes h0 i Hlen)
      as [[Hrun Hall]|(pre & w & post & id & f & _ & _ & Hw & Hnew & _ & Hrun)];
      rewrite Hrun; cbn.
    + destruct (IH h0 Hnd Hsub) as (h & Hh & Hnd' & Hsub' & Hle & Heq).
      exists h. split_and!; try done; [cbn; lia|].
      intros Hndi Hroom. exfalso. cbn in Hroom.
      apply all_selected_pool in Hall; [|by rewrite herding_distances_length].
      apply NoDup_submseteq in Hall; [|done].
      apply submseteq_length in Hall. lia.
    + destruct (IH (mkHerd (examplars_idxes h0 ++ [id]) (vadd (examplars_mean h0) f)))
        as (h & Hh & Hnd' & Hsub' & Hle & Heq).
      { cbn. apply NoDup_app. split_and!; [done| |apply NoDup_singleton].
        intros x Hx ->%list_elem_of_singleton. done. }
      { cbn. intros x [Hx| ->%list_elem_of_singleton]%elem_of_app; [by apply Hsub|].
        by eapply list_elem_of_lookup_2. }
      cbn in Hle, Heq. rewrite length_app in Hle, Heq. cbn in Hle, Heq.
      exists h. split_and!; try done; [cbn; lia|].
      intros Hndi Hroom. cbn in Hroom. rewrite Heq; [lia|done|lia].
Qed.

Lemma herding_spec (m : Z) (dim : nat) (class_mean : tensor1) (features : tensor2)
    (idxes : list Z) :
  length features = length idxes ->
  exists h,
    herding m dim class_mean features idxes = Ok h /\
    NoDup (examplars_idxes h) /\ examplars_idxes h ⊆ idxes /\
    Z.of_nat (length (examplars_idxes h)) <= Z.max 0 (Z.min m (Z.of_nat (length idxes))) /\
    (NoDup idxes ->
     Z.of_nat (length (examplars_idxes h)) = Z.max 0 (Z.min m (Z.of_nat (length idxes)))).
Proof.
  intros Hlen. unfold herding, Py.min.
  destruct (herding_loop_spec class_mean features idxes
              (seq 0 (Z.to_nat (Z.min m (Z.of_nat (length features))))) Hlen
              (mkHerd [] (zeros dim))) as (h & Hrun & Hnd & Hsub & Hle & Heq).
  { cbn. apply NoDup_nil_2. }
  { cbn. by intros x Hx%elem_of_nil. }
  cbn in Hle, Heq. rewrite length_seq in Hle, Heq. rewrite Hlen in *.
  exists h. split_and!; try done; [lia|].
  intros Hndi. rewrite Heq; [lia|done|lia].
Qed.

Lemma concat_map_map {A B} (f : A -> B) (ls : list (list A)) :
  concat (map (map f) ls) = map f (concat ls).
Proof. induction ls as [|l ls IH]; cbn; [done|]. by rewrite IH, map_app. Qed.

(** [_extract_features] needs at least one batch. *)
Lemma extract_features_spec (self : ICarl.t) (loader : list batch) :
  loader ≠ [] ->
  let features := map (fun s => embed (_features_extractor self) (input s)) (concat loader) in
  _extract_features self loader =
    Ok (features, mean_dim0 features, map real_idx (concat loader)).
Proof.
  intros Hne features. unfold _extract_features, cat.
  destruct loader as [|b loader]; [done|]. cbn [map].
  cbn -[concat]. unfold features.
  rewrite <- (concat_map_map real_idx (b :: loader)).
  rewrite <- (concat_map_map (fun s => embed (_features_extractor self) (input s)) (b :: loader)).
  done.
Qed.

Lemma extract_features_inv (self : ICarl.t) (loader : list batch) features mean idxes :
  _extract_features self loader = Ok (features, mean, idxes) ->
  loader ≠ [] /\
  features = map (fun s => embed (_features_extractor self) (input s)) (concat loader) /\
  idxes = map real_idx (concat loader) /\ length features = length idxes.
Proof.
  intros H. destruct loader as [|b loader]; [discriminate|].
  rewrite extract_features_spec in H by done. injection H as <- <- <-.
  split_and!; try done. by rewrite !length_map.
Qed.

(** What building one new class does: herding over the candidates of the
    class, the new entry of the dictionary and the new mean. *)
Lemma build_class_spec (loader : Loader) (means : list tensor1) (self : ICarl.t)
    (c m : Z) :
  set_classes_range loader c c ≠ [] -> _m self = Ok m ->
  let pool := map real_idx (concat (set_classes_range loader c c)) in
  exists h,
    build_class loader (means, self) c =
      Ok (means ++ [normalize (div_int (examplars_mean h)
                                       (Z.of_nat (length (examplars_idxes h))))],
          with_examplars (<[c := examplars_idxes h]> (_examplars self)) self) /\
    NoDup (examplars_idxes h) /\ examplars_idxes h ⊆ pool /\
    Z.of_nat (length (examplars_idxes h)) <= Z.max 0 (Z.min m (Z.of_nat (length pool))) /\
    (NoDup pool ->
     Z.of_nat (length (examplars_idxes h)) = Z.max 0 (Z.min m (Z.of_nat (length pool)))) /\
    herding m (out_dim (_features_extractor self))
      (normalize (mean_dim0 (map (fun s => embed (_features_extractor self) (input s))
                                 (concat (set_classes_range loader c c)))))
      (map (fun s => embed (_features_extractor self) (input s))
           (concat (set_classes_range loader c c)))
      pool = Ok h.
Proof.
  intros Hne Hm pool. unfold build_class.
  rewrite extract_features_spec by done. cbn -[herding]. rewrite Hm. cbn -[herding].
  destruct (herding_spec m (out_dim (_features_extractor self))
              (normalize (mean_dim0 (map (fun s => embed (_features_extractor self) (input s))
                                         (concat (set_classes_range loader c c)))))
              (map (fun s => embed (_features_extractor self) (input s))
                   (concat (set_classes_range loader c c)))
              pool) as (h & Hrun & Hnd & Hsub & Hle & Heq).
  { unfold pool. by rewrite !length_map. }
  exists h. fold pool. rewrite Hrun. cbn. split_and!; done.
Qed.

(** C9.  Building a new class from a pool of [n] distinct identifiers
    with quota [m = memory_size // n_classes] completes and stores exactly
    [min(m, n)] identifiers, without duplicates, all of them from the
    pool of that class. *)
Theorem C9_herding_selects_min_m_n
    (loader : Loader) (means : list tensor1) (self : ICarl.t) (c : Z) :
  let pool := map real_idx (concat (set_classes_range loader c c)) in
  pool ≠ [] -> NoDup pool -> 0 <= _k self -> 0 < _n_classes self ->
  let m := _k self / _n_classes self in
  exists means' self' l,
    build_class loader (means, self) c = Ok (means', self') /\
    _examplars self' !! c = Some l /\
    Z.of_nat (length l) = Z.min m (Z.of_nat (length pool)) /\
    NoDup l /\ l ⊆ pool.
Proof.
  intros pool Hne Hnd Hk Hn m.
  assert (Hm : 0 <= m) by (apply Z.div_pos; lia).
  destruct (build_class_spec loader means self c m) as (h & Hrun & Hnd' & Hsub & _ & Heq & _).
  { intros Hnil. apply Hne. unfold pool. by rewrite Hnil. }
  { apply _m_Ok. split; [lia|done]. }
  eexists _, _, (examplars_idxes h). split; [exact Hrun|].
  cbn. rewrite lookup_insert_eq. split_and!; try done.
  fold pool in Heq. rewrite Heq by done. lia.
Qed.

Lemma C9_herding_selects_min_m_n_witness :
  exists means' self' l,
    build_class scenario_A_loader ([], scenario_A_learner) 1 = Ok (means', self') /\
    _examplars self' !! 1 = Some l /\ Z.of_nat (length l) = 10 /\ NoDup l /\
    l ⊆ map real_idx (concat (set_classes_range scenario_A_loader 1 1)).
Proof.
  destruct (C9_herding_selects_min_m_n scenario_A_loader [] scenario_A_learner 1)
    as (means' & self' & l & Hrun & Hl & Hlen & Hnd & Hsub).
  - vm_compute. discriminate.
  - apply (bool_decide_unpack _). vm_compute. reflexivity.
  - cbn. lia.
  - cbn. lia.
  - exists means', self', l. split_and!; try done.
Defined.

(** ** Rebuilding the exemplar sets *)

Lemma known_class_mean_inv (loader : Loader) means self c means' self' :
  known_class_mean loader (means, self) c = Ok (means', self') ->
  self' = self /\ is_Some (_examplars self !! c).
Proof.
  unfold known_class_mean, getitem. intros H.
  destruct (_examplars self !! c) as [l|]; [|discriminate]. cbn in H.
  destruct (_extract_features self (set_idxes loader l)) as [[[? ?] ?]|]; [|discriminate].
  cbn in H. injection H as <- <-. split; [done | by eexists].
Qed.

Lemma known_loop_inv (loader : Loader) (ks : list Z) :
  forall means self acc,
  foldM (known_class_mean loader) ks (means, self) = Ok acc ->
  acc.2 = self /\ forall c, c ∈ ks -> is_Some (_examplars self !! c).
Proof.
  induction ks as [|k ks IH]; intros means self acc Hrun.
  - cbn in Hrun. injection Hrun as <-. split; [done|]. by intros c Hc%elem_of_nil.
  - cbn [foldM] in Hrun. apply bind_Ok in Hrun as ([means1 self1] & H1 & Hrun).
    apply known_class_mean_inv in H1 as [-> Hk].
    apply IH in Hrun as [-> Hks]. split; [done|].
    intros c [->|Hc]%elem_of_cons; [done | by apply Hks].
Qed.

Lemma build_class_inv (loader : Loader) means self c means' self' :
  build_class loader (means, self) c = Ok (means', self') ->
  exists l, self' = with_examplars (<[c := l]> (_examplars self)) self /\
    _n_classes self ≠ 0 /\
    Z.of_nat (length l) <= Z.max 0 (_k self / _n_classes self).
Proof.
  intros H.
  destruct (decide (set_classes_range loader c c = [])) as [Hnil|Hne].
  { unfold build_class in H. rewrite Hnil in H. discriminate. }
  destruct (_m self) as [m|e] eqn:Hm.
  - destruct (build_class_spec loader means self c m Hne Hm) as (h & Hrun & _ & _ & Hle & _).
    rewrite Hrun in H. injection H as <- <-.
    apply _m_Ok in Hm as [Hn ->]. exists (examplars_idxes h). split_and!; [done|done|lia].
  - unfold build_class in H. rewrite extract_features_spec in H by done.
    cbn -[herding] in H. rewrite Hm in H. discriminate.
Qed.

(** The loop over the new classes only adds entries for the classes it
    visits, each within the quota. *)
Lemma build_loop_inv (loader : Loader) (self : ICarl.t) (ks : list Z) :
  forall means acc,
  foldM (build_class loader) ks (means, self) = Ok acc ->
  exists e', acc.2 = with_examplars e' self /\
    forall c l, e' !! c = Some l ->
      _examplars self !! c = Some l \/
      (c ∈ ks /\ Z.of_nat (length l) <= Z.max 0 (_k self / _n_classes self)).
Proof.
  intros means acc Hrun.
  apply (foldM_invariant
           (fun a : list tensor1 * ICarl.t =>
              exists e', a.2 = with_examplars e' self /\
                forall c l, e' !! c = Some l ->
                  _examplars self !! c = Some l \/
                  (c ∈ ks /\ Z.of_nat (length l) <= Z.max 0 (_k self / _n_classes self)))
           (build_class loader) ks) with (a := (means, self)); [| |exact Hrun].
  - intros [means1 self1] k [means2 self2] Hk (e1 & He1 & Hinv) Hstep.
    cbn in He1. subst self1.
    apply build_class_inv in Hstep as (l & -> & Hn & Hle).
    exists (<[k := l]> e1). split; [done|].
    intros c l' Hl'. cbn in Hl'. rewrite lookup_insert in Hl'.
    case_decide as Hc; [|by apply Hinv].
    injection Hl' as <-. subst c. right. split; [done|]. exact Hle.
  - exists (_examplars self). split; [by destruct self|]. auto.
Qed.

(** What a completed [_build_examplars] leaves in the dictionary. *)
Lemma build_examplars_inv (self self' : ICarl.t) (loader : Loader) :
  _build_examplars self loader = Ok self' ->
  same_bookkeeping self' self /\
  forall c l, _examplars self' !! c = Some l ->
    _examplars self !! c = Some l \/
    (_task self * _task_size self <= c < _n_classes self /\
     Z.of_nat (length l) <= Z.max 0 (_k self / _n_classes self)).
Proof.
  unfold _build_examplars. intros H.
  apply bind_Ok in H as ([means1 self1] & H1 & H).
  apply known_loop_inv in H1 as [Heq _]. cbn in Heq. subst self1.
  apply bind_Ok in H as (acc & H2 & H). cbn in H2.
  apply build_loop_inv in H2 as (e' & He' & Hinv).
  apply bind_Ok in H as (means & _ & H). injection H as <-.
  rewrite He'. split; [done|].
  intros c l Hl. cbn in Hl. destruct (Hinv c l Hl) as [?|[Hc Hle]]; [by left|].
  right. split; [by apply range_elem | done].
Qed.

(** ** The budget of the exemplar memory *)

Lemma sum_list_bound {A} (f : A -> nat) (l : list A) (b : nat) :
  (forall x, x ∈ l -> (f x <= b)%nat) -> (sum_list (map f l) <= length l * b)%nat.
Proof.
  induction l as [|x l IH]; intros Hb; cbn; [lia|].
  assert (f x <= b)%nat by (apply Hb; by left).
  assert (sum_list (map f l) <= length l * b)%nat by (apply IH; intros; apply Hb; by right).
  lia.
Qed.

(** After a completed [_after_task] every entry belongs to a class below
    [n_classes] and, under a budget that is not negative, is within the
    quota. *)
Lemma after_task_inv (self self' : ICarl.t) (loader : Loader) :
  well_formed self ->
  _after_task self loader = Ok self' ->
  same_bookkeeping self' self /\
  (forall c, is_Some (_examplars self' !! c) -> 0 <= c < _n_classes self') /\
  (0 <= _memory_size self ->
   forall c l, _examplars self' !! c = Some l ->
     0 < _n_classes self /\ Z.of_nat (length l) <= _k self / _n_classes self).
Proof.
  intros (Hk & Hn & Ht & Hts & Hdom) Hrun. unfold _after_task in Hrun.
  apply bind_Ok in Hrun as (self1 & Hred & Hbuild).
  apply reduce_result in Hred as (e1 & -> & He1).
  apply build_examplars_inv in Hbuild as [Hbk Hinv]. cbn in Hbk, Hinv.
  assert (Hsame : _n_classes self' = _n_classes self) by apply Hbk.
  split; [exact Hbk|].
  assert (Hentry : forall c l, _examplars self' !! c = Some l ->
            0 <= c < _n_classes self /\
            (0 <= _memory_size self ->
             Z.of_nat (length l) <= Z.max 0 (_k self / _n_classes self))).
  { intros c l Hl. destruct (Hinv c l Hl) as [Hold|[Hc Hle]].
    - rewrite He1 in Hold.
      destruct (_examplars self !! c) as [l0|] eqn:Hl0; [|discriminate].
      injection Hold as <-.
      assert (Hc : 0 <= c < _n_classes self) by (apply Hdom; by eexists).
      split; [done|]. intros Hmem.
      assert (0 <= _k self / _n_classes self) by (apply Z.div_pos; lia).
      pose proof (slice_to_length l0 (_k self / _n_classes self)). lia.
    - split; [nia | done]. }
  split.
  - intros c [l Hl]. rewrite Hsame. by destruct (Hentry c l Hl).
  - intros Hmem c l Hl. destruct (Hentry c l Hl) as [Hc Hle].
    assert (0 <= _k self / _n_classes self) by (apply Z.div_pos; lia).
    split; lia.
Qed.

Lemma after_task_budget (self self' : ICarl.t) (loader : Loader) :
  well_formed self -> 0 <= _memory_size self ->
  _after_task self loader = Ok self' ->
  Z.of_nat (n_stored self') <= _memory_size self'.
Proof.
  intros Hwf Hmem Hrun.
  destruct (after_task_inv self self' loader Hwf Hrun) as ((Hm & Hk & Hn & _) & _ & Hlen).
  specialize (Hlen Hmem).
  destruct Hwf as (Hkm & Hnn & _).
  unfold n_stored. rewrite Hn, Hm.
  destruct (decide (_n_classes self = 0)) as [Hz|Hnz].
  { rewrite Hz. change (range 0 0) with (@nil Z). cbn. lia. }
  set (m := _k self / _n_classes self).
  assert (Hmpos : 0 <= m) by (apply Z.div_pos; lia).
  assert (Hsum : (sum_list (map (fun c => length (examplar_set self' c))
                                 (range 0 (_n_classes self)))
                  <= length (range 0 (_n_classes self)) * Z.to_nat m)%nat).
  { apply sum_list_bound. intros c _. unfold examplar_set.
    destruct (_examplars self' !! c) as [l|] eqn:Hl; cbn; [|lia].
    destruct (Hlen c l Hl) as [_ Hle]. fold m in Hle. lia. }
  rewrite range_length in Hsum.
  assert (_n_classes self * m <= _k self).
  { unfold m. apply Z.mul_div_le. lia. }
  nia.
Qed.

Lemma n_stored_same (a b : ICarl.t) :
  _examplars a = _examplars b -> _n_classes a = _n_classes b -> n_stored a = n_stored b.
Proof. intros He Hn. unfold n_stored, examplar_set. by rewrite He, Hn. Qed.

Lemma sum_list_zero {A} (f : A -> nat) (l : list A) :
  (forall x, x ∈ l -> f x = 0%nat) -> sum_list (map f l) = 0%nat.
Proof.
  intros Hf. pose proof (sum_list_bound f l 0) as Hb.
  assert (sum_list (map f l) <= length l * 0)%nat by (apply Hb; intros x Hx; rewrite Hf; done).
  lia.
Qed.

Lemma sum_list_map_app {A} (f : A -> nat) (l k : list A) :
  sum_list (map f (l ++ k)) = (sum_list (map f l) + sum_list (map f k))%nat.
Proof. induction l as [|x l IH]; cbn; [done|]. rewrite IH. lia. Qed.

(** Growing [n_classes] adds classes that have no exemplar yet. *)
Lemma n_stored_grow (a b : ICarl.t) :
  _examplars b = _examplars a -> _n_classes a <= _n_classes b ->
  0 <= _n_classes a ->
  (forall c, is_Some (_examplars a !! c) -> 0 <= c < _n_classes a) ->
  n_stored b = n_stored a.
Proof.
  intros He Hle Hn Hdom. unfold n_stored, examplar_set, range. rewrite He.
  replace (_n_classes b - 0) with ((_n_classes a - 0) + (_n_classes b - _n_classes a)) by lia.
  rewrite seqZ_app by lia. rewrite sum_list_map_app.
  rewrite (sum_list_zero _ (seqZ _ (_n_classes b - _n_classes a))); [lia|].
  intros c Hc. apply elem_of_seqZ in Hc.
  destruct (_examplars a !! c) as [l|] eqn:Hl; [|done].
  exfalso. assert (0 <= c < _n_classes a) by (apply Hdom; by eexists). lia.
Qed.

Lemma well_formed_same (a b : ICarl.t) :
  same_bookkeeping a b -> _examplars a = _examplars b -> well_formed b -> well_formed a.
Proof.
  intros (Hm & Hk & Hn & Ht & Hts) He (Hkm & H1 & H2 & H3 & Hdom).
  unfold well_formed. rewrite Hm, Hk, Hn, Ht, Hts, He. done.
Qed.

Section Lifecycle.

Variable binary_cross_entropy_with_logits : tensor2 -> tensor2 -> f32.
Variable sigmoid : f32 -> f32.
Variable backward_and_step : ICarl.t -> batch -> f32 -> (tensor1 -> tensor1) * tensor2.

Lemma init_well_formed (args : Args) (fresh : nat -> tensor1) (self : ICarl.t) :
  __init__ binary_cross_entropy_with_logits args fresh = Ok self -> well_formed self.
Proof.
  unfold __init__, new_linear. intros H.
  case_decide as Hinc; [|discriminate]. cbn in H. injection H as <-.
  unfold well_formed. cbn. split_and!; try done.
  intros c [l Hl]. by rewrite lookup_empty in Hl.
Qed.

Lemma before_task_well_formed (self self' : ICarl.t) train_loader val_loader fresh :
  well_formed self ->
  _before_task sigmoid self train_loader val_loader fresh = Ok self' ->
  well_formed self'.
Proof.
  intros Hwf. unfold _before_task. case_decide as Ht.
  - intros [= <-]. by destruct self.
  - intros H. apply bind_Ok in H as (preds & _ & H).
    apply bind_Ok in H as (self1 & H1 & H).
    assert (Hs1 : same_bookkeeping self1 self /\ _examplars self1 = _examplars self).
    { destruct val_loader as [l|].
      - case_decide.
        + injection H1 as <-. done.
        + apply bind_Ok in H1 as (pv & _ & H1). injection H1 as <-. done.
      - injection H1 as <-. done. }
    destruct Hs1 as [Hbk He].
    apply add_n_classes_inv in H as (He' & Hk' & Hn' & _ & Hn0 & Ht' & Hts' & Hmem).
    destruct Hbk as (Hm & Hk & Hn & Htk & Hts).
    destruct Hwf as (Hkm & Hnn & Htt & Htss & Hdom).
    unfold well_formed. rewrite Hmem, Hm, Hk', Hk, Ht', Htk, Hts', Hts, He', He.
    split_and!; try done.
    intros c Hc. apply Hdom in Hc. lia.
Qed.

Lemma train_batch_same (acc acc' : ICarl.t * list event) (b : batch) :
  train_batch backward_and_step acc b = Ok acc' ->
  same_bookkeeping acc'.1 acc.1 /\ _examplars acc'.1 = _examplars acc.1.
Proof.
  destruct acc as [self trace]. unfold train_batch. intros H.
  apply bind_Ok in H as (targets & _ & H).
  apply bind_Ok in H as ([clf distil] & _ & H).
  unfold guard_and_step in H.
  destruct (backward_and_step self b (add clf distil)) as [embed' weight'].
  injection H as <-. done.
Qed.

Lemma train_task_same (self self' : ICarl.t) train_loader val_loader trace :
  _train_task backward_and_step self train_loader val_loader = Ok (self', trace) ->
  same_bookkeeping self' self /\ _examplars self' = _examplars self.
Proof.
  unfold _train_task. intros H.
  apply (foldM_invariant
           (fun a : ICarl.t * list event =>
              same_bookkeeping a.1 self /\ _examplars a.1 = _examplars self)
           (train_epoch backward_and_step train_loader val_loader) _)
    with (a' := (self', trace)) in H; [exact H| |done].
  intros [s tr] epoch acc' _ [Hbk He] Hep. unfold train_epoch in Hep.
  apply bind_Ok in Hep as (acc1 & H1 & Hep).
  apply bind_Ok in Hep as (acc2 & H2 & Hep).
  case_decide; [discriminate|]. injection Hep as <-.
  assert (Hacc1 : same_bookkeeping acc1.1 self /\ _examplars acc1.1 = _examplars self).
  { apply (foldM_invariant
             (fun a : ICarl.t * list event =>
                same_bookkeeping a.1 self /\ _examplars a.1 = _examplars self)
             (train_batch backward_and_step) _) with (a' := acc1) in H1; [exact H1| |done].
    intros a b a' _ [Hbk' He'] Hstep.
    apply train_batch_same in Hstep as [(? & ? & ? & ? & ?) Hes].
    destruct Hbk' as (? & ? & ? & ? & ?).
    split; [|congruence]. unfold same_bookkeeping. split_and!; congruence. }
  destruct val_loader as [l|].
  - apply bind_Ok in H2 as (tr' & _ & H2). injection H2 as <-. done.
  - injection H2 as <-. done.
Qed.

(** Every learner of a run is well formed. *)
Lemma reachable_well_formed (self : ICarl.t) :
  reachable binary_cross_entropy_with_logits sigmoid backward_and_step self ->
  well_formed self.
Proof.
  induction 1 as [args fresh self Hinit
                 |self task task_size n_train _ IH Ht Hts
                 |self tl vl fresh self' _ IH Hrun
                 |self tl vl self' trace _ IH Hrun
                 |self loader self' _ IH Hrun].
  - by eapply init_well_formed.
  - destruct IH as (Hk & Hn & _ & _ & Hdom). unfold well_formed. cbn. done.
  - by eapply before_task_well_formed.
  - apply train_task_same in Hrun as [Hbk He]. by eapply well_formed_same.
  - destruct (after_task_inv self self' loader IH Hrun) as (Hbk & Hdom & _).
    pose proof Hbk as (Hm & Hk & Hn & Ht & Hts).
    destruct IH as (Hkm & Hnn & Htt & Htss & _).
    unfold well_formed. rewrite Hm, Hk, Ht, Hts. split_and!; try done. by rewrite Hn.
Qed.

(** Under a budget that is not negative, every learner of a run stores
    at most [memory_size] identifiers. *)
Lemma reachable_budget (self : ICarl.t) :
  reachable binary_cross_entropy_with_logits sigmoid backward_and_step self ->
  0 <= _memory_size self ->
  Z.of_nat (n_stored self) <= _memory_size self.
Proof.
  induction 1 as [args fresh self Hinit
                 |self task task_size n_train Hreach IH Ht Hts
                 |self tl vl fresh self' Hreach IH Hrun
                 |self tl vl self' trace Hreach IH Hrun
                 |self loader self' Hreach IH Hrun]; intros Hmem.
  - unfold __init__ in Hinit. apply bind_Ok in Hinit as (c & _ & Hinit).
    injection Hinit as <-. unfold n_stored, examplar_set. cbn in *.
    rewrite sum_list_zero; [lia|]. intros x _. by rewrite lookup_empty.
  - apply IH. exact Hmem.
  - pose proof (reachable_well_formed self Hreach) as Hwf.
    pose proof (before_task_well_formed self self' tl vl fresh Hwf Hrun) as Hwf'.
    revert Hrun. unfold _before_task. case_decide as Htask.
    + intros [= <-]. apply IH. exact Hmem.
    + intros Hrun. apply bind_Ok in Hrun as (preds & _ & Hrun).
      apply bind_Ok in Hrun as (self1 & H1 & Hrun).
      assert (Hs1 : same_bookkeeping self1 self /\ _examplars self1 = _examplars self).
      { destruct vl as [l|].
        - case_decide.
          + injection H1 as <-. done.
          + apply bind_Ok in H1 as (pv & _ & H1). injection H1 as <-. done.
        - injection H1 as <-. done. }
      destruct Hs1 as [(Hm1 & Hk1 & Hn1 & Ht1 & Hts1) He1].
      apply add_n_classes_inv in Hrun as (He' & Hk' & Hn' & _ & Hn0 & Ht' & Hts' & Hmem').
      destruct Hwf as (Hkm & Hnn & Htt & Htss & Hdom).
      rewrite (n_stored_grow self self').
      * rewrite Hmem', Hm1. apply IH. by rewrite <- Hm1, <- Hmem'.
      * by rewrite He', He1.
      * rewrite Hn', Hn1, Hts1. lia.
      * done.
      * done.
  - apply train_task_same in Hrun as [(Hm & Hk & Hn & Ht & Hts) He].
    rewrite (n_stored_same self' self He Hn), Hm. apply IH. by rewrite <- Hm.
  - pose proof (reachable_well_formed self Hreach) as Hwf.
    destruct (after_task_inv self self' loader Hwf Hrun) as ((Hm & _) & _).
    eapply after_task_budget; [exact Hwf| |exact Hrun]. by rewrite <- Hm.
Qed.

End Lifecycle.

(** C1.  In every run of the learner, when [_after_task] (reduction, then
    rebuild) completes under a budget that is not negative, the exemplar
    sets of the classes [0 .. n_classes - 1] hold at most [memory_size]
    identifiers together, and the dictionary holds no other class.  The
    bound is an invariant of the run: it held before the phase as well. *)
Theorem C1_memory_budget_after_task
    (binary_cross_entropy_with_logits : tensor2 -> tensor2 -> f32)
    (sigmoid : f32 -> f32)
    (backward_and_step : ICarl.t -> batch -> f32 -> (tensor1 -> tensor1) * tensor2)
    (self self' : ICarl.t) (data_loader : Loader) :
  reachable binary_cross_entropy_with_logits sigmoid backward_and_step self ->
  0 <= _memory_size self ->
  _after_task self data_loader = Ok self' ->
  Z.of_nat (n_stored self') <= _memory_size self' /\
  (forall c, is_Some (_examplars self' !! c) -> 0 <= c < _n_classes self') /\
  Z.of_nat (n_stored self) <= _memory_size self.
Proof.
  intros Hreach Hmem Hrun.
  pose proof (reachable_budget _ _ _ self Hreach Hmem) as Hbefore.
  apply reachable_well_formed in Hreach.
  split_and!; [by eapply after_task_budget| |exact Hbefore].
  by destruct (after_task_inv self self' data_loader Hreach Hrun) as (_ & Hdom & _).
Qed.

Lemma C1_memory_budget_after_task_witness :
  exists self self',
    __init__ (fun _ _ => zero) first_task_args (fun _ => [of_Z 1]) = Ok self /\
    _after_task (set_task_info 0 2 6 self) first_task_loader = Ok self' /\
    Z.of_nat (n_stored self') <= 4.
Proof.
  destruct (__init__ (fun _ _ => zero) first_task_args (fun _ => [of_Z 1]))
    as [self|] eqn:Hinit; [|vm_compute in Hinit; discriminate].
  destruct (_after_task (set_task_info 0 2 6 self) first_task_loader)
    as [self'|] eqn:Hrun.
  2: { vm_compute in Hinit. injection Hinit as <-. vm_compute in Hrun. discriminate. }
  exists self, self'. split_and!; [done|done|].
  assert (Hm : _memory_size self' = 4).
  { vm_compute in Hinit. injection Hinit as <-. vm_compute in Hrun.
    injection Hrun as <-. reflexivity. }
  rewrite <- Hm.
  apply (C1_memory_budget_after_task (fun _ _ => zero) (fun x => x) no_update
           (set_task_info 0 2 6 self) self' first_task_loader).
  - apply reach_set_task_info; [|lia|lia]. by eapply reach_init.
  - vm_compute in Hinit. injection Hinit as <-. cbn. lia.
  - exact Hrun.
Defined.

(** ** Ties in the herding ranking *)

(** Whatever order a ranking gives to two candidates, the inner loop
    keeps the candidate ranked first: of the two listings of the
    identifiers 3 and 7, one makes it keep 7. *)
Lemma tie_winner_follows_ranking (ranking : list nat) (features : tensor2) (h : herd) :
  examplars_idxes h = [] -> length features = 2%nat ->
  ranking ≠ [] -> (forall i, i ∈ ranking -> (i < 2)%nat) ->
  (exists mean, pick_winner ranking features [7; 3] h = Ok (mkHerd [7] mean)) \/
  (exists mean, pick_winner ranking features [3; 7] h = Ok (mkHerd [7] mean)).
Proof.
  intros Hsel Hlen Hne Hrange.
  destruct ranking as [|i ranking]; [done|].
  destruct features as [|f0 [|f1 [|f2 features]]]; try discriminate.
  assert (Hi : (i < 2)%nat) by (apply Hrange; by left).
  destruct i as [|[|i]]; [left|right|lia].
  - eexists. cbn. rewrite Hsel. cbn. rewrite decide_False by (by intros ?%elem_of_nil).
    reflexivity.
  - eexists. cbn. rewrite Hsel. cbn. rewrite decide_False by (by intros ?%elem_of_nil).
    reflexivity.
Qed.

(** C4, as stated, fails.  Two candidates have the same embedding, so
    they are at the same distance at iteration 0, and
    [distances.argsort()], which reads the distances only, ranks their
    positions as [0; 1] or as [1; 0] however the identifiers are listed.
    If it ranks them [0; 1], the loader that lists the identifiers as 7
    then 3 makes the loop keep 7; if it ranks them [1; 0], the loader
    that lists them as 3 then 7 makes it keep 7.  Either way a run keeps
    7 although 3 is at the same distance and is not selected
    ([tie_winner_follows_ranking] has it for every ranking). *)
Lemma C4_tie_not_lowest_identifier :
  let features := [[of_Z 1]; [of_Z 1]] in
  let h := mkHerd [] (zeros 1) in
  let distances :=
    herding_distances (normalize (mean_dim0 features)) features (zeros 1) 0 in
  distances !! 0%nat = distances !! 1%nat /\
  pick_winner [0; 1]%nat features [7; 3] h =
    Ok (mkHerd [7] (vadd (zeros 1) [of_Z 1])) /\
  pick_winner [1; 0]%nat features [3; 7] h =
    Ok (mkHerd [7] (vadd (zeros 1) [of_Z 1])) /\
  3 < 7.
Proof.
  split_and!.
  - vm_compute. reflexivity.
  - vm_compute. reflexivity.
  - vm_compute. reflexivity.
  - lia.
Qed.

(** C4, amended.  The selection never compares identifiers.  At an
    iteration, for the ranking [distances.argsort()] returns (any list
    of positions of the candidates), either every ranked candidate is
    selected already and nothing changes, or the identifier appended is
    that of the first candidate of the ranking whose identifier is not
    selected yet: every other ranked candidate with a new identifier, in
    particular one at the same distance, stands after the winner in the
    ranking.  Which of several candidates at equal distance is selected
    is thus what the ranking decides, not the lowest identifier. *)
Theorem C4_herding_selects_first_ranked_unselected
    (ranking : list nat) (features : tensor2) (idxes : list Z) (h : herd) :
  length features = length idxes ->
  (forall i, i ∈ ranking -> (i < length idxes)%nat) ->
  (pick_winner ranking features idxes h = Ok h /\ all_selected ranking idxes h) \/
  (exists w id feature,
     w ∈ ranking /\ idxes !! w = Some id /\ (id ∉ examplars_idxes h) /\
     features !! w = Some feature /\
     pick_winner ranking features idxes h =
       Ok (mkHerd (examplars_idxes h ++ [id]) (vadd (examplars_mean h) feature)) /\
     forall j id_j,
       j ∈ ranking -> j ≠ w -> idxes !! j = Some id_j -> (id_j ∉ examplars_idxes h) ->
       before ranking w j).
Proof.
  intros Hlen Hrange.
  destruct (pick_winner_spec ranking features idxes h Hlen Hrange)
    as [Hall|(pre & w & post & id & f & Hrank & Hpre & Hw & Hnew & Hf & Hrun)].
  - by left.
  - right. exists w, id, f. split_and!; try done.
    + rewrite Hrank. apply elem_of_app. right. by left.
    + intros j id_j Hj Hjw Hidj Hnewj. rewrite Hrank in Hj |- *.
      apply elem_of_app in Hj as [Hjp|Hj].
      * destruct (Hpre j Hjp) as (id' & Hid' & Hsel).
        assert (id' = id_j) by congruence. by subst id'.
      * apply elem_of_cons in Hj as [->|Hj]; [done|].
        apply list_elem_of_split in Hj as (l2 & l3 & ->). by exists pre, l2, l3.
Qed.

Lemma C4_herding_selects_first_ranked_unselected_witness :
  exists w id,
    [7; 3] !! w = Some id /\
    pick_winner [1; 0]%nat [[of_Z 1]; [of_Z 1]] [7; 3] (mkHerd [] (zeros 1)) =
      Ok (mkHerd [id] (vadd (zeros 1) [of_Z 1])) /\
    before [1; 0]%nat w 0%nat.
Proof.
  destruct (C4_herding_selects_first_ranked_unselected
              [1; 0]%nat [[of_Z 1]; [of_Z 1]] [7; 3] (mkHerd [] (zeros 1)) eq_refl)
    as [[_ Hall]|(w & id & f & _ & Hw & _ & Hf & Hrun & Hfirst)].
  - intros i Hi. apply elem_of_cons in Hi as [->|Hi]; [cbn; lia|].
    apply list_elem_of_singleton in Hi as ->. cbn. lia.
  - exfalso. destruct (Hall 1%nat) as (id & _ & Hsel); [by left|].
    by apply elem_of_nil in Hsel.
  - exists w, id. destruct w as [|[|w]].
    + exfalso. destruct (Hfirst 1%nat 3) as (l1 & l2 & l3 & Heq).
      * by left.
      * discriminate.
      * reflexivity.
      * apply not_elem_of_nil.
      * destruct l1 as [|x [|y l1]]; cbn in Heq.
        -- discriminate.
        -- injection Heq as _ Heq. by destruct l2.
        -- injection Heq as _ _ Heq. by destruct l1.
    + injection Hf as <-. split_and!; [exact Hw|exact Hrun|].
      apply (Hfirst 0%nat 7); [by right; left|discriminate|reflexivity|apply not_elem_of_nil].
    + discriminate Hf.
Defined.

(** ** A quota of zero *)

Lemma normalize_nan (n : nat) : normalize (replicate n nan) = replicate n nan.
Proof.
  unfold normalize. generalize (clamp_min (norm2 (replicate n nan)) eps). intros d.
  induction n as [|n IH]; [done|].
  change (replicate (S n) nan) with (nan :: replicate n nan).
  cbn [map]. by rewrite IH.
Qed.

Lemma zeros_div_zero (n : nat) : div_int (zeros n) 0 = replicate n nan.
Proof.
  unfold div_int, zeros. induction n as [|n IH]; [done|].
  change (replicate (S n) zero) with (zero :: replicate n zero).
  change (replicate (S n) nan) with (nan :: replicate n nan).
  cbn [map]. rewrite IH. f_equal.
Qed.

(** C10.  When [memory_size // n_classes] is 0 and a new class is built
    from a loader that yields at least one batch, no error is raised: the
    herding loop selects nothing, the class gets an empty exemplar set,
    and its stored mean is [zeros / 0] normalised, a vector of [out_dim]
    NaN.  When the loader yields no batch, [torch.cat] raises and no mean
    is stored.  A finite mean thus needs a quota of at least one
    ([memory_size >= n_classes]) and a pool that is not empty. *)
Theorem C10_zero_quota_gives_nan_mean
    (loader : Loader) (means : list tensor1) (self : ICarl.t) (c : Z) :
  _n_classes self ≠ 0 ->
  _k self / _n_classes self = 0 ->
  (set_classes_range loader c c ≠ [] ->
   build_class loader (means, self) c =
     Ok (means ++ [replicate (out_dim (_features_extractor self)) nan],
         with_examplars (<[c := []]> (_examplars self)) self) /\
   Forall (fun x => is_finite x = false)
          (replicate (out_dim (_features_extractor self)) nan)) /\
  (set_classes_range loader c c = [] ->
   build_class loader (means, self) c = Raise RuntimeError).
Proof.
  intros Hn Hm. split.
  - intros Hne. split; [|by apply Forall_replicate].
    unfold build_class. rewrite extract_features_spec by done. cbn -[herding].
    unfold _m, floordiv. rewrite decide_False by done. cbn -[herding].
    rewrite Hm. unfold herding, Py.min.
    replace (Z.to_nat (Z.min 0 _)) with 0%nat by lia. cbn -[div_int zeros normalize].
    by rewrite zeros_div_zero, normalize_nan.
  - intros Hnil. unfold build_class. by rewrite Hnil.
Qed.

Lemma C10_zero_quota_gives_nan_mean_witness :
  let self := with_n_classes 30 scenario_A_learner in
  build_class scenario_A_loader ([], self) 1 =
    Ok ([[nan]], with_examplars (<[1 := []]> (_examplars self)) self).
Proof.
  intros self.
  apply (C10_zero_quota_gives_nan_mean scenario_A_loader [] self 1).
  - cbn. lia.
  - reflexivity.
  - vm_compute. discriminate.
Defined.

(** With a quota of at least one and at least one candidate, herding
    selects an exemplar, so the mean is divided by a positive count. *)
Lemma positive_quota_selects (m : Z) (dim : nat) (class_mean : tensor1)
    (features : tensor2) (idxes : list Z) (h : herd) :
  0 < m -> features ≠ [] -> length features = length idxes ->
  herding m dim class_mean features idxes = Ok h ->
  examplars_idxes h ≠ [].
Proof.
  intros Hm Hne Hlen. unfold herding, Py.min.
  assert (Hn : (0 < length features)%nat) by (destruct features; [done | cbn; lia]).
  replace (Z.to_nat (Z.min m (Z.of_nat (length features))))
    with (S (Z.to_nat (Z.min m (Z.of_nat (length features))) - 1)) by lia.
  cbn [seq foldM]. intros Hrun.
  apply bind_Ok in Hrun as (h1 & Hstep & Hrun).
  assert (H1 : examplars_idxes h1 ≠ []).
  { destruct (herding_step_spec class_mean features idxes (mkHerd [] (zeros dim)) 0 Hlen)
      as [[_ Hall]|(pre & w & post & id & f & _ & _ & _ & _ & _ & Hstep')].
    - exfalso. destruct (Hall 0%nat) as (id & _ & Hin).
      + apply argsort_elem. by rewrite herding_distances_length.
      + by apply elem_of_nil in Hin.
    - rewrite Hstep' in Hstep. injection Hstep as <-. cbn. done. }
  refine (foldM_invariant (fun a : herd => examplars_idxes a ≠ [])
            (herding_step class_mean features idxes) _ _ h1 h H1 Hrun).
  intros a i a' _ Ha Hstep'.
  destruct (herding_step_spec class_mean features idxes a i Hlen)
    as [[Hsame _]|(pre & w & post & id & f & _ & _ & _ & _ & _ & Hnew)].
  - rewrite Hsame in Hstep'. by injection Hstep' as <-.
  - rewrite Hnew in Hstep'. injection Hstep' as <-. cbn.
    intros Hnil. by apply app_eq_nil in Hnil as [_ ?].
Qed.

(** ** Nearest-class-mean classification *)

Lemma argmin_nonempty (t : tensor1) : t ≠ [] -> exists i, argmin t = Ok i.
Proof. destruct t; [done|]. intros _. by eexists. Qed.

Lemma mapM_result_Ok {A B} (f : A -> result B) (l : list A) :
  (forall x, x ∈ l -> exists y, f x = Ok y) ->
  exists k, mapM (M := result) f l = Ok k /\ length k = length l.
Proof.
  induction l as [|x l IH]; intros Hf.
  - by exists [].
  - destruct (Hf x) as [y Hy]; [by left|].
    destruct IH as (k & Hk & Hlen); [intros; apply Hf; by right|].
    exists (y :: k). cbn. rewrite Hy. cbn. rewrite Hk. cbn. by rewrite Hlen.
Qed.

Lemma mapM_result_error {A B} (f : A -> result B) (l : list A) (P : exn -> Prop) :
  (forall x e, f x = Raise e -> P e) ->
  forall e, mapM (M := result) f l = Raise e -> P e.
Proof.
  intros Hf. induction l as [|x l IH]; intros e; [discriminate|].
  cbn. destruct (f x) as [y|e'] eqn:Hx; cbn.
  - destruct (mapM f l) as [k|e'']; cbn; [discriminate|]. intros [= <-]. by apply IH.
  - intros [= <-]. by eapply Hf.
Qed.

Lemma foldM_error {A B} (f : A -> B -> result A) (xs : list B) (P : exn -> Prop) :
  (forall a x e, f a x = Raise e -> P e) ->
  forall a e, foldM f xs a = Raise e -> P e.
Proof.
  intros Hf. induction xs as [|x xs IH]; intros a e; [discriminate|].
  cbn. destruct (f a x) as [a'|e'] eqn:Hx; cbn; [apply IH|].
  intros [= <-]. by eapply Hf.
Qed.

Lemma classify_batch_Ok (self : ICarl.t) (means : tensor2) (acc : list nat * list Z)
    (b : batch) :
  means ≠ [] ->
  exists preds,
    classify_batch self means acc b = Ok (acc.1 ++ preds, acc.2 ++ map target b) /\
    length preds = length b.
Proof.
  intros Hne. unfold classify_batch, _get_closest.
  destruct (mapM_result_Ok (fun feature => argmin (_dist means feature))
              (normalize_dim1 (map (fun s => embed (_features_extractor self) (input s)) b)))
    as (preds & Hpreds & Hlen).
  { intros x _. apply argmin_nonempty. unfold _dist. by destruct means. }
  exists preds. rewrite Hpreds. cbn. split; [done|].
  rewrite Hlen. unfold normalize_dim1. by rewrite !length_map.
Qed.

(** The loop of [_classify] classifies every sample when there is at
    least one mean. *)
Lemma classify_loop_Ok (self : ICarl.t) (means : tensor2) (bs : list batch) :
  means ≠ [] ->
  forall acc, exists ypred ytrue,
    foldM (classify_batch self means) bs acc = Ok (acc.1 ++ ypred, acc.2 ++ ytrue) /\
    length ypred = length (concat bs) /\ ytrue = map target (concat bs).
Proof.
  intros Hne. induction bs as [|b bs IH]; intros [yp yt].
  - exists [], []. cbn. by rewrite !app_nil_r.
  - cbn [foldM].
    destruct (classify_batch_Ok self means (yp, yt) b Hne) as (preds & Hb & Hlen).
    rewrite Hb. cbn [fst snd].
    destruct (IH (yp ++ preds, yt ++ map target b)) as (ypred & ytrue & Hrun & Hl & Ht).
    exists (preds ++ ypred), (map target b ++ ytrue). cbn. rewrite Hrun. cbn.
    rewrite !app_assoc. split_and!; [done| |].
    + by rewrite !length_app, Hl, Hlen.
    + by rewrite Ht, map_app.
Qed.

(** The loop of [_classify] raises nothing but the error of an [argmin]
    over no mean. *)
Lemma classify_loop_error (self : ICarl.t) (means : tensor2) (bs : list batch) acc e :
  foldM (classify_batch self means) bs acc = Raise e -> e = RuntimeError.
Proof.
  apply (foldM_error _ _ (fun e => e = RuntimeError)).
  intros [yp yt] b e'. unfold classify_batch, _get_closest.
  destruct (mapM _ _) as [preds|e''] eqn:Hm; cbn; [discriminate|].
  intros [= <-]. revert Hm.
  apply (mapM_result_error _ _ (fun e => e = RuntimeError)).
  intros x e0. unfold argmin. destruct (_dist means x); [by intros [= <-] | discriminate].
Qed.

Lemma not_built_inconsistent (n_means : nat) (n_classes : Z) :
  not_built ≠ inconsistent n_means n_classes.
Proof. unfold not_built, inconsistent. cbn. discriminate. Qed.

(** C7.  [_eval_task] raises before it reads the loader in exactly two
    situations, each with its own [ValueError]: when no class mean has
    been built, and when the number of stored means differs from
    [n_classes].  In both no prediction is returned, whatever the loader
    holds.  Otherwise no [ValueError] is raised and classification
    proceeds: with at least one mean it returns one prediction per sample
    and the labels of the samples, in loader order. *)
Theorem C7_eval_task_fails_fast (self : ICarl.t) (data_loader : Loader) :
  (_means self = None ->
   _eval_task self data_loader = Raise (ValueError not_built)) /\
  (forall means, _means self = Some means ->
     Z.of_nat (length means) ≠ _n_classes self ->
     _eval_task self data_loader =
       Raise (ValueError (inconsistent (length means) (_n_classes self)))) /\
  (forall means, _means self = Some means ->
     Z.of_nat (length means) = _n_classes self ->
     (forall msg, _eval_task self data_loader ≠ Raise (ValueError msg)) /\
     (means ≠ [] ->
      exists ypred,
        _eval_task self data_loader =
          Ok (ypred, map target (concat (batches data_loader))) /\
        length ypred = length (concat (batches data_loader)))) /\
  (forall n_means n_classes, not_built ≠ inconsistent n_means n_classes) /\
  (forall msg, _eval_task self data_loader = Raise (ValueError msg) ->
     _means self = None \/
     exists means, _means self = Some means /\ Z.of_nat (length means) ≠ _n_classes self).
Proof.
  assert (Hthird : forall means, _means self = Some means ->
            Z.of_nat (length means) = _n_classes self ->
            (forall msg, _eval_task self data_loader ≠ Raise (ValueError msg)) /\
            (means ≠ [] ->
             exists ypred,
               _eval_task self data_loader =
                 Ok (ypred, map target (concat (batches data_loader))) /\
               length ypred = length (concat (batches data_loader)))).
  { intros means Hm Hlen. unfold _eval_task, _classify. rewrite Hm.
    rewrite decide_False by (intros Hne; by apply Hne). split.
    - intros msg.
      destruct (foldM (classify_batch self means) (batches data_loader) ([], []))
        as [[yp yt]|e] eqn:Hrun; cbn.
      + case_decide; discriminate.
      + apply classify_loop_error in Hrun as ->. discriminate.
    - intros Hne.
      destruct (classify_loop_Ok self means (batches data_loader) Hne ([], []))
        as (ypred & ytrue & Hrun & Hl & ->).
      cbn in Hrun. rewrite Hrun. cbn.
      rewrite decide_True by (by rewrite Hl, length_map). by exists ypred. }
  split_and!.
  - intros Hm. unfold _eval_task, _classify. by rewrite Hm.
  - intros means Hm Hne. unfold _eval_task, _classify. rewrite Hm.
    by rewrite decide_True.
  - exact Hthird.
  - apply not_built_inconsistent.
  - intros msg Hraise. destruct (_means self) as [means|] eqn:Hm; [|by left].
    right. exists means. split; [done|]. intros Hlen.
    destruct (Hthird means eq_refl Hlen) as [Hno _]. by apply (Hno msg).
Qed.

(** ** The loss of the first task *)

Section FirstTask.

Variable binary_cross_entropy_with_logits : tensor2 -> tensor2 -> f32.
Variable sigmoid : f32 -> f32.
Variable backward_and_step : ICarl.t -> batch -> f32 -> (tensor1 -> tensor1) * tensor2.

(** No phase replaces the two loss functions [__init__] installs. *)
Lemma reachable_losses (self : ICarl.t) :
  reachable binary_cross_entropy_with_logits sigmoid backward_and_step self ->
  _clf_loss self = binary_cross_entropy_with_logits /\
  _distil_loss self = binary_cross_entropy_with_logits.
Proof.
  induction 1 as [args fresh self Hinit
                 |self task task_size n_train _ IH Ht Hts
                 |self tl vl fresh self' _ IH Hrun
                 |self tl vl self' trace _ IH Hrun
                 |self loader self' _ IH Hrun].
  - unfold __init__ in Hinit. apply bind_Ok in Hinit as (c & _ & Hinit).
    by injection Hinit as <-.
  - exact IH.
  - unfold _before_task in Hrun. case_decide.
    + by injection Hrun as <-.
    + apply bind_Ok in Hrun as (preds & _ & Hrun).
      apply bind_Ok in Hrun as (self1 & H1 & Hrun).
      assert (Hs1 : _clf_loss self1 = _clf_loss self /\ _distil_loss self1 = _distil_loss self).
      { destruct vl as [l|].
        - case_decide.
          + by injection H1 as <-.
          + apply bind_Ok in H1 as (pv & _ & H1). by injection H1 as <-.
        - by injection H1 as <-. }
      unfold _add_n_classes in Hrun.
      apply bind_Ok in Hrun as (c & _ & Hrun). apply bind_Ok in Hrun as (w & _ & Hrun).
      apply bind_Ok in Hrun as (m & _ & Hrun). injection Hrun as <-. cbn.
      destruct Hs1 as [-> ->]. exact IH.
  - unfold _train_task in Hrun.
    apply (foldM_invariant
             (fun a : ICarl.t * list event =>
                _clf_loss a.1 = binary_cross_entropy_with_logits /\
                _distil_loss a.1 = binary_cross_entropy_with_logits)
             (train_epoch backward_and_step tl vl) _)
      with (a' := (self', trace)) in Hrun; [exact Hrun| |exact IH].
    intros [s tr] epoch acc' _ Hs Hep. unfold train_epoch in Hep.
    apply bind_Ok in Hep as (acc1 & H1 & Hep).
    apply bind_Ok in Hep as (acc2 & H2 & Hep).
    case_decide; [discriminate|]. injection Hep as <-.
    assert (Hacc1 : _clf_loss acc1.1 = binary_cross_entropy_with_logits /\
                    _distil_loss acc1.1 = binary_cross_entropy_with_logits).
    { apply (foldM_invariant
               (fun a : ICarl.t * list event =>
                  _clf_loss a.1 = binary_cross_entropy_with_logits /\
                  _distil_loss a.1 = binary_cross_entropy_with_logits)
               (train_batch backward_and_step) _) with (a' := acc1) in H1; [exact H1| |done].
      intros [s0 tr0] b a' _ Hs0 Hstep. unfold train_batch in Hstep.
      apply bind_Ok in Hstep as (targets & _ & Hstep).
      apply bind_Ok in Hstep as ([clf distil] & _ & Hstep).
      unfold guard_and_step in Hstep.
      destruct (backward_and_step s0 b (add clf distil)) as [embed' weight'].
      injection Hstep as <-. exact Hs0. }
    destruct vl as [l|].
    + apply bind_Ok in H2 as (tr' & _ & H2). by injection H2 as <-.
    + by injection H2 as <-.
  - unfold _after_task in Hrun. apply bind_Ok in Hrun as (self1 & Hred & Hbuild).
    apply reduce_result in Hred as (e1 & -> & _).
    unfold _build_examplars in Hbuild.
    apply bind_Ok in Hbuild as ([means1 s1] & H1 & Hbuild).
    apply known_loop_inv in H1 as [Heq _]. cbn in Heq. subst s1.
    apply bind_Ok in Hbuild as (acc & H2 & Hbuild). cbn in H2.
    apply build_loop_inv in H2 as (e' & He' & _).
    apply bind_Ok in Hbuild as (means & _ & Hbuild). injection Hbuild as <-.
    rewrite He'. exact IH.
Qed.

End FirstTask.

(** C8.  In every run of the learner, while the task is 0 the loss
    composer returns, for every batch, the binary cross-entropy with
    logits of the whole logits against the whole one-hot targets (no
    column is cut off) as classification loss, and a distillation loss
    that is exactly [zero]; the cached predictions, the sample
    identifiers and the training flag play no part. *)
Theorem C8_first_task_loss
    (binary_cross_entropy_with_logits : tensor2 -> tensor2 -> f32)
    (sigmoid : f32 -> f32)
    (backward_and_step : ICarl.t -> batch -> f32 -> (tensor1 -> tensor1) * tensor2)
    (self : ICarl.t) (logits targets : tensor2) (idxes : list Z) (train : bool) :
  reachable binary_cross_entropy_with_logits sigmoid backward_and_step self ->
  _task self = 0 ->
  _compute_loss self logits targets idxes train =
    Ok (binary_cross_entropy_with_logits logits targets, zero).
Proof.
  intros Hreach Htask.
  apply reachable_losses in Hreach as [Hclf _].
  unfold _compute_loss. rewrite decide_True by done. by rewrite Hclf.
Qed.

Lemma C8_first_task_loss_witness :
  exists self,
    __init__ (fun _ _ => of_Z 1) first_task_args (fun _ => [of_Z 1]) = Ok self /\
    _compute_loss (set_task_info 0 2 6 self) [[of_Z 3; of_Z 5]] [[of_Z 1; zero]] [0] true =
      Ok (of_Z 1, zero).
Proof.
  eexists. split; [reflexivity|].
  apply (C8_first_task_loss (fun _ _ => of_Z 1) (fun x => x) no_update).
  - apply reach_set_task_info; [|lia|lia]. by apply (reach_init _ _ _ first_task_args (fun _ => [of_Z 1])).
  - reflexivity.
Defined.

(** ** The guard on the losses *)

(** [_check_loss] rejects a NaN and a negative value, and nothing else. *)
Lemma check_loss_false (loss : f32) :
  utils._check_loss loss = false <-> is_nan loss = true \/ ltb loss zero = true.
Proof.
  unfold utils._check_loss, ge_zero.
  destruct loss as [s|s| |s m e]; cbn; try destruct s; cbn; intuition discriminate.
Qed.

(** C2, as stated, fails: a classification loss of plus infinity is not
    finite, yet the guard lets it through, the debugger is not even
    entered, nothing is raised and the optimizer step is taken; with a NaN
    loss the debugger is entered, and the backward pass and the optimizer
    step follow it. *)
Lemma C2_infinite_loss_reaches_optimizer_step :
  is_finite inf = false /\
  (guard_and_step no_update scenario_A_learner [] inf zero).2 =
    [Backward inf; OptimizerStep] /\
  (guard_and_step no_update scenario_A_learner [] nan zero).2 =
    [PdbSetTrace; Backward nan; OptimizerStep].
Proof. split_and!; reflexivity. Qed.

(** C2, amended.  For a mini-batch whose classification or distillation
    loss is NaN or negative, the training loop enters the debugger
    ([pdb.set_trace]) before the backward pass and the optimizer step of
    that batch; no error is raised, and the backward pass and the
    optimizer step follow the debugger. *)
Theorem C2_invalid_loss_enters_debugger
    (backward_and_step : ICarl.t -> batch -> f32 -> (tensor1 -> tensor1) * tensor2)
    (self : ICarl.t) (trace : list event) (b : batch)
    (targets : tensor2) (clf_loss distil_loss : f32) :
  utils.to_onehot (map target b) (_n_classes self) = Ok targets ->
  _compute_loss self (map (fun s => forward self (input s)) b) targets (map idx b) true
    = Ok (clf_loss, distil_loss) ->
  is_nan clf_loss = true \/ ltb clf_loss zero = true \/
  is_nan distil_loss = true \/ ltb distil_loss zero = true ->
  exists self',
    train_batch backward_and_step (self, trace) b =
      Ok (self', trace ++ [ZeroGrad; PdbSetTrace;
                           Backward (add clf_loss distil_loss); OptimizerStep]).
Proof.
  intros Honehot Hloss Hbad. unfold train_batch. rewrite Honehot. cbn.
  rewrite Hloss. cbn. unfold guard_and_step.
  destruct (backward_and_step self b (add clf_loss distil_loss)) as [embed' weight'].
  eexists. do 2 f_equal. unfold loss_guard.
  assert (Hguard : negb (utils._check_loss clf_loss) || negb (utils._check_loss distil_loss)
                   = true).
  { apply orb_true_iff.
    destruct Hbad as [H|[H|[H|H]]].
    - left. apply negb_true_iff, check_loss_false. by left.
    - left. apply negb_true_iff, check_loss_false. by right.
    - right. apply negb_true_iff, check_loss_false. by left.
    - right. apply negb_true_iff, check_loss_false. by right. }
  rewrite Hguard. reflexivity.
Qed.

Lemma C2_invalid_loss_enters_debugger_witness :
  exists self',
    train_batch no_update (nan_loss_learner, []) [mkSample 5 0 [of_Z 1] 0] =
      Ok (self', [ZeroGrad; PdbSetTrace; Backward nan; OptimizerStep]).
Proof.
  apply (C2_invalid_loss_enters_debugger no_update nan_loss_learner []
           [mkSample 5 0 [of_Z 1] 0] [[of_Z 1; zero]] nan zero).
  - reflexivity.
  - reflexivity.
  - left. reflexivity.
Defined.

(** ** The closest mean *)

Lemma sub_self (x : f32) : is_finite x = true -> sub x x = zero.
Proof.
  destruct x as [s|s| |s m e]; cbn; try discriminate; intros _.
  - by destruct s.
  - unfold sub, SFsub. rewrite Z.sub_diag. reflexivity.
Qed.

(** The squared distance of a finite vector to itself is [zero]. *)
Lemma dist_self (q : tensor1) :
  Forall (fun x => is_finite x = true) q -> sum (pow2 (vsub q q)) = zero.
Proof.
  unfold sum, pow2, vsub.
  induction 1 as [|x q Hx _ IH]; [reflexivity|].
  cbn [zip_with map fold_left]. rewrite (sub_self x Hx).
  change (add zero (mul zero zero)) with zero. exact IH.
Qed.

Lemma positive_not_nan (d : f32) : ltb zero d = true -> is_nan d = false.
Proof. by destruct d. Qed.

Lemma positive_not_le_zero (d : f32) : ltb zero d = true -> leb d zero = false.
Proof. destruct d as [s|s| |s m e]; cbn; try destruct s; cbn; done. Qed.

(** Once the minimum is [zero], values that are not below it leave the
    index as it is. *)
Lemma argmin_loop_after_zero (post : tensor1) (i the_index : nat) :
  (forall d, d ∈ post -> leb zero d = true) ->
  argmin_loop post i zero the_index = the_index.
Proof.
  revert i. induction post as [|d post IH]; intros i Hpost; [reflexivity|].
  cbn [argmin_loop]. rewrite (Hpost d) by (by left). cbn.
  apply IH. intros d' Hd'. apply Hpost. by right.
Qed.

(** Values above [zero] never stop the scan, and the first [zero]
    replaces whatever minimum they left. *)
Lemma argmin_loop_to_zero (pre post : tensor1) :
  (forall d, d ∈ pre -> ltb zero d = true) ->
  (forall d, d ∈ post -> leb zero d = true) ->
  forall i the_min the_index,
  ltb zero the_min = true ->
  argmin_loop (pre ++ zero :: post) i the_min the_index = (i + length pre)%nat.
Proof.
  intros Hpre Hpost. induction pre as [|d pre IH]; intros i the_min the_index Hmin.
  - cbn [app argmin_loop]. rewrite (positive_not_le_zero the_min Hmin). cbn.
    rewrite argmin_loop_after_zero by done. lia.
  - assert (Hd : ltb zero d = true) by (apply Hpre; by left).
    assert (Hrest : forall d', d' ∈ pre -> ltb zero d' = true)
      by (intros; apply Hpre; by right).
    cbn [app argmin_loop].
    destruct (negb (leb the_min d)).
    + rewrite (positive_not_nan d Hd). rewrite IH by done. cbn. lia.
    + rewrite IH by done. cbn. lia.
Qed.

(** [argmin] returns the first [zero] of a tensor whose earlier values
    are above it and whose later values are not below it. *)
Lemma argmin_first_zero (pre post : tensor1) :
  (forall d, d ∈ pre -> ltb zero d = true) ->
  (forall d, d ∈ post -> leb zero d = true) ->
  argmin (pre ++ zero :: post) = Ok (length pre).
Proof.
  intros Hpre Hpost. destruct pre as [|d pre].
  - cbn. by rewrite argmin_loop_after_zero.
  - unfold argmin. cbn [app]. f_equal.
    change (d :: pre ++ zero :: post) with ((d :: pre) ++ zero :: post).
    rewrite argmin_loop_to_zero; [done|done|done|]. apply Hpre. by left.
Qed.

(** C6, as stated, fails: the two stored means are distinct unit vectors
    ([F.normalize] leaves both as they are) and the query is the mean of
    class 1; the square of the difference 2^-100 underflows to [zero] in
    float32, both distances are [zero], and the predicted class is 0. *)
Lemma C6_distinct_mean_at_distance_zero :
  let query := [of_Z 1; zero] in
  near_means !! 1%nat = Some query /\
  near_means !! 0%nat ≠ Some query /\
  map normalize near_means = near_means /\
  _dist near_means query = [zero; zero] /\
  _get_closest near_means [query] = Ok [0%nat] /\
  _eval_task near_learner near_loader = Ok ([0%nat], [1]).
Proof.
  split_and!; try (vm_compute; reflexivity).
  vm_compute. discriminate.
Qed.

Lemma mapM_result_inv {A B} (f : A -> result B) (l : list A) (k : list B) :
  mapM (M := result) f l = Ok k -> Forall2 (fun x y => f x = Ok y) l k.
Proof.
  revert k. induction l as [|x l IH]; intros k; cbn.
  - intros [= <-]. constructor.
  - destruct (f x) as [y|e] eqn:Hx; cbn; [|discriminate].
    destruct (mapM f l) as [k'|e]; cbn; [|discriminate].
    intros [= <-]. constructor; [done | by apply IH].
Qed.

Lemma lookup_map {A B} (f : A -> B) (l : list A) (i : nat) :
  map f l !! i = f <$> (l !! i).
Proof. revert i. induction l as [|x l IH]; intros [|i]; simpl; auto. Qed.

(** [F.normalize] is not idempotent in float32, and [_classify]
    normalises the embedding before it compares: a sample whose
    embedding is the stored mean of class 1 is compared through its
    normalisation, which is the mean of class 0 here, and is classified
    0 although the two means are at a distance above [zero]. *)
Lemma embedding_at_mean_is_renormalised :
  let mean_1 := normalize [of_Z 1; of_Z 1] in
  renorm_means !! 1%nat = Some mean_1 /\
  normalize mean_1 ≠ mean_1 /\
  renorm_means !! 0%nat = Some (normalize mean_1) /\
  ltb zero (sum (pow2 (vsub (normalize mean_1) mean_1))) = true /\
  _eval_task renorm_learner renorm_loader = Ok ([0%nat], [1]).
Proof.
  split_and!; try (vm_compute; reflexivity).
  vm_compute. discriminate.
Qed.

Lemma Forall2_map_l {A B C} (f : A -> B) (P : B -> C -> Prop) (l : list A) :
  forall k, Forall2 P (map f l) k -> Forall2 (fun x => P (f x)) l k.
Proof.
  induction l as [|x l IH]; intros k H; inversion H; subst; constructor; auto.
Qed.

(** What [_classify] predicts for a sample: the position [argmin]
    returns on the distances of the means to the normalised embedding. *)
Lemma classify_batch_preds (self : ICarl.t) (means : tensor2) (b : batch)
    (acc acc' : list nat * list Z) :
  classify_batch self means acc b = Ok acc' ->
  exists preds,
    acc'.1 = acc.1 ++ preds /\
    Forall2 (fun s q =>
               argmin (_dist means (normalize (embed (_features_extractor self) (input s))))
               = Ok q) b preds.
Proof.
  unfold classify_batch, _get_closest. intros Hrun.
  apply bind_Ok in Hrun as (preds & Hpreds & Hrun). injection Hrun as <-. cbn.
  exists preds. split; [done|].
  apply mapM_result_inv in Hpreds. unfold normalize_dim1 in Hpreds.
  apply Forall2_map_l in Hpreds. apply Forall2_map_l in Hpreds. exact Hpreds.
Qed.

Lemma classify_loop_preds (self : ICarl.t) (means : tensor2) (bs : list batch) :
  forall acc acc',
  foldM (classify_batch self means) bs acc = Ok acc' ->
  exists ypred,
    acc'.1 = acc.1 ++ ypred /\
    Forall2 (fun s q =>
               argmin (_dist means (normalize (embed (_features_extractor self) (input s))))
               = Ok q) (concat bs) ypred.
Proof.
  induction bs as [|b bs IH]; intros acc acc' Hrun.
  - cbn in Hrun. injection Hrun as <-. exists []. split; [by rewrite app_nil_r|constructor].
  - cbn [foldM] in Hrun. apply bind_Ok in Hrun as (acc1 & Hb & Hrun).
    apply classify_batch_preds in Hb as (preds & H1 & Hpreds).
    apply IH in Hrun as (ypred & H2 & Hrest).
    exists (preds ++ ypred). split.
    + by rewrite H2, H1, app_assoc.
    + cbn [concat]. by apply Forall2_app.
Qed.

(** The class [argmin] returns for a query that is the stored mean of
    class [k]. *)
Lemma closest_at_mean (means : tensor2) (k : nat) (query : tensor1) :
  means !! k = Some query ->
  Forall (fun x => is_finite x = true) query ->
  (forall j c, (j < k)%nat -> means !! j = Some c ->
     ltb zero (sum (pow2 (vsub c query))) = true) ->
  (forall j c, (k < j)%nat -> means !! j = Some c ->
     leb zero (sum (pow2 (vsub c query))) = true) ->
  _dist means query !! k = Some zero /\
  argmin (_dist means query) = Ok k.
Proof.
  intros Hk Hfin Hlow Hhigh.
  assert (Hsplit : means = take k means ++ query :: drop (S k) means)
    by (symmetry; by apply take_drop_middle).
  assert (Hlen : length (take k means) = k).
  { apply length_take_le. apply lookup_lt_Some in Hk. lia. }
  assert (Hdist : _dist means query =
            map (fun row => sum (pow2 (vsub row query))) (take k means) ++
            zero :: map (fun row => sum (pow2 (vsub row query))) (drop (S k) means)).
  { unfold _dist. rewrite Hsplit at 1. rewrite map_app. cbn [map].
    by rewrite dist_self. }
  split.
  - rewrite Hdist. apply list_lookup_middle. by rewrite length_map, Hlen.
  - rewrite Hdist.
    rewrite argmin_first_zero.
    + by rewrite length_map, Hlen.
    + intros d Hd. apply list_elem_of_In, in_map_iff in Hd as (c & <- & Hc).
      apply list_elem_of_In, list_elem_of_lookup in Hc as [j Hj].
      apply (Hlow j c).
      * apply lookup_lt_Some in Hj. lia.
      * rewrite lookup_take_Some in Hj. by destruct Hj.
    + intros d Hd. apply list_elem_of_In, in_map_iff in Hd as (c & <- & Hc).
      apply list_elem_of_In, list_elem_of_lookup in Hc as [j Hj].
      rewrite lookup_drop in Hj. apply (Hhigh (S k + j)%nat c); [lia|done].
Qed.

(** C6, amended.  What [_classify] compares with the stored means is the
    normalised embedding of a sample, [F.normalize] of what the
    extractor returns.  For a sample of the loader whose normalised
    embedding is equal to the stored mean of class [k], all of whose
    components are finite, the squared distance to that mean is [zero];
    when the computed distance to every mean of a lower class is above
    [zero] and the computed distance to every mean of a higher class is
    not below [zero], the class [_eval_task] predicts for the sample is
    [k]: a tie with a higher class goes to the lower class id. *)
Theorem C6_query_at_mean_is_classified_there
    (self : ICarl.t) (data_loader : Loader) (means : tensor2)
    (p : nat) (s : sample) (k : nat) (query : tensor1) :
  _means self = Some means -> Z.of_nat (length means) = _n_classes self ->
  concat (batches data_loader) !! p = Some s ->
  normalize (embed (_features_extractor self) (input s)) = query ->
  means !! k = Some query ->
  Forall (fun x => is_finite x = true) query ->
  (forall j c, (j < k)%nat -> means !! j = Some c ->
     ltb zero (sum (pow2 (vsub c query))) = true) ->
  (forall j c, (k < j)%nat -> means !! j = Some c ->
     leb zero (sum (pow2 (vsub c query))) = true) ->
  _dist means query !! k = Some zero /\
  _get_closest means [query] = Ok [k] /\
  exists ypred ytrue,
    _eval_task self data_loader = Ok (ypred, ytrue) /\
    ypred !! p = Some k /\ ytrue !! p = Some (target s).
Proof.
  intros Hmeans Hn Hp Hq Hk Hfin Hlow Hhigh.
  destruct (closest_at_mean means k query Hk Hfin Hlow Hhigh) as [Hzero Hargmin].
  split_and!; [done| |].
  - unfold _get_closest. cbn. by rewrite Hargmin.
  - assert (Hne : means ≠ []) by (intros ->; discriminate Hk).
    destruct (classify_loop_Ok self means (batches data_loader) Hne ([], []))
      as (ypred & ytrue & Hcls & Hl & ->).
    cbn [fst snd app] in Hcls.
    exists ypred, (map target (concat (batches data_loader))). split_and!.
    + unfold _eval_task, _classify. rewrite Hmeans.
      rewrite decide_False by (intros Hneq; by apply Hneq).
      rewrite Hcls. cbn. by rewrite decide_True by (by rewrite Hl, length_map).
    + apply classify_loop_preds in Hcls as (ypred' & Heq & Hall). cbn in Heq. subst ypred'.
      destruct (Forall2_lookup_l _ _ _ _ _ Hall Hp) as (q & Hq' & Harg).
      rewrite Hq in Harg. rewrite Hq'. congruence.
    + exact (eq_trans (lookup_map target (concat (batches data_loader)) p)
                      (f_equal (fmap target) Hp)).
Qed.

Lemma C6_query_at_mean_is_classified_there_witness :
  exists ypred ytrue,
    _eval_task mean_learner mean_loader = Ok (ypred, ytrue) /\
    ypred !! 0%nat = Some 1%nat.
Proof.
  destruct (C6_query_at_mean_is_classified_there mean_learner mean_loader
              [[of_Z 3; of_Z 4]; [zero; of_Z 1]; [zero; of_Z 1]]
              0 (mkSample 0 0 [zero; of_Z 2] 1) 1 [zero; of_Z 1])
    as (_ & _ & ypred & ytrue & Hrun & Hpred & _).
  - reflexivity.
  - reflexivity.
  - reflexivity.
  - vm_compute. reflexivity.
  - reflexivity.
  - repeat constructor.
  - intros [|[|j]] c Hj Hc; [|lia|lia]. injection Hc as <-. vm_compute. reflexivity.
  - intros [|[|[|j]]] c Hj Hc; [lia|lia| |discriminate]. injection Hc as <-.
    vm_compute. reflexivity.
  - by exists ypred, ytrue.
Defined.

(** * Further properties of the code *)

(** ** The order of float32 values *)

Lemma compare_flip (a b : f32) :
  SFcompare b a = option_map CompOpp (SFcompare a b).
Proof.
  destruct a as [sa|sa| |sa ma ea], b as [sb|sb| |sb mb eb]; cbn;
    try destruct sa; try destruct sb; cbn; try reflexivity.
  - rewrite (Z.compare_antisym ea eb). destruct (ea ?= eb); cbn; try reflexivity.
    rewrite (Pos.compare_cont_antisym ma mb Eq). cbn.
    by destruct (Pos.compare_cont Eq ma mb).
  - rewrite (Z.compare_antisym ea eb). destruct (ea ?= eb); cbn; try reflexivity.
    rewrite (Pos.compare_cont_antisym ma mb Eq). cbn.
    by destruct (Pos.compare_cont Eq ma mb).
Qed.

(** On values that are not NaN, [a < b] is the negation of [b <= a]. *)
Lemma ltb_negb_leb (a b : f32) :
  is_nan a = false -> is_nan b = false -> ltb a b = negb (leb b a).
Proof.
  intros Ha Hb. unfold ltb, leb, SFltb, SFleb. rewrite (compare_flip a b).
  destruct (SFcompare a b) as [[| |]|] eqn:Hc; cbn; try reflexivity.
  destruct a, b; cbn in *; discriminate.
Qed.

Lemma leb_not_nan (a b : f32) : leb a b = true -> is_nan a = false /\ is_nan b = false.
Proof. destruct a, b; cbn; try discriminate; done. Qed.

Lemma ltb_leb (a b : f32) : ltb a b = true -> leb a b = true.
Proof. unfold ltb, leb, SFltb, SFleb. by destruct (SFcompare a b) as [[| |]|]. Qed.

Lemma leb_refl (a : f32) : is_nan a = false -> leb a a = true.
Proof.
  intros Ha. pose proof (ltb_negb_leb a a Ha Ha) as H.
  rewrite ltb_irrefl in H. by destruct (leb a a).
Qed.

(** [<=] is transitive. *)
Lemma leb_trans (a b c : f32) : leb a b = true -> leb b c = true -> leb a c = true.
Proof.
  unfold leb, SFleb.
  destruct a as [sa|sa| |sa ma ea], b as [sb|sb| |sb mb eb], c as [sc|sc| |sc mc ec]; cbn;
    try destruct sa; try destruct sb; try destruct sc; cbn; try done.
  all: rewrite !Pos.compare_cont_spec; cbn [Pos.switch_Eq];
    destruct (Z.compare_spec ea eb), (Z.compare_spec eb ec), (Z.compare_spec ea ec);
    try lia; subst; cbn; try done;
    destruct (Pos.compare_spec ma mb), (Pos.compare_spec mb mc), (Pos.compare_spec ma mc);
    try lia; cbn; try done.
Qed.

Lemma ltb_leb_trans (a b c : f32) : ltb a b = true -> leb b c = true -> ltb a c = true.
Proof.
  intros Hab Hbc.
  destruct (leb_not_nan _ _ (ltb_leb _ _ Hab)) as [Ha Hb].
  destruct (leb_not_nan _ _ Hbc) as [_ Hc].
  rewrite ltb_negb_leb by done. rewrite ltb_negb_leb in Hab by done.
  destruct (leb c a) eqn:Hca; [|done].
  rewrite (leb_trans b c a Hbc Hca) in Hab. discriminate.
Qed.

Lemma ltb_trans (a b c : f32) : ltb a b = true -> ltb b c = true -> ltb a c = true.
Proof. intros Hab Hbc. eapply ltb_leb_trans; [exact Hab | by apply ltb_leb]. Qed.

(** ** What [argmin] returns *)

(** The index the scan returns is the incoming one or a position of the
    scanned tensor. *)
Lemma argmin_loop_range (l : tensor1) :
  forall i the_min the_index,
  argmin_loop l i the_min the_index = the_index \/
  (i <= argmin_loop l i the_min the_index < i + length l)%nat.
Proof.
  induction l as [|v l IH]; intros i the_min the_index; cbn [argmin_loop length]; [by left|].
  destruct (negb (leb the_min v)).
  - destruct (is_nan v); [right; lia|].
    destruct (IH (S i) v i) as [->|?]; right; lia.
  - destruct (IH (S i) the_min the_index) as [->|?]; [by left | right; lia].
Qed.

Lemma argmin_range (t : tensor1) (i : nat) : argmin t = Ok i -> (i < length t)%nat.
Proof.
  destruct t as [|x t]; [discriminate|]. unfold argmin.
  pose proof (argmin_loop_range (x :: t) 0 x 0) as Hr.
  intros Hi. assert (Heq : argmin_loop (x :: t) 0 x 0 = i) by congruence.
  rewrite Heq in Hr. cbn [length] in *. lia.
Qed.

(** On a tensor without NaN the scan keeps the incoming minimum when no
    value is below it, and otherwise moves to the first position of the
    least value. *)
Lemma argmin_loop_spec (l : tensor1) :
  Forall (fun x => is_nan x = false) l ->
  forall i the_min the_index, is_nan the_min = false ->
  (argmin_loop l i the_min the_index = the_index /\
   forall d, d ∈ l -> leb the_min d = true) \/
  (exists k d,
     argmin_loop l i the_min the_index = (i + k)%nat /\ l !! k = Some d /\
     ltb d the_min = true /\
     (forall j d', (j < k)%nat -> l !! j = Some d' -> ltb d d' = true) /\
     (forall d', d' ∈ l -> leb d d' = true)).
Proof.
  induction 1 as [|v l Hv _ IH]; intros i the_min the_index Hmin.
  - left. split; [done|]. by intros d Hd%elem_of_nil.
  - cbn [argmin_loop]. destruct (leb the_min v) eqn:Hle; cbn [negb].
    + destruct (IH (S i) the_min the_index Hmin)
        as [[Hr Hall]|(k & d & Hr & Hk & Hlt & Hbefore & Hall)].
      * left. split; [done|]. by intros d [->|Hd]%elem_of_cons; [|apply Hall].
      * right. exists (S k), d. split_and!; [rewrite Hr; lia|done|done| |].
        -- intros [|j] d' Hj Hd'; [|by apply (Hbefore j); [lia|]].
           injection Hd' as <-. by eapply ltb_leb_trans.
        -- intros d' [->|Hd']%elem_of_cons; [|by apply Hall].
           apply ltb_leb. by eapply ltb_leb_trans.
    + rewrite Hv.
      assert (Hvm : ltb v the_min = true) by (rewrite ltb_negb_leb by done; by rewrite Hle).
      destruct (IH (S i) v i Hv) as [[Hr Hall]|(k & d & Hr & Hk & Hlt & Hbefore & Hall)].
      * right. exists 0%nat, v. split_and!; [rewrite Hr; lia|done|done| |].
        -- intros j d' Hj. lia.
        -- intros d' [->|Hd']%elem_of_cons; [by apply leb_refl | by apply Hall].
      * right. exists (S k), d. split_and!; [rewrite Hr; lia|done| | |].
        -- by eapply ltb_trans.
        -- intros [|j] d' Hj Hd'; [|by apply (Hbefore j); [lia|]].
           by injection Hd' as <-.
        -- intros d' [->|Hd']%elem_of_cons; [by apply ltb_leb | by apply Hall].
Qed.

(** On a tensor without NaN, [argmin] returns the first position of the
    least value. *)
Lemma argmin_minimal (t : tensor1) :
  t ≠ [] -> Forall (fun x => is_nan x = false) t ->
  exists i d,
    argmin t = Ok i /\ t !! i = Some d /\
    (forall d', d' ∈ t -> leb d d' = true) /\
    (forall j d', (j < i)%nat -> t !! j = Some d' -> ltb d d' = true).
Proof.
  intros Hne Hnan. destruct t as [|x t]; [done|]. unfold argmin.
  assert (Hx : is_nan x = false) by (by inversion Hnan).
  destruct (argmin_loop_spec (x :: t) Hnan 0 x 0 Hx)
    as [[Hr Hall]|(k & d & Hr & Hk & Hlt & Hbefore & Hall)].
  - exists 0%nat, x. rewrite Hr. split_and!; [done|done|done|]. intros j d' Hj. lia.
  - exists k, d. rewrite Hr. split_and!; try done.
Qed.

(** ** Predictions of the nearest-class-mean classifier *)

(** X1.  With at least one center, [_get_closest] returns one position
    per feature; for a feature whose distances to the centers hold no
    NaN, the position returned is that of a center at the least distance,
    and every center before it is strictly farther. *)
Theorem X1_get_closest_is_nearest (centers features : tensor2) :
  centers ≠ [] ->
  exists preds,
    _get_closest centers features = Ok preds /\
    length preds = length features /\
    forall p feature k,
      features !! p = Some feature -> preds !! p = Some k ->
      Forall (fun d => is_nan d = false) (_dist centers feature) ->
      exists d,
        _dist centers feature !! k = Some d /\
        (forall d', d' ∈ _dist centers feature -> leb d d' = true) /\
        (forall j d', (j < k)%nat -> _dist centers feature !! j = Some d' ->
                      ltb d d' = true).
Proof.
  intros Hne.
  assert (Hdist : forall feature, _dist centers feature ≠ [])
    by (intros feature; unfold _dist; by destruct centers).
  destruct (mapM_result_Ok (fun feature => argmin (_dist centers feature)) features)
    as (preds & Hrun & Hlen).
  { intros x _. by apply argmin_nonempty. }
  exists preds. split; [exact Hrun|]. split; [exact Hlen|].
  intros p feature k Hp Hk Hnan.
  apply mapM_result_inv in Hrun.
  destruct (Forall2_lookup_l _ _ _ _ _ Hrun Hp) as (k' & Hk' & Harg).
  assert (k' = k) by congruence. subst k'.
  destruct (argmin_minimal (_dist centers feature) (Hdist feature) Hnan)
    as (i & d & Hi & Hd & Hmin & Hbefore).
  assert (i = k) by congruence. subst i.
  exists d. done.
Qed.

Lemma X1_get_closest_is_nearest_witness :
  exists preds,
    _get_closest [[of_Z 1; of_Z 1]; [zero; zero]; [zero; zero]] [[zero; of_Z 1]] = Ok preds /\
    length preds = 1%nat.
Proof.
  destruct (X1_get_closest_is_nearest
              [[of_Z 1; of_Z 1]; [zero; zero]; [zero; zero]] [[zero; of_Z 1]])
    as (preds & Hrun & Hlen & _).
  - discriminate.
  - exists preds. split; [exact Hrun | exact Hlen].
Defined.

Lemma classify_batch_range (self : ICarl.t) (means : tensor2) (b : batch)
    (acc acc' : list nat * list Z) :
  classify_batch self means acc b = Ok acc' ->
  Forall (fun p => (p < length means)%nat) acc.1 ->
  Forall (fun p => (p < length means)%nat) acc'.1.
Proof.
  unfold classify_batch, _get_closest. intros Hrun Hacc.
  apply bind_Ok in Hrun as (preds & Hpreds & Hrun). injection Hrun as <-. cbn.
  apply Forall_app. split; [done|].
  apply mapM_result_inv in Hpreds.
  apply Forall_forall. intros k Hk.
  apply list_elem_of_lookup in Hk as [p Hp].
  destruct (Forall2_lookup_r _ _ _ _ _ Hpreds Hp) as (feature & _ & Harg).
  apply argmin_range in Harg. unfold _dist in Harg. by rewrite length_map in Harg.
Qed.

Lemma classify_loop_labels (self : ICarl.t) (means : tensor2) (bs : list batch) :
  forall acc acc',
  foldM (classify_batch self means) bs acc = Ok acc' ->
  acc'.2 = acc.2 ++ map target (concat bs).
Proof.
  induction bs as [|b bs IH]; intros acc acc' Hrun.
  - cbn in Hrun. injection Hrun as <-. cbn. by rewrite app_nil_r.
  - cbn [foldM] in Hrun. apply bind_Ok in Hrun as (acc1 & Hb & Hrun).
    apply IH in Hrun. rewrite Hrun.
    unfold classify_batch in Hb. apply bind_Ok in Hb as (preds & _ & Hb).
    injection Hb as <-. cbn. by rewrite map_app, app_assoc.
Qed.

(** X2.  Whatever [_eval_task] returns, every predicted label is a class
    id below [n_classes], and the labels returned beside the predictions
    are those of the samples, in loader order, one per prediction. *)
Theorem X2_eval_task_predicts_known_classes
    (self : ICarl.t) (data_loader : Loader) (ypred : list nat) (ytrue : list Z) :
  _eval_task self data_loader = Ok (ypred, ytrue) ->
  Forall (fun p => 0 <= Z.of_nat p < _n_classes self) ypred /\
  ytrue = map target (concat (batches data_loader)) /\
  length ypred = length ytrue.
Proof.
  unfold _eval_task, _classify. intros Hrun.
  apply bind_Ok in Hrun as ([yp yt] & Hcls & Hrun).
  case_decide as Hlen; [|discriminate]. injection Hrun as <- <-.
  destruct (_means self) as [means|]; [|discriminate].
  case_decide as Hn; [discriminate|].
  assert (Hn' : Z.of_nat (length means) = _n_classes self).
  { destruct (decide (Z.of_nat (length means) = _n_classes self)); [done|]. by destruct Hn. }
  assert (Hrange : Forall (fun p => (p < length means)%nat) yp).
  { apply (foldM_invariant
             (fun a : list nat * list Z => Forall (fun p => (p < length means)%nat) a.1)
             (classify_batch self means) (batches data_loader)) with (a' := (yp, yt)) in Hcls;
      [exact Hcls| |constructor].
    intros a b a' _ Ha Hstep. by eapply classify_batch_range. }
  assert (Htrue : yt = map target (concat (batches data_loader))).
  { by apply classify_loop_labels in Hcls. }
  split_and!; [|done|done].
  eapply Forall_impl; [exact Hrange|]. cbn. intros p Hp. lia.
Qed.

Lemma X2_eval_task_predicts_known_classes_witness :
  Forall (fun p => 0 <= Z.of_nat p < 2) [0%nat] /\
  [1] = map target (concat (batches near_loader)) /\
  length [0%nat] = length [1].
Proof.
  apply (X2_eval_task_predicts_known_classes near_learner near_loader [0%nat] [1]).
  vm_compute. reflexivity.
Defined.

(** ** The order of the herding ranking *)

Lemma sort_lt_asym (a b : f32) : sort_lt a b = true -> sort_lt b a = false.
Proof.
  unfold sort_lt. destruct (is_nan a) eqn:Ha; [discriminate|].
  destruct (is_nan b) eqn:Hb; [done|]. intros Hab.
  rewrite ltb_negb_leb by done. by rewrite (ltb_leb _ _ Hab).
Qed.

(** When [b] is not ranked before [a] and [c] is not ranked before [b],
    [c] is not ranked before [a]. *)
Lemma sort_lt_not_trans (a b c : f32) :
  sort_lt b a = false -> sort_lt c b = false -> sort_lt c a = false.
Proof.
  unfold sort_lt. destruct (is_nan c) eqn:Hc; [done|].
  destruct (is_nan b) eqn:Hb; [discriminate|].
  destruct (is_nan a) eqn:Ha; [discriminate|].
  intros Hba Hcb. rewrite ltb_negb_leb in Hba, Hcb |- * by done.
  apply negb_false_iff in Hba, Hcb. apply negb_false_iff. by eapply leb_trans.
Qed.

Lemma insert_sorted (x : f32 * nat) (l : list (f32 * nat)) :
  (forall a b, before l a b -> sort_lt b.1 a.1 = false) ->
  forall a b, before (insert x l) a b -> sort_lt b.1 a.1 = false.
Proof.
  induction l as [|y l IH]; intros Hs a b Hb; cbn in Hb.
  - destruct Hb as (l1 & l2 & l3 & Heq).
    apply (f_equal length) in Heq. rewrite !length_app in Heq. cbn in Heq.
    rewrite length_app in Heq. cbn in Heq. lia.
  - assert (Htail : forall a b, before l a b -> sort_lt b.1 a.1 = false)
      by (intros; apply Hs; by apply before_cons).
    destruct (sort_lt y.1 x.1) eqn:Hyx.
    + apply before_cons_inv in Hb as [[-> Hin]|Hb]; [|by apply IH].
      rewrite insert_perm in Hin. apply elem_of_cons in Hin as [->|Hin].
      * by apply sort_lt_asym.
      * apply Hs. by apply before_head.
    + apply before_cons_inv in Hb as [[-> Hin]|Hb]; [|by apply Hs].
      apply elem_of_cons in Hin as [->|Hin]; [done|].
      apply (sort_lt_not_trans _ y.1); [done|]. apply Hs. by apply before_head.
Qed.

Lemma isort_sorted (l : list (f32 * nat)) :
  forall a b, before (isort l) a b -> sort_lt b.1 a.1 = false.
Proof.
  induction l as [|x l IH]; cbn.
  - intros a b (l1 & l2 & l3 & Heq). by destruct l1.
  - by apply insert_sorted.
Qed.

(** [argsort] ranks in ascending order: a position ranked later never
    holds a value that goes strictly before the value of a position
    ranked earlier. *)
Lemma argsort_sorted (t : tensor1) (i j : nat) (di dj : f32) :
  before (argsort t) i j -> t !! i = Some di -> t !! j = Some dj ->
  sort_lt dj di = false.
Proof.
  unfold argsort. intros Hb Hi Hj.
  apply before_fmap_inv in Hb as (a & b & Hb & <- & <-).
  assert (Hmem : forall p, p ∈ isort (zip t (seq 0 (length t))) -> t !! p.2 = Some p.1).
  { intros p Hp. rewrite isort_perm in Hp.
    apply list_elem_of_lookup in Hp as [k Hk].
    apply zip_seq_lookup in Hk as [-> Hk]. done. }
  pose proof (isort_sorted _ a b Hb) as Hs.
  destruct Hb as (l1 & l2 & l3 & Heq).
  assert (Ha : a ∈ isort (zip t (seq 0 (length t)))) by (rewrite Heq; set_solver).
  assert (Hb' : b ∈ isort (zip t (seq 0 (length t)))) by (rewrite Heq; set_solver).
  apply Hmem in Ha, Hb'.
  assert (a.1 = di) by congruence. assert (b.1 = dj) by congruence. by subst.
Qed.

(** X3.  What an iteration of the herding loop appends is the identifier
    of a nearest candidate among those not selected yet: no candidate
    with a new identifier has a distance that ranks strictly before the
    winner's, so whenever neither distance is NaN the winner's is the
    lower or equal one.  The step completes on every input whose
    features and identifiers have one length. *)
Theorem X3_herding_step_takes_nearest_unselected
    (class_mean : tensor1) (features : tensor2) (idxes : list Z) (h : herd) (i : nat) :
  length features = length idxes ->
  let distances := herding_distances class_mean features (examplars_mean h) i in
  (herding_step class_mean features idxes h i = Ok h /\ idxes ⊆ examplars_idxes h) \/
  (exists w id feature d_w,
     idxes !! w = Some id /\ (id ∉ examplars_idxes h) /\ features !! w = Some feature /\
     distances !! w = Some d_w /\
     herding_step class_mean features idxes h i =
       Ok (mkHerd (examplars_idxes h ++ [id]) (vadd (examplars_mean h) feature)) /\
     forall j id_j d_j,
       idxes !! j = Some id_j -> id_j ∉ examplars_idxes h -> distances !! j = Some d_j ->
       sort_lt d_j d_w = false /\
       (is_nan d_j = false -> is_nan d_w = false -> leb d_w d_j = true)).
Proof.
  intros Hlen distances.
  destruct (herding_step_spec class_mean features idxes h i Hlen)
    as [[Hrun Hall]|(pre & w & post & id & f & Hrank & Hpre & Hw & Hnew & Hf & Hrun)].
  - left. split; [done|].
    eapply all_selected_pool; [|exact Hall]. by rewrite herding_distances_length.
  - right. fold distances in Hrank.
    assert (Hwl : (w < length distances)%nat).
    { unfold distances. rewrite herding_distances_length, Hlen. by eapply lookup_lt_Some. }
    destruct (lookup_lt_is_Some_2 distances w Hwl) as [d_w Hdw].
    exists w, id, f, d_w. split_and!; try done.
    intros j id_j d_j Hj Hnewj Hdj.
    assert (Hlt : sort_lt d_j d_w = false).
    { destruct (decide (j = w)) as [Hjw|Hjw].
      - assert (Hsame : Some d_j = Some d_w) by (rewrite <- Hdj, <- Hdw; by rewrite Hjw).
        injection Hsame as ->. apply sort_lt_irrefl.
      - assert (Hjr : j ∈ argsort distances).
        { apply argsort_elem. by eapply lookup_lt_Some. }
        apply (argsort_sorted distances w j); [|done|done].
        rewrite Hrank in Hjr |- *.
        apply elem_of_app in Hjr as [Hjp|Hjr].
        + destruct (Hpre j Hjp) as (id' & Hid' & Hsel).
          assert (id' = id_j) by congruence. subst id'. done.
        + apply elem_of_cons in Hjr as [->|Hjr]; [done|].
          apply list_elem_of_split in Hjr as (l2 & l3 & ->). by exists pre, l2, l3. }
    split; [done|]. intros Hnj Hnw. unfold sort_lt in Hlt. rewrite Hnj, Hnw in Hlt.
    rewrite ltb_negb_leb in Hlt by done. by apply negb_false_iff in Hlt.
Qed.

Lemma X3_herding_step_takes_nearest_unselected_witness :
  (herding_step [of_Z 1] [[of_Z 1]; [of_Z 2]] [7; 3] (mkHerd [] (zeros 1)) 0
     = Ok (mkHerd [] (zeros 1)) /\ [7; 3] ⊆ []) \/
  (exists w id feature d_w,
     [7; 3] !! w = Some id /\ (id ∉ []) /\ [[of_Z 1]; [of_Z 2]] !! w = Some feature /\
     herding_distances [of_Z 1] [[of_Z 1]; [of_Z 2]] (zeros 1) 0 !! w = Some d_w /\
     herding_step [of_Z 1] [[of_Z 1]; [of_Z 2]] [7; 3] (mkHerd [] (zeros 1)) 0
       = Ok (mkHerd ([] ++ [id]) (vadd (zeros 1) feature)) /\
     forall j id_j d_j,
       [7; 3] !! j = Some id_j -> id_j ∉ [] ->
       herding_distances [of_Z 1] [[of_Z 1]; [of_Z 2]] (zeros 1) 0 !! j = Some d_j ->
       sort_lt d_j d_w = false /\
       (is_nan d_j = false -> is_nan d_w = false -> leb d_w d_j = true)).
Proof.
  apply (X3_herding_step_takes_nearest_unselected
           [of_Z 1] [[of_Z 1]; [of_Z 2]] [7; 3] (mkHerd [] (zeros 1)) 0).
  reflexivity.
Defined.

(** ** Priority order of the exemplars *)

Lemma foldM_app {A B} (f : A -> B -> result A) (xs ys : list B) (a : A) :
  foldM f (xs ++ ys) a = foldM f xs a ≫= foldM f ys.
Proof.
  revert a. induction xs as [|x xs IH]; intros a; cbn; [done|].
  destruct (f a x) as [a'|e]; cbn; [apply IH | done].
Qed.

(** The herding loop only appends to the selection. *)
Lemma herding_loop_prefix (class_mean : tensor1) (features : tensor2) (idxes : list Z)
    (its : list nat) :
  length features = length idxes ->
  forall h0 h, foldM (herding_step class_mean features idxes) its h0 = Ok h ->
  examplars_idxes h0 `prefix_of` examplars_idxes h.
Proof.
  intros Hlen. induction its as [|i its IH]; intros h0 h Hrun.
  - cbn in Hrun. by injection Hrun as <-.
  - cbn [foldM] in Hrun. apply bind_Ok in Hrun as (h1 & Hstep & Hrun).
    apply IH in Hrun.
    destruct (herding_step_spec class_mean features idxes h0 i Hlen)
      as [[Hsame _]|(pre & w & post & id & f & _ & _ & _ & _ & _ & Hnew)].
    + rewrite Hsame in Hstep. by injection Hstep as <-.
    + rewrite Hnew in Hstep. injection Hstep as <-. cbn in Hrun.
      etrans; [|exact Hrun]. by apply prefix_app_r.
Qed.

(** X4.  Exemplars are stored in selection order: herding with a smaller
    quota selects a prefix of what herding with a larger quota selects on
    the same candidates, and when the identifiers of the pool are
    distinct, cutting the larger selection to the smaller quota, as
    [_reduce_examplars] does, gives exactly the smaller selection. *)
Theorem X4_smaller_quota_selects_prefix
    (m m' : Z) (dim : nat) (class_mean : tensor1) (features : tensor2) (idxes : list Z) :
  length features = length idxes -> 0 <= m' <= m ->
  exists h h',
    herding m dim class_mean features idxes = Ok h /\
    herding m' dim class_mean features idxes = Ok h' /\
    examplars_idxes h' `prefix_of` examplars_idxes h /\
    (NoDup idxes -> slice_to (examplars_idxes h) m' = examplars_idxes h').
Proof.
  intros Hlen Hm.
  destruct (herding_spec m dim class_mean features idxes Hlen) as (h & Hh & _ & _ & _ & Heq).
  destruct (herding_spec m' dim class_mean features idxes Hlen)
    as (h' & Hh' & _ & _ & _ & Heq').
  exists h, h'. split; [done|]. split; [done|].
  assert (Hpre : examplars_idxes h' `prefix_of` examplars_idxes h).
  { revert Hh Hh'. unfold herding, Py.min.
    set (n := Z.of_nat (length features)).
    replace (Z.to_nat (Z.min m n))
      with (Z.to_nat (Z.min m' n) + (Z.to_nat (Z.min m n) - Z.to_nat (Z.min m' n)))%nat by lia.
    rewrite seq_app, foldM_app. intros Hh Hh'. rewrite Hh' in Hh. cbn in Hh.
    by eapply herding_loop_prefix. }
  split; [done|]. intros Hnd. specialize (Heq Hnd). specialize (Heq' Hnd).
  destruct Hpre as [k Hk]. rewrite slice_to_nonneg by lia.
  rewrite Hk in Heq |- *. rewrite length_app in Heq.
  destruct (decide (m' <= Z.of_nat (length idxes))) as [Hle|Hgt].
  - rewrite take_app_length'; [done|lia].
  - assert (k = []) as -> by (apply length_zero_iff_nil; lia).
    rewrite app_nil_r. apply take_ge. lia.
Qed.

Lemma X4_smaller_quota_selects_prefix_witness :
  exists h h',
    herding 2 1 [of_Z 1] [[of_Z 1]; [of_Z 2]; [of_Z 4]] [10; 11; 12] = Ok h /\
    herding 1 1 [of_Z 1] [[of_Z 1]; [of_Z 2]; [of_Z 4]] [10; 11; 12] = Ok h' /\
    examplars_idxes h' `prefix_of` examplars_idxes h /\
    (NoDup [10; 11; 12] -> slice_to (examplars_idxes h) 1 = examplars_idxes h').
Proof.
  apply (X4_smaller_quota_selects_prefix 2 1 1 [of_Z 1] [[of_Z 1]; [of_Z 2]; [of_Z 4]]
           [10; 11; 12]).
  - reflexivity.
  - lia.
Defined.

(** ** What a rebuild leaves in the memory *)

Lemma known_loop_count (loader : Loader) (ks : list Z) :
  forall means self acc,
  foldM (known_class_mean loader) ks (means, self) = Ok acc ->
  length acc.1 = (length means + length ks)%nat.
Proof.
  induction ks as [|k ks IH]; intros means self acc Hrun.
  - cbn in Hrun. injection Hrun as <-. cbn. lia.
  - cbn [foldM] in Hrun. apply bind_Ok in Hrun as ([means1 self1] & H1 & Hrun).
    apply IH in Hrun. rewrite Hrun. cbn.
    unfold known_class_mean in H1. apply bind_Ok in H1 as (l & _ & H1).
    apply bind_Ok in H1 as ([[? ?] ?] & _ & H1). injection H1 as <- _.
    rewrite length_app. cbn. lia.
Qed.

Lemma build_class_track (loader : Loader) means self c means' self' :
  build_class loader (means, self) c = Ok (means', self') ->
  exists l,
    self' = with_examplars (<[c := l]> (_examplars self)) self /\
    length means' = S (length means) /\
    NoDup l /\ l ⊆ map real_idx (concat (set_classes_range loader c c)) /\
    Z.of_nat (length l) <= Z.max 0 (_k self / _n_classes self).
Proof.
  intros H.
  destruct (decide (set_classes_range loader c c = [])) as [Hnil|Hne].
  { unfold build_class in H. rewrite Hnil in H. discriminate. }
  destruct (_m self) as [m|e] eqn:Hm.
  - destruct (build_class_spec loader means self c m Hne Hm)
      as (h & Hrun & Hnd & Hsub & Hle & _).
    rewrite Hrun in H. injection H as <- <-.
    apply _m_Ok in Hm as [Hn ->]. exists (examplars_idxes h).
    split_and!; try done; [|lia]. rewrite length_app. cbn. lia.
  - unfold build_class in H. rewrite extract_features_spec in H by done.
    cbn -[herding] in H. rewrite Hm in H. discriminate.
Qed.

(** The loop over the new classes gives every class it visits a set
    without duplicates drawn from the candidates of that class, and
    leaves the other entries as they are. *)
Lemma build_loop_track (loader : Loader) (ks : list Z) :
  forall means self acc,
  foldM (build_class loader) ks (means, self) = Ok acc ->
  exists e',
    acc.2 = with_examplars e' self /\
    length acc.1 = (length means + length ks)%nat /\
    (forall c, c ∉ ks -> e' !! c = _examplars self !! c) /\
    (forall c, c ∈ ks -> exists l,
       e' !! c = Some l /\ NoDup l /\
       l ⊆ map real_idx (concat (set_classes_range loader c c)) /\
       Z.of_nat (length l) <= Z.max 0 (_k self / _n_classes self)).
Proof.
  induction ks as [|k ks IH]; intros means self acc Hrun.
  - cbn in Hrun. injection Hrun as <-. exists (_examplars self).
    split_and!; [by destruct self|cbn; lia|done|]. by intros c Hc%elem_of_nil.
  - cbn [foldM] in Hrun. apply bind_Ok in Hrun as ([means1 self1] & H1 & Hrun).
    apply build_class_track in H1 as (l & -> & Hlen & Hnd & Hsub & Hle).
    apply IH in Hrun as (e' & He' & Hcount & Hout & Hin). cbn in Hout, Hin.
    exists e'. split_and!.
    + exact He'.
    + rewrite Hcount, Hlen. cbn. lia.
    + intros c Hc. rewrite Hout by set_solver. apply lookup_insert_ne. set_solver.
    + intros c Hc. destruct (decide (c ∈ ks)) as [Hks|Hks]; [by apply Hin|].
      apply elem_of_cons in Hc as [Hck|Hc]; [subst c|done].
      exists l. rewrite Hout by done. rewrite lookup_insert_eq. done.
Qed.

(** What a completed [_build_examplars] leaves. *)
Lemma build_examplars_track (self self' : ICarl.t) (loader : Loader) :
  _build_examplars self loader = Ok self' ->
  let lo := _task self * _task_size self in
  (exists means,
     _means self' = Some means /\ means ≠ [] /\
     length means = (Z.to_nat lo + Z.to_nat (_n_classes self - lo))%nat) /\
  (forall c, 0 <= c < lo -> is_Some (_examplars self !! c)) /\
  (forall c, ¬ (lo <= c < _n_classes self) -> _examplars self' !! c = _examplars self !! c) /\
  (forall c, lo <= c < _n_classes self -> exists l,
     _examplars self' !! c = Some l /\ NoDup l /\
     l ⊆ map real_idx (concat (set_classes_range loader c c)) /\
     Z.of_nat (length l) <= Z.max 0 (_k self / _n_classes self)).
Proof.
  intros H lo. unfold _build_examplars in H. fold lo in H.
  apply bind_Ok in H as ([means1 self1] & H1 & H).
  pose proof (known_loop_count _ _ _ _ _ H1) as Hc1.
  apply known_loop_inv in H1 as [Heq Hkeys]. cbn in Heq. subst self1.
  apply bind_Ok in H as (acc & H2 & H). cbn in H2.
  apply build_loop_track in H2 as (e' & He' & Hc2 & Hout & Hin).
  apply bind_Ok in H as (means & Hstack & H). injection H as <-.
  rewrite He'. cbn. split_and!.
  - exists means. unfold stack in Hstack.
    destruct acc.1 as [|x xs] eqn:Hacc; [discriminate|]. injection Hstack as <-.
    split_and!; [done|done|].
    rewrite Hc2. cbn in Hc1. rewrite Hc1, !range_length. cbn. f_equal; lia.
  - intros c Hc. by apply Hkeys, range_elem.
  - intros c Hc. apply Hout. by rewrite range_elem.
  - intros c Hc. apply Hin. by rewrite range_elem.
Qed.

(** X5.  [_after_task] leaves the exemplar sets of the classes of
    earlier tasks (those below [task * task_size]) exactly as the
    reduction cut them: it re-selects nothing for them. *)
Theorem X5_after_task_only_truncates_old_classes
    (self self' : ICarl.t) (data_loader : Loader) (c : Z) (l : list Z) :
  _after_task self data_loader = Ok self' ->
  c < _task self * _task_size self ->
  _examplars self !! c = Some l ->
  _examplars self' !! c = Some (slice_to l (_k self / _n_classes self)).
Proof.
  unfold _after_task. intros Hrun Hc Hl.
  apply bind_Ok in Hrun as (self1 & Hred & Hbuild).
  apply reduce_result in Hred as (e1 & -> & He1).
  apply build_examplars_track in Hbuild as (_ & _ & Hout & _). cbn in Hout.
  rewrite Hout by lia. by rewrite He1, Hl.
Qed.

(** X6.  When [_after_task] completes, every class of the current task
    (from [task * task_size] up to [n_classes]) has a new exemplar set,
    whatever the dictionary held for it before: the set has no
    duplicate and holds only identifiers of the candidates the loader
    lists for that class. *)
Theorem X6_after_task_rebuilds_current_classes
    (self self' : ICarl.t) (data_loader : Loader) (c : Z) :
  _after_task self data_loader = Ok self' ->
  _task self * _task_size self <= c < _n_classes self ->
  exists l,
    _examplars self' !! c = Some l /\ NoDup l /\
    l ⊆ map real_idx (concat (set_classes_range data_loader c c)).
Proof.
  unfold _after_task. intros Hrun Hc.
  apply bind_Ok in Hrun as (self1 & Hred & Hbuild).
  apply reduce_result in Hred as (e1 & -> & He1).
  apply build_examplars_track in Hbuild as (_ & _ & _ & Hin). cbn in Hin.
  destruct (Hin c Hc) as (l & Hl & Hnd & Hsub & _). by exists l.
Qed.

Lemma keys_range_contiguous (e : gmap Z (list Z)) (n : Z) :
  0 <= n -> (forall c, is_Some (e !! c) <-> 0 <= c < n) ->
  Z.of_nat (size e) = n /\ contiguous e.
Proof.
  intros Hn Hkeys.
  assert (Hdom : dom e = list_to_set (range 0 n)).
  { apply set_eq. intros c. rewrite elem_of_dom, elem_of_list_to_set, range_elem. apply Hkeys. }
  assert (Hsize : Z.of_nat (size e) = n).
  { rewrite <- size_dom, Hdom, size_list_to_set by apply range_NoDup.
    rewrite range_length. lia. }
  split; [done|]. intros c. by rewrite Hsize.
Qed.

(** After a completed [_after_task] on a well-formed learner the classes
    with an exemplar set are exactly those below [n_classes], and there
    is one mean per class. *)
Lemma after_task_keys (self self' : ICarl.t) (loader : Loader) :
  well_formed self -> _after_task self loader = Ok self' ->
  (forall c, is_Some (_examplars self' !! c) <-> 0 <= c < _n_classes self') /\
  exists means, _means self' = Some means /\ means ≠ [] /\
                Z.of_nat (length means) = _n_classes self'.
Proof.
  intros Hwf Hrun.
  destruct (after_task_inv self self' loader Hwf Hrun) as ((Hm & Hk & Hn & _) & Hdom & _).
  destruct Hwf as (_ & Hnn & Ht & Hts & Hdom0).
  unfold _after_task in Hrun. apply bind_Ok in Hrun as (self1 & Hred & Hbuild).
  apply reduce_result in Hred as (e1 & -> & He1).
  apply build_examplars_track in Hbuild as ((means & Hmeans & Hne & Hlen) & Hkeys & Hout & Hin).
  cbn in Hlen, Hkeys, Hout, Hin.
  set (lo := _task self * _task_size self) in *.
  assert (Hlo : 0 <= lo) by (unfold lo; nia).
  assert (Hlon : lo <= _n_classes self).
  { destruct (decide (lo <= _n_classes self)) as [|Hgt]; [done|].
    destruct (Hkeys (lo - 1)) as [l Hl]; [lia|].
    rewrite He1 in Hl. destruct (_examplars self !! (lo - 1)) as [l0|] eqn:Hl0; [|discriminate].
    assert (0 <= lo - 1 < _n_classes self) by (apply Hdom0; by eexists). lia. }
  split.
  - intros c. split; [apply Hdom|]. rewrite Hn. intros Hc.
    destruct (decide (lo <= c)) as [Hge|Hlt].
    + destruct (Hin c) as (l & Hl & _); [lia|]. by eexists.
    + rewrite Hout by lia. apply Hkeys. lia.
  - exists means. split_and!; [done|done|]. rewrite Hlen, Hn. lia.
Qed.

Section Run.

Variable binary_cross_entropy_with_logits : tensor2 -> tensor2 -> f32.
Variable sigmoid : f32 -> f32.
Variable backward_and_step : ICarl.t -> batch -> f32 -> (tensor1 -> tensor1) * tensor2.

(** In every learner of a run the classes with an exemplar set are
    [0 .. len - 1]. *)
Lemma reachable_contiguous (self : ICarl.t) :
  reachable binary_cross_entropy_with_logits sigmoid backward_and_step self ->
  contiguous (_examplars self).
Proof.
  induction 1 as [args fresh self Hinit
                 |self task task_size n_train Hreach IH Ht Hts
                 |self tl vl fresh self' Hreach IH Hrun
                 |self tl vl self' trace Hreach IH Hrun
                 |self loader self' Hreach IH Hrun].
  - unfold __init__ in Hinit. apply bind_Ok in Hinit as (c & _ & Hinit).
    injection Hinit as <-. cbn. intros c'. rewrite lookup_empty, map_size_empty.
    split; [by intros [? ?] | lia].
  - exact IH.
  - unfold _before_task in Hrun. case_decide.
    + by injection Hrun as <-.
    + apply bind_Ok in Hrun as (preds & _ & Hrun).
      apply bind_Ok in Hrun as (self1 & H1 & Hrun).
      assert (He1 : _examplars self1 = _examplars self).
      { destruct vl as [l|].
        - case_decide.
          + by injection H1 as <-.
          + apply bind_Ok in H1 as (pv & _ & H1). by injection H1 as <-.
        - by injection H1 as <-. }
      apply add_n_classes_inv in Hrun as (He' & _). by rewrite He', He1.
  - apply train_task_same in Hrun as [_ He]. by rewrite He.
  - pose proof (reachable_well_formed _ _ _ self Hreach) as Hwf.
    destruct (after_task_keys self self' loader Hwf Hrun) as [Hkeys _].
    pose proof (reachable_well_formed _ _ _ self'
                  (reach_after_task _ _ _ self loader self' Hreach Hrun)) as (_ & Hn & _).
    by destruct (keys_range_contiguous _ _ Hn Hkeys).
Qed.

End Run.

(** X7.  In every learner of a run [_reduce_examplars] completes: it
    meets no missing class and no division by zero, keeps the classes
    that have an exemplar set, and cuts every set at
    [memory_size // n_classes]. *)
Theorem X7_reduce_completes_in_every_run
    (binary_cross_entropy_with_logits : tensor2 -> tensor2 -> f32)
    (sigmoid : f32 -> f32)
    (backward_and_step : ICarl.t -> batch -> f32 -> (tensor1 -> tensor1) * tensor2)
    (self : ICarl.t) :
  reachable binary_cross_entropy_with_logits sigmoid backward_and_step self ->
  exists self',
    _reduce_examplars self = Ok self' /\
    forall c, _examplars self' !! c =
      (fun l => slice_to l (_k self / _n_classes self)) <$> (_examplars self !! c).
Proof.
  intros Hreach.
  pose proof (reachable_contiguous _ _ _ self Hreach) as Hcont.
  pose proof (reachable_well_formed _ _ _ self Hreach) as (_ & _ & _ & _ & Hdom).
  destruct (reduce_spec self Hcont) as (e' & Hrun & Hlook).
  - intros Hsize Hz.
    assert (Hsome : is_Some (_examplars self !! 0)).
    { apply Hcont. lia. }
    apply Hdom in Hsome. lia.
  - exists (with_examplars e' self). done.
Qed.

Lemma X7_reduce_completes_in_every_run_witness :
  exists self self' self'',
    __init__ (fun _ _ => zero) first_task_args (fun _ => [of_Z 1]) = Ok self /\
    _after_task (set_task_info 0 2 6 self) first_task_loader = Ok self' /\
    _reduce_examplars self' = Ok self''.
Proof.
  destruct (__init__ (fun _ _ => zero) first_task_args (fun _ => [of_Z 1]))
    as [self|] eqn:Hinit; [|vm_compute in Hinit; discriminate].
  destruct (_after_task (set_task_info 0 2 6 self) first_task_loader)
    as [self'|] eqn:Hrun.
  2: { vm_compute in Hinit. injection Hinit as <-. vm_compute in Hrun. discriminate. }
  destruct (X7_reduce_completes_in_every_run (fun _ _ => zero) (fun x => x) no_update self')
    as (self'' & Hred & _).
  - eapply reach_after_task; [|exact Hrun].
    apply reach_set_task_info; [|lia|lia]. by eapply reach_init.
  - by exists self, self', self''.
Defined.

(** X8.  After [_after_task] has completed in a run, the classifier is
    ready: there is one stored mean per class, at least one class, every
    class below [n_classes] has an exemplar set and no other class has
    one, and [_eval_task] raises nothing on any loader: it returns one
    prediction per sample with the labels of the samples. *)
Theorem X8_eval_task_succeeds_after_after_task
    (binary_cross_entropy_with_logits : tensor2 -> tensor2 -> f32)
    (sigmoid : f32 -> f32)
    (backward_and_step : ICarl.t -> batch -> f32 -> (tensor1 -> tensor1) * tensor2)
    (self self' : ICarl.t) (data_loader eval_loader : Loader) :
  reachable binary_cross_entropy_with_logits sigmoid backward_and_step self ->
  _after_task self data_loader = Ok self' ->
  (exists means, _means self' = Some means /\
                 Z.of_nat (length means) = _n_classes self') /\
  0 < _n_classes self' /\
  (forall c, is_Some (_examplars self' !! c) <-> 0 <= c < _n_classes self') /\
  exists ypred,
    _eval_task self' eval_loader = Ok (ypred, map target (concat (batches eval_loader))) /\
    length ypred = length (concat (batches eval_loader)).
Proof.
  intros Hreach Hrun.
  pose proof (reachable_well_formed _ _ _ self Hreach) as Hwf.
  destruct (after_task_keys self self' data_loader Hwf Hrun)
    as (Hkeys & means & Hmeans & Hne & Hlen).
  split_and!.
  - by exists means.
  - destruct means; [done|]. cbn in Hlen. lia.
  - exact Hkeys.
  - unfold _eval_task, _classify. rewrite Hmeans.
    rewrite decide_False by (intros Hneq; by apply Hneq).
    destruct (classify_loop_Ok self' means (batches eval_loader) Hne ([], []))
      as (ypred & ytrue & Hcls & Hl & ->).
    cbn in Hcls. rewrite Hcls. cbn.
    rewrite decide_True by (by rewrite Hl, length_map). by exists ypred.
Qed.

Lemma X8_eval_task_succeeds_after_after_task_witness :
  exists self self' ypred,
    __init__ (fun _ _ => zero) first_task_args (fun _ => [of_Z 1]) = Ok self /\
    _after_task (set_task_info 0 2 6 self) first_task_loader = Ok self' /\
    _eval_task self' near_loader = Ok (ypred, [1]).
Proof.
  destruct (__init__ (fun _ _ => zero) first_task_args (fun _ => [of_Z 1]))
    as [self|] eqn:Hinit; [|vm_compute in Hinit; discriminate].
  destruct (_after_task (set_task_info 0 2 6 self) first_task_loader)
    as [self'|] eqn:Hrun.
  2: { vm_compute in Hinit. injection Hinit as <-. vm_compute in Hrun. discriminate. }
  destruct (X8_eval_task_succeeds_after_after_task (fun _ _ => zero) (fun x => x) no_update
              (set_task_info 0 2 6 self) self' first_task_loader near_loader)
    as (_ & _ & _ & ypred & Heval & _).
  - apply reach_set_task_info; [|lia|lia]. by eapply reach_init.
  - exact Hrun.
  - by exists self, self', ypred.
Defined.

Lemma X5_after_task_only_truncates_old_classes_witness :
  exists self',
    _after_task second_task_learner second_task_loader = Ok self' /\
    _examplars self' !! 0 = Some [0] /\ _examplars self' !! 1 = Some [10].
Proof.
  destruct (_after_task second_task_learner second_task_loader) as [self'|] eqn:Hrun;
    [|vm_compute in Hrun; discriminate].
  exists self'. split_and!; [done| |].
  - rewrite (X5_after_task_only_truncates_old_classes
               second_task_learner self' second_task_loader 0 [0; 1] Hrun);
      [reflexivity|reflexivity|reflexivity].
  - rewrite (X5_after_task_only_truncates_old_classes
               second_task_learner self' second_task_loader 1 [10; 11] Hrun);
      [reflexivity|reflexivity|reflexivity].
Defined.

Lemma X6_after_task_rebuilds_current_classes_witness :
  exists self' l,
    _after_task second_task_learner second_task_loader = Ok self' /\
    _examplars self' !! 2 = Some l /\ NoDup l /\ l ⊆ [20; 21; 22].
Proof.
  destruct (_after_task second_task_learner second_task_loader) as [self'|] eqn:Hrun;
    [|vm_compute in Hrun; discriminate].
  destruct (X6_after_task_rebuilds_current_classes
              second_task_learner self' second_task_loader 2 Hrun)
    as (l & Hl & Hnd & Hsub); [split; [by vm_compute|reflexivity]|].
  exists self', l. split_and!; [reflexivity|exact Hl|exact Hnd|exact Hsub].
Defined.

(** ** One-hot targets *)

Lemma mapM_result_total {A B} (f : A -> result B) (l : list A) (e : exn) :
  (forall x e', f x = Raise e' -> e' = e) ->
  ~ Forall (fun x => exists y, f x = Ok y) l ->
  mapM (M := result) f l = Raise e.
Proof.
  intros Hf Hnot.
  destruct (mapM (M := result) f l) as [k|e'] eqn:Hrun.
  - exfalso. apply Hnot. clear Hnot. apply mapM_result_inv in Hrun.
    induction Hrun as [|x y l k Hxy _ IH]; [constructor|].
    constructor; [by exists y|exact IH].
  - f_equal. revert Hrun. apply (mapM_result_error f l (fun e' => e' = e)). exact Hf.
Qed.

(** X9.  For a number of classes that is not negative, [to_onehot]
    returns a result exactly when every target is a class in
    [0, n_classes), and raises otherwise; the result has one row per
    target, of [n_classes] columns, holding a one in the column of the
    target and a zero in every other column. *)
Theorem X9_to_onehot_one_per_row (targets : list Z) (n_classes : Z) :
  0 <= n_classes ->
  (Forall (fun t => 0 <= t < n_classes) targets ->
   exists onehot,
     utils.to_onehot targets n_classes = Ok onehot /\
     length onehot = length targets /\
     forall i t, targets !! i = Some t ->
       exists row,
         onehot !! i = Some row /\ length row = Z.to_nat n_classes /\
         forall j, (j < Z.to_nat n_classes)%nat ->
           row !! j = Some (if decide (j = Z.to_nat t) then of_Z 1 else zero)) /\
  (~ Forall (fun t => 0 <= t < n_classes) targets ->
   utils.to_onehot targets n_classes = Raise RuntimeError).
Proof.
  intros Hn. unfold utils.to_onehot. split.
  - intros Hall.
    destruct (mapM_result_Ok
                (fun t : Z =>
                   if decide (0 <= t < n_classes)
                   then Ok (<[Z.to_nat t := of_Z 1]> (zeros (Z.to_nat n_classes)))
                   else Raise RuntimeError) targets) as (onehot & Hrun & Hlen).
    { intros t Ht. rewrite Forall_forall in Hall. rewrite decide_True by by apply Hall.
      by eexists. }
    exists onehot. split_and!; [done|done|].
    intros i t Hi. apply mapM_result_inv in Hrun.
    destruct (Forall2_lookup_l _ _ _ _ _ Hrun Hi) as (row & Hrow & Hf).
    exists row. split; [done|].
    assert (Ht : 0 <= t < n_classes).
    { rewrite Forall_forall in Hall. apply Hall. by eapply list_elem_of_lookup_2. }
    rewrite decide_True in Hf by done.
    assert (Hr : row = <[Z.to_nat t := of_Z 1]> (zeros (Z.to_nat n_classes))) by congruence.
    rewrite Hr. unfold zeros.
    split; [etrans; [apply length_insert|apply length_replicate]|].
    intros j Hj. destruct (decide (j = Z.to_nat t)) as [->|Hne].
    + apply list_lookup_insert_eq.
      assert (Hl : length (replicate (Z.to_nat n_classes) zero) = Z.to_nat n_classes)
        by apply length_replicate.
      by rewrite Hl.
    + etrans; [apply list_lookup_insert_ne; congruence|]. by apply lookup_replicate_2.
  - intros Hnot. apply mapM_result_total.
    + intros t e. case_decide; [discriminate|]. by intros [= <-].
    + intros Hall. apply Hnot. eapply Forall_impl; [exact Hall|].
      intros t [y Hy]. cbn in Hy. by case_decide.
Qed.

Lemma X9_to_onehot_one_per_row_witness :
  (exists onehot, utils.to_onehot [1; 0] 2 = Ok onehot /\ length onehot = 2%nat) /\
  utils.to_onehot [1; 2] 2 = Raise RuntimeError.
Proof.
  split.
  - destruct (X9_to_onehot_one_per_row [1; 0] 2) as [H _]; [lia|].
    destruct H as (onehot & Hrun & Hlen & _); [repeat constructor; lia|].
    by exists onehot.
  - destruct (X9_to_onehot_one_per_row [1; 2] 2) as [_ H]; [lia|].
    apply H. intros Hall. apply Forall_cons in Hall as [_ Hall].
    apply Forall_cons in Hall as [Hall _]. lia.
Defined.

(** ** Predictions of the previous model *)

Lemma setrow_in_range (m : tensor2) (i : Z) (row : tensor1) :
  0 <= i < Z.of_nat (length m) -> setrow m i row = Ok (<[Z.to_nat i := row]> m).
Proof.
  intros H. unfold setrow, row_index.
  rewrite (decide_False (P := i < 0)) by lia. by rewrite decide_True by lia.
Qed.

Lemma setrow_length (m m' : tensor2) (i : Z) (row : tensor1) :
  setrow m i row = Ok m' -> length m' = length m.
Proof.
  unfold setrow. intros H. apply bind_Ok in H as (j & _ & H).
  assert (Hm : m' = <[j := row]> m) by congruence.
  rewrite Hm. apply length_insert.
Qed.

Lemma setrow_out_of_range (m : tensor2) (i : Z) (row : tensor1) :
  i < - Z.of_nat (length m) \/ Z.of_nat (length m) <= i ->
  exists e, setrow m i row = Raise e.
Proof.
  intros H. unfold setrow, row_index.
  destruct (decide (i < 0)); rewrite decide_False by lia; by eexists.
Qed.

Lemma predictions_loop (f : sample -> tensor1) (samples : list sample) :
  forall preds0 : tensor2,
    Forall (fun s => 0 <= idx s < Z.of_nat (length preds0)) samples ->
    NoDup (map idx samples) ->
    exists preds : tensor2,
      foldM (fun preds (s : sample) => setrow preds (idx s) (f s)) samples preds0 = Ok preds /\
      length preds = length preds0 /\
      (forall s, s ∈ samples -> preds !! Z.to_nat (idx s) = Some (f s)) /\
      (forall i, (forall s, s ∈ samples -> idx s ≠ Z.of_nat i) -> preds !! i = preds0 !! i).
Proof.
  induction samples as [|s rest IH]; intros preds0 Hall Hnd.
  - exists preds0. split_and!; [done|done| |done].
    intros s Hs. by apply elem_of_nil in Hs.
  - apply Forall_cons in Hall as [Hs Hall]. cbn [map] in Hnd.
    apply NoDup_cons in Hnd as [Hnew Hnd].
    assert (Hlen1 : length (<[Z.to_nat (idx s) := f s]> preds0) = length preds0)
      by apply length_insert.
    destruct (IH (<[Z.to_nat (idx s) := f s]> preds0)) as (preds & Hrun & Hlen & Hin & Hout).
    { by rewrite Hlen1. }
    { done. }
    exists preds. split_and!.
    + cbn [foldM]. rewrite setrow_in_range by done. exact Hrun.
    + by rewrite Hlen, Hlen1.
    + intros s' Hs'. apply elem_of_cons in Hs' as [->|Hs']; [|by apply Hin].
      rewrite Hout.
      * apply list_lookup_insert_eq. lia.
      * intros s'' Hs'' Heq. apply Hnew. apply list_elem_of_In, in_map_iff.
        exists s''. split; [lia|]. by apply list_elem_of_In.
    + intros i Hi. rewrite Hout.
      * apply list_lookup_insert_ne. intros Heq. apply (Hi s); [by left|lia].
      * intros s' Hs'. apply Hi. by right.
Qed.

Lemma predictions_loop_error (f : sample -> tensor1) (samples : list sample) :
  forall preds0 : tensor2,
    Exists (fun s => idx s < - Z.of_nat (length preds0) \/ Z.of_nat (length preds0) <= idx s)
           samples ->
    exists e,
      foldM (fun preds (s : sample) => setrow preds (idx s) (f s)) samples preds0 = Raise e.
Proof.
  induction samples as [|s rest IH]; intros preds0 Hex.
  - by apply Exists_nil in Hex.
  - cbn [foldM]. destruct (setrow preds0 (idx s) (f s)) as [preds1|e] eqn:Hset.
    + apply Exists_cons in Hex as [Hs|Hex].
      * destruct (setrow_out_of_range preds0 (idx s) (f s) Hs) as [e He]. congruence.
      * apply setrow_length in Hset. destruct (IH preds1) as [e He]; [by rewrite Hset|].
        exists e. exact He.
    + by exists e.
Qed.

(** X10.  [_compute_predictions], with a head of [n_classes] outputs:
    when every sample of the loader has its position within
    [0, n_train_data) and no position comes twice, the result has
    [n_train_data] rows of [n_classes] columns, the row at the position
    of a sample is the sigmoid of the logits of that sample, and every
    row no sample points at is the sigmoid of zeros; a sample whose
    position is outside [-n_train_data, n_train_data) makes the call
    raise. *)
Theorem X10_compute_predictions_rows
    (sigmoid : f32 -> f32) (self : ICarl.t) (data_loader : Loader) :
  0 <= _n_train_data self -> 0 <= _n_classes self ->
  length (weight (_classifier self)) = Z.to_nat (_n_classes self) ->
  (Forall (fun s => 0 <= idx s < _n_train_data self) (concat (batches data_loader)) ->
   NoDup (map idx (concat (batches data_loader))) ->
   exists preds,
     _compute_predictions sigmoid self data_loader = Ok preds /\
     length preds = Z.to_nat (_n_train_data self) /\
     Forall (fun row => length row = Z.to_nat (_n_classes self)) preds /\
     (forall s, s ∈ concat (batches data_loader) ->
        preds !! Z.to_nat (idx s) = Some (map sigmoid (forward self (input s)))) /\
     (forall i, (i < Z.to_nat (_n_train_data self))%nat ->
        (forall s, s ∈ concat (batches data_loader) -> idx s ≠ Z.of_nat i) ->
        preds !! i = Some (map sigmoid (zeros (Z.to_nat (_n_classes self)))))) /\
  (Exists (fun s => idx s < - _n_train_data self \/ _n_train_data self <= idx s)
          (concat (batches data_loader)) ->
   exists e, _compute_predictions sigmoid self data_loader = Raise e).
Proof.
  intros Hn Hc Hw.
  set (preds0 := replicate (Z.to_nat (_n_train_data self))
                           (zeros (Z.to_nat (_n_classes self)))).
  assert (Hlen0 : length preds0 = Z.to_nat (_n_train_data self)) by apply length_replicate.
  unfold _compute_predictions. rewrite decide_True by done. fold preds0. split.
  - intros Hall Hnd.
    destruct (predictions_loop (fun s => forward self (input s))
                (concat (batches data_loader)) preds0)
      as (preds & Hrun & Hlen & Hin & Hout).
    { eapply Forall_impl; [exact Hall|]. intros s Hs. cbv beta in *. rewrite Hlen0. lia. }
    { done. }
    exists (map (map sigmoid) preds). split_and!.
    + by rewrite Hrun.
    + etrans; [apply length_map|]. by etrans.
    + apply Forall_forall. intros row Hrow.
      apply list_elem_of_In, in_map_iff in Hrow as (r & <- & Hr).
      apply list_elem_of_In, list_elem_of_lookup in Hr as [i Hi].
      rewrite length_map.
      destruct (decide (Z.of_nat i ∈ map idx (concat (batches data_loader)))) as [Hmem|Hno].
      * apply list_elem_of_In, in_map_iff in Hmem as (s & Hsi & Hs).
        apply list_elem_of_In in Hs.
        pose proof (Hin s Hs) as Hrs. rewrite Hsi, Nat2Z.id in Hrs.
        pose proof (eq_trans (eq_sym Hi) Hrs) as Hrf. injection Hrf as Hrf.
        rewrite Hrf. unfold forward, linear. by rewrite length_map.
      * rewrite Hout in Hi.
        2: { intros s Hs Hsi. apply Hno. apply list_elem_of_In, in_map_iff.
             exists s. split; [done|by apply list_elem_of_In]. }
        apply lookup_replicate in Hi as [-> _]. apply length_replicate.
    + intros s Hs. pose proof (Hin s Hs) as Hrs.
      exact (eq_trans (lookup_map (map sigmoid) preds _)
                      (f_equal (fmap (map sigmoid)) Hrs)).
    + intros i Hi Hno.
      assert (H0 : preds0 !! i = Some (zeros (Z.to_nat (_n_classes self))))
        by by apply lookup_replicate_2.
      exact (eq_trans (lookup_map (map sigmoid) preds _)
                      (f_equal (fmap (map sigmoid)) (eq_trans (Hout i Hno) H0))).
  - intros Hex.
    destruct (predictions_loop_error (fun s => forward self (input s))
                (concat (batches data_loader)) preds0) as [e He].
    { eapply Exists_impl; [exact Hex|]. intros s Hs. cbv beta in *. rewrite Hlen0. lia. }
    exists e. by rewrite He.
Qed.

Lemma X10_compute_predictions_rows_witness :
  exists preds,
    _compute_predictions (fun x => x) near_learner near_loader = Ok preds /\
    length preds = 100%nat.
Proof.
  destruct (X10_compute_predictions_rows (fun x => x) near_learner near_loader) as [H _].
  - by vm_compute.
  - by vm_compute.
  - reflexivity.
  - destruct H as (preds & Hrun & Hlen & _).
    + vm_compute. repeat constructor; discriminate.
    + vm_compute. repeat constructor. intros H. by apply elem_of_nil in H.
    + by exists preds.
Defined.

(** ** The start of a task *)

Lemma Forall_map_intro {A B} (f : A -> B) (P : B -> Prop) (Q : A -> Prop) (l : list A) :
  Forall Q l -> (forall x, Q x -> P (f x)) -> Forall P (map f l).
Proof. intros Hl Hf. induction Hl; cbn [map]; constructor; auto. Qed.

Lemma setrow_shape (m m' : tensor2) (i : Z) (row : tensor1) (c : nat) :
  setrow m i row = Ok m' -> length row = c ->
  Forall (fun r => length r = c) m -> Forall (fun r => length r = c) m'.
Proof.
  unfold setrow. intros H Hrow Hm. apply bind_Ok in H as (j & _ & H).
  assert (Hm' : m' = <[j := row]> m) by congruence.
  rewrite Hm'. by apply Forall_insert.
Qed.

(** Whatever the loader, the tensor [_compute_predictions] returns has
    [n_train_data] rows of as many columns as the head has outputs. *)
Lemma compute_predictions_shape
    (sigmoid : f32 -> f32) (self : ICarl.t) (data_loader : Loader) (preds : tensor2) :
  length (weight (_classifier self)) = Z.to_nat (_n_classes self) ->
  _compute_predictions sigmoid self data_loader = Ok preds ->
  0 <= _n_classes self /\
  length preds = Z.to_nat (_n_train_data self) /\
  Forall (fun row => length row = Z.to_nat (_n_classes self)) preds.
Proof.
  intros Hw. unfold _compute_predictions. case_decide as Hdec; [|discriminate].
  destruct Hdec as [Hn Hc]. intros Hrun.
  apply bind_Ok in Hrun as (rows & Hrows & Hrun).
  assert (Hpreds : preds = map (map sigmoid) rows) by congruence.
  assert (Hinv : length rows = Z.to_nat (_n_train_data self) /\
                 Forall (fun r : tensor1 => length r = Z.to_nat (_n_classes self)) rows).
  { revert Hrows.
    apply (foldM_invariant
             (fun m : tensor2 =>
                length m = Z.to_nat (_n_train_data self) /\
                Forall (fun r : tensor1 => length r = Z.to_nat (_n_classes self)) m)).
    - intros m x m' _ [Hlen Hall] Hset. split.
      + apply setrow_length in Hset. by etrans.
      + eapply setrow_shape; [exact Hset| |exact Hall].
        unfold forward, linear. by rewrite length_map.
    - split; [apply length_replicate|].
      apply Forall_forall. intros r Hr. apply elem_of_replicate in Hr as [-> _].
      apply length_replicate. }
  destruct Hinv as [Hlen Hall]. split_and!; [done| |].
  - rewrite Hpreds. etrans; [apply length_map|done].
  - rewrite Hpreds. eapply Forall_map_intro; [exact Hall|].
    intros r Hr. by rewrite length_map.
Qed.

Lemma add_n_classes_weight (self self' : ICarl.t) (n : Z) (fresh : nat -> tensor1) :
  0 <= _n_classes self -> 0 <= n ->
  length (weight (_classifier self)) = Z.to_nat (_n_classes self) ->
  _add_n_classes n fresh self = Ok self' ->
  _means self' = _means self /\ _previous_preds self' = _previous_preds self /\
  _features_extractor self' = _features_extractor self /\
  bias (_classifier self') = None /\
  length (weight (_classifier self')) = Z.to_nat (_n_classes self + n) /\
  take (Z.to_nat (_n_classes self)) (weight (_classifier self')) = weight (_classifier self).
Proof.
  intros Hc Hn Hw Hrun.
  pose proof (add_n_classes_inv self self' n fresh Hrun) as (_ & _ & Hn' & Hnz & _).
  rewrite (add_n_classes_spec self n fresh (Z.to_nat (_n_classes self))) in Hrun
    by (try done; lia).
  injection Hrun as <-. cbn. split_and!; [done|done|done|done| |].
  - rewrite length_app, Hw, length_map, length_seq. lia.
  - by apply take_app_length'.
Qed.

(** X11.  At the start of a task other than the first, a [_before_task]
    that completes has stored, as the previous predictions, what
    [_compute_predictions] returns for the model before its head grows
    ([n_train_data] rows of [n_classes] columns, the number of classes
    before the growth), then has added [task_size] outputs to the head:
    the head has [n_classes + task_size] rows without bias, the first
    [n_classes] of which are the rows it had; the exemplar memory, the
    class means and the feature extractor are untouched. *)
Theorem X11_before_task_caches_predictions_then_grows_head
    (sigmoid : f32 -> f32) (self self' : ICarl.t)
    (train_loader : Loader) (val_loader : option Loader) (fresh : nat -> tensor1) :
  _task self ≠ 0 -> 0 <= _task_size self ->
  length (weight (_classifier self)) = Z.to_nat (_n_classes self) ->
  _before_task sigmoid self train_loader val_loader fresh = Ok self' ->
  _n_classes self' = _n_classes self + _task_size self /\
  _examplars self' = _examplars self /\ _means self' = _means self /\
  _features_extractor self' = _features_extractor self /\
  (exists preds,
     _compute_predictions sigmoid self train_loader = Ok preds /\
     _previous_preds self' = Some preds /\
     length preds = Z.to_nat (_n_train_data self) /\
     Forall (fun row => length row = Z.to_nat (_n_classes self)) preds) /\
  bias (_classifier self') = None /\
  length (weight (_classifier self')) = Z.to_nat (_n_classes self') /\
  take (Z.to_nat (_n_classes self)) (weight (_classifier self')) = weight (_classifier self).
Proof.
  intros Ht Hts Hw. unfold _before_task. rewrite decide_False by done. intros Hrun.
  apply bind_Ok in Hrun as (preds & Hpreds & Hrun).
  apply bind_Ok in Hrun as (self1 & H1 & Hrun).
  destruct (compute_predictions_shape sigmoid self train_loader preds Hw Hpreds)
    as (Hc & Hplen & Hpshape).
  assert (Hs1 : _n_classes self1 = _n_classes self /\ _task_size self1 = _task_size self /\
                _classifier self1 = _classifier self /\
                _features_extractor self1 = _features_extractor self /\
                _means self1 = _means self /\ _previous_preds self1 = Some preds /\
                _examplars self1 = _examplars self).
  { destruct val_loader as [l|].
    - case_decide.
      + by injection H1 as <-.
      + apply bind_Ok in H1 as (pv & _ & H1). by injection H1 as <-.
    - by injection H1 as <-. }
  destruct Hs1 as (Hn1 & Hts1 & Hc1 & Hf1 & Hm1 & Hp1 & He1).
  pose proof (add_n_classes_inv _ _ _ _ Hrun) as (He & _ & Hn' & _).
  apply add_n_classes_weight in Hrun as (Hm & Hp & Hf & Hb & Hlen & Htake);
    [|lia|lia|by rewrite Hc1, Hn1].
  split_and!.
  - lia.
  - by rewrite He.
  - by rewrite Hm.
  - by rewrite Hf.
  - exists preds. split_and!; [done|by rewrite Hp|done|done].
  - done.
  - by rewrite Hlen, Hn'.
  - rewrite Hn1, Hc1 in Htake. exact Htake.
Qed.

Lemma X11_before_task_caches_predictions_then_grows_head_witness :
  exists self',
    _before_task (fun x => x) second_task_learner second_task_loader None
                 (fun _ => [of_Z 1]) = Ok self' /\
    _n_classes self' = 6 /\
    take 4 (weight (_classifier self')) = weight (_classifier second_task_learner).
Proof.
  destruct (_before_task (fun x => x) second_task_learner second_task_loader None
                         (fun _ => [of_Z 1])) as [self'|] eqn:Hrun;
    [|vm_compute in Hrun; discriminate].
  destruct (X11_before_task_caches_predictions_then_grows_head
              (fun x => x) second_task_learner self'
              second_task_loader None (fun _ => [of_Z 1]))
    as (Hn & _ & _ & _ & _ & _ & _ & Htake).
  - discriminate.
  - by vm_compute.
  - reflexivity.
  - exact Hrun.
  - exists self'. split_and!; [reflexivity|exact Hn|exact Htake].
Defined.

(** ** What training sends to the optimizer *)

Lemma count_event_app (e : event) (l1 l2 : list event) :
  count_event e (l1 ++ l2) = (count_event e l1 + count_event e l2)%nat.
Proof. unfold count_event. by rewrite filter_app, length_app. Qed.

Lemma count_event_nil (e : event) : count_event e [] = 0%nat.
Proof. reflexivity. Qed.

Lemma count_event_cons (e x : event) (l : list event) :
  count_event e (x :: l) =
    if decide (x = e) then S (count_event e l) else count_event e l.
Proof. unfold count_event. rewrite filter_cons. by case_decide. Qed.

Ltac count_events :=
  repeat first [rewrite count_event_app | rewrite count_event_cons
               | rewrite count_event_nil];
  repeat case_decide; try discriminate; try congruence; try lia.

Lemma loss_guard_cases (clf_loss distil_loss : f32) :
  loss_guard clf_loss distil_loss = [] \/ loss_guard clf_loss distil_loss = [PdbSetTrace].
Proof. unfold loss_guard. destruct (_ || _); auto. Qed.

Section Counts.

Variable backward_and_step : ICarl.t -> batch -> f32 -> (tensor1 -> tensor1) * tensor2.

Lemma train_batch_count (acc acc' : ICarl.t * list event) (b : batch) :
  train_batch backward_and_step acc b = Ok acc' ->
  count_event SchedulerStep acc'.2 = count_event SchedulerStep acc.2 /\
  count_event OptimizerStep acc'.2 = S (count_event OptimizerStep acc.2) /\
  count_event ZeroGrad acc'.2 = S (count_event ZeroGrad acc.2) /\
  (count_event PdbSetTrace acc'.2 <= S (count_event PdbSetTrace acc.2))%nat.
Proof.
  destruct acc as [self trace]. unfold train_batch. intros H.
  apply bind_Ok in H as (targets & _ & H).
  apply bind_Ok in H as ([clf distil] & _ & H).
  unfold guard_and_step in H.
  destruct (backward_and_step self b (add clf distil)) as [embed' weight'].
  injection H as <-. cbn [snd].
  destruct (loss_guard_cases clf distil) as [-> | ->]; split_and!; count_events.
Qed.

Lemma train_batches_count (bs : list batch) :
  forall acc acc' : ICarl.t * list event,
    foldM (train_batch backward_and_step) bs acc = Ok acc' ->
    count_event SchedulerStep acc'.2 = count_event SchedulerStep acc.2 /\
    count_event OptimizerStep acc'.2 = (count_event OptimizerStep acc.2 + length bs)%nat /\
    count_event ZeroGrad acc'.2 = (count_event ZeroGrad acc.2 + length bs)%nat /\
    (count_event PdbSetTrace acc'.2 <= count_event PdbSetTrace acc.2 + length bs)%nat.
Proof.
  induction bs as [|b bs IH]; intros acc acc' H.
  - injection H as <-. cbn. lia.
  - cbn [foldM] in H. apply bind_Ok in H as (acc1 & H1 & H).
    apply train_batch_count in H1. apply IH in H. cbn [length]. lia.
Qed.

Lemma val_batches_count (self : ICarl.t) (bs : list batch) :
  forall trace trace' : list event,
    foldM (val_batch self) bs trace = Ok trace' ->
    count_event SchedulerStep trace' = count_event SchedulerStep trace /\
    count_event OptimizerStep trace' = count_event OptimizerStep trace /\
    count_event ZeroGrad trace' = (count_event ZeroGrad trace + length bs)%nat /\
    (count_event PdbSetTrace trace' <= count_event PdbSetTrace trace + length bs)%nat.
Proof.
  induction bs as [|b bs IH]; intros trace trace' H.
  - injection H as <-. cbn. lia.
  - cbn [foldM] in H. apply bind_Ok in H as (trace1 & H1 & H).
    apply IH in H. cbn [length].
    unfold val_batch in H1.
    apply bind_Ok in H1 as (targets & _ & H1).
    apply bind_Ok in H1 as ([clf distil] & _ & H1).
    injection H1 as <-. destruct H as (Hs & Ho & Hz & Hp).
    destruct (loss_guard_cases clf distil) as [Hg | Hg]; rewrite Hg in Hs, Ho, Hz, Hp;
      revert Hs Ho Hz Hp; count_events.
Qed.

Lemma train_epoch_count (train_loader : Loader) (val_loader : option Loader)
    (acc acc' : ICarl.t * list event) (epoch : nat) :
  train_epoch backward_and_step train_loader val_loader acc epoch = Ok acc' ->
  let per_epoch := (length (batches train_loader) +
                    from_option (fun l => length (batches l)) 0 val_loader)%nat in
  count_event SchedulerStep acc'.2 = S (count_event SchedulerStep acc.2) /\
  count_event OptimizerStep acc'.2 =
    (count_event OptimizerStep acc.2 + length (batches train_loader))%nat /\
  count_event ZeroGrad acc'.2 = (count_event ZeroGrad acc.2 + per_epoch)%nat /\
  (count_event PdbSetTrace acc'.2 <= count_event PdbSetTrace acc.2 + per_epoch)%nat.
Proof.
  destruct acc as [self trace]. unfold train_epoch. intros H.
  apply bind_Ok in H as (acc1 & H1 & H).
  apply bind_Ok in H as (acc2 & H2 & H).
  case_decide; [discriminate|]. injection H as <-.
  apply train_batches_count in H1. cbn [snd] in H1. destruct H1 as (Hs & Ho & Hz & Hp).
  revert Hs Ho Hz Hp. count_events. intros Hs Ho Hz Hp. cbn [snd].
  destruct val_loader as [l|]; cbn [from_option].
  - apply bind_Ok in H2 as (trace2 & H2 & Hacc). injection Hacc as <-.
    apply val_batches_count in H2. cbn [snd]. lia.
  - injection H2 as <-. lia.
Qed.

Lemma train_epochs_count (train_loader : Loader) (val_loader : option Loader)
    (epochs : list nat) :
  forall acc acc' : ICarl.t * list event,
    foldM (train_epoch backward_and_step train_loader val_loader) epochs acc = Ok acc' ->
    let per_epoch := (length (batches train_loader) +
                      from_option (fun l => length (batches l)) 0 val_loader)%nat in
    count_event SchedulerStep acc'.2 = (count_event SchedulerStep acc.2 + length epochs)%nat /\
    count_event OptimizerStep acc'.2 =
      (count_event OptimizerStep acc.2 + length epochs * length (batches train_loader))%nat /\
    count_event ZeroGrad acc'.2 =
      (count_event ZeroGrad acc.2 + length epochs * per_epoch)%nat /\
    (count_event PdbSetTrace acc'.2 <=
       count_event PdbSetTrace acc.2 + length epochs * per_epoch)%nat.
Proof.
  induction epochs as [|ep epochs IH]; intros acc acc' H per_epoch.
  - injection H as <-. cbn. lia.
  - cbn [foldM] in H. apply bind_Ok in H as (acc1 & H1 & H).
    apply train_epoch_count in H1. apply IH in H. cbn [length]. fold per_epoch in H1, H.
    cbv zeta in H1, H. lia.
Qed.

End Counts.

(** X12.  A [_train_task] that completes has stepped the scheduler once
    per epoch and the optimizer once per mini-batch of every epoch;
    validation batches add calls of [zero_grad] but no optimizer step,
    and the debugger is entered at most once per batch. *)
Theorem X12_train_task_steps_once_per_batch
    (backward_and_step : ICarl.t -> batch -> f32 -> (tensor1 -> tensor1) * tensor2)
    (self self' : ICarl.t) (train_loader : Loader) (val_loader : option Loader)
    (trace : list event) :
  _train_task backward_and_step self train_loader val_loader = Ok (self', trace) ->
  let epochs := Z.to_nat (_n_epochs self) in
  let per_epoch := (length (batches train_loader) +
                    from_option (fun l => length (batches l)) 0 val_loader)%nat in
  count_event SchedulerStep trace = epochs /\
  count_event OptimizerStep trace = (epochs * length (batches train_loader))%nat /\
  count_event ZeroGrad trace = (epochs * per_epoch)%nat /\
  (count_event PdbSetTrace trace <= count_event ZeroGrad trace)%nat.
Proof.
  intros H epochs per_epoch. unfold _train_task in H.
  apply train_epochs_count in H. cbn [snd] in H. cbv zeta in H.
  rewrite length_seq in H. fold epochs per_epoch in H. cbn in H. lia.
Qed.

Lemma X12_train_task_steps_once_per_batch_witness :
  exists self' trace,
    _train_task no_update nan_loss_learner two_batch_loader None = Ok (self', trace) /\
    count_event OptimizerStep trace = 2%nat.
Proof.
  destruct (_train_task no_update nan_loss_learner two_batch_loader None)
    as [[self' trace]|] eqn:Hrun; [|vm_compute in Hrun; discriminate].
  destruct (X12_train_task_steps_once_per_batch no_update nan_loss_learner self'
              two_batch_loader None trace Hrun) as (_ & Hopt & _).
  exists self', trace. split; [reflexivity|exact Hopt].
Defined.

(** X13.  With at least one epoch and a training loader that yields no
    batch, [_train_task] never returns: the averages shown at the end of
    the first epoch divide by the number of samples seen, which is
    zero.  Without a validation loader the error is
    [ZeroDivisionError]. *)
Theorem X13_train_task_without_batches_raises
    (backward_and_step : ICarl.t -> batch -> f32 -> (tensor1 -> tensor1) * tensor2)
    (self : ICarl.t) (train_loader : Loader) (val_loader : option Loader) :
  0 < _n_epochs self -> batches train_loader = [] ->
  (forall r, _train_task backward_and_step self train_loader val_loader ≠ Ok r) /\
  _train_task backward_and_step self train_loader None = Raise ZeroDivisionError.
Proof.
  intros Hn Hb. unfold _train_task.
  destruct (Z.to_nat (_n_epochs self)) as [|k] eqn:Hk; [lia|].
  cbn [seq foldM]. split.
  - intros r H. apply bind_Ok in H as (acc & H & _).
    unfold train_epoch in H.
    apply bind_Ok in H as (acc1 & _ & H). apply bind_Ok in H as (acc2 & _ & H).
    rewrite Hb in H. cbn [concat] in H. by rewrite decide_True in H.
  - unfold train_epoch. rewrite Hb. cbn [foldM concat].
    change (Ok (self, [] ++ [SchedulerStep]) ≫= _) with
      (if decide (@nil sample = []) then Raise ZeroDivisionError
       else Ok (self, [] ++ [SchedulerStep])).
    by rewrite decide_True.
Qed.

Lemma X13_train_task_without_batches_raises_witness :
  _train_task no_update nan_loss_learner first_task_loader None = Raise ZeroDivisionError.
Proof.
  apply (X13_train_task_without_batches_raises no_update nan_loss_learner
           first_task_loader None); reflexivity.
Defined.

(** ** Removing a row *)

Lemma remove_slices_delete {A} (l : list A) (r : Z) :
  0 <= r < Z.of_nat (length l) \/ - Z.of_nat (length l) <= r <= -2 ->
  slice_to l r ++ slice_from l (r + 1) = delete (Z.to_nat (r `mod` Z.of_nat (length l))) l.
Proof.
  intros H. rewrite delete_take_drop. unfold slice_to, slice_from.
  destruct H as [H|H].
  - rewrite !decide_True by lia. rewrite Z.mod_small by lia. do 2 f_equal. lia.
  - rewrite !decide_False by lia.
    replace (r `mod` Z.of_nat (length l)) with (Z.of_nat (length l) + r).
    + do 2 f_equal. lia.
    + symmetry. rewrite <- (Z.mod_unique_pos r (Z.of_nat (length l)) (-1)
                              (Z.of_nat (length l) + r)); [done|lia|lia].
Qed.

Lemma remove_slices_outside {A} (l : list A) (r : Z) :
  Z.of_nat (length l) <= r \/ r < - Z.of_nat (length l) ->
  slice_to l r ++ slice_from l (r + 1) = l.
Proof.
  intros H. unfold slice_to, slice_from. destruct H as [H|H].
  - rewrite !decide_True by lia.
    rewrite take_ge, drop_ge by lia. apply app_nil_r.
  - rewrite (decide_False (P := 0 <= r)) by lia.
    replace (Z.to_nat (Z.of_nat (length l) + r)) with 0%nat by lia.
    destruct (decide (0 <= r + 1)).
    + by replace (Z.to_nat (r + 1)) with 0%nat by lia.
    + by replace (Z.to_nat (Z.of_nat (length l) + (r + 1))) with 0%nat by lia.
Qed.

Lemma remove_slices_minus_one {A} (l : list A) :
  slice_to l (-1) ++ slice_from l (-1 + 1) = take (length l - 1) l ++ l.
Proof.
  unfold slice_to, slice_from. rewrite decide_False by lia.
  rewrite decide_True by lia. cbn [Z.add Z.to_nat drop]. do 2 f_equal. lia.
Qed.

(** X14.  [_remove_row] with an index that designates a row, counted
    from the start ([0 <= row_idx < n]) or from the end
    ([-n <= row_idx <= -2]), removes that row and the identifier at the
    same position, and nothing else. *)
Theorem X14_remove_row_removes_row_and_identifier
    (matrix : tensor2) (idxes : list Z) (row_idx : Z) :
  length idxes = length matrix ->
  0 <= row_idx < Z.of_nat (length matrix) \/
  - Z.of_nat (length matrix) <= row_idx <= -2 ->
  let i := Z.to_nat (row_idx `mod` Z.of_nat (length matrix)) in
  _remove_row matrix idxes row_idx = (delete i matrix, delete i idxes) /\
  length (delete i matrix) = (length matrix - 1)%nat /\
  length (delete i idxes) = (length matrix - 1)%nat.
Proof.
  intros Hlen H i. unfold _remove_row.
  assert (Hi : (i < length matrix)%nat).
  { unfold i. pose proof (Z.mod_pos_bound row_idx (Z.of_nat (length matrix))). lia. }
  split_and!.
  - f_equal.
    + by apply remove_slices_delete.
    + unfold i. rewrite <- Hlen. apply remove_slices_delete. by rewrite Hlen.
  - pose proof (length_delete matrix i) as Hd.
    destruct (lookup_lt_is_Some_2 matrix i Hi) as [row Hrow].
    rewrite Hrow in Hd. cbn in Hd. by apply Hd.
  - pose proof (length_delete idxes i) as Hd.
    destruct (lookup_lt_is_Some_2 idxes i) as [id Hid]; [by rewrite Hlen|].
    rewrite Hid in Hd. cbn in Hd. rewrite <- Hlen. by apply Hd.
Qed.

Lemma X14_remove_row_removes_row_and_identifier_witness :
  _remove_row [[of_Z 1]; [of_Z 2]; [of_Z 3]] [10; 11; 12] 1 =
    ([[of_Z 1]; [of_Z 3]], [10; 12]) /\
  _remove_row [[of_Z 1]; [of_Z 2]; [of_Z 3]] [10; 11; 12] (-2) =
    ([[of_Z 1]; [of_Z 3]], [10; 12]).
Proof.
  split.
  - apply (X14_remove_row_removes_row_and_identifier
             [[of_Z 1]; [of_Z 2]; [of_Z 3]] [10; 11; 12] 1); [reflexivity|].
    left. cbn. lia.
  - apply (X14_remove_row_removes_row_and_identifier
             [[of_Z 1]; [of_Z 2]; [of_Z 3]] [10; 11; 12] (-2)); [reflexivity|].
    right. cbn. lia.
Defined.

(** X15.  [_remove_row] outside these indexes removes nothing: an index
    at or beyond the number of rows, or below its opposite, returns the
    matrix and the identifiers as they are; the index [-1] does not
    remove the last row but returns every row before the last followed
    by the whole matrix, [2 n - 1] rows for a matrix of [n] rows. *)
Theorem X15_remove_row_removes_nothing_elsewhere
    (matrix : tensor2) (idxes : list Z) (row_idx : Z) :
  (Z.of_nat (length matrix) <= row_idx \/ row_idx < - Z.of_nat (length matrix) ->
   (_remove_row matrix idxes row_idx).1 = matrix) /\
  (Z.of_nat (length idxes) <= row_idx \/ row_idx < - Z.of_nat (length idxes) ->
   (_remove_row matrix idxes row_idx).2 = idxes) /\
  (_remove_row matrix idxes (-1)).1 = take (length matrix - 1) matrix ++ matrix /\
  (_remove_row matrix idxes (-1)).2 = take (length idxes - 1) idxes ++ idxes /\
  (matrix ≠ [] ->
   length (_remove_row matrix idxes (-1)).1 = (2 * length matrix - 1)%nat).
Proof.
  unfold _remove_row. cbn [fst snd]. split_and!.
  - apply remove_slices_outside.
  - apply remove_slices_outside.
  - apply remove_slices_minus_one.
  - apply remove_slices_minus_one.
  - intros Hne.
    assert (Hm : slice_to matrix (-1) ++ slice_from matrix (-1 + 1) =
                 take (length matrix - 1) matrix ++ matrix)
      by apply remove_slices_minus_one.
    rewrite Hm, length_app, length_take. destruct matrix; [done|]. cbn [length]. lia.
Qed.

(** ** Selecting positions of an array *)

Lemma zip_seq_elem {A} (l : list A) :
  forall (k i : nat) (y : A),
    (i, y) ∈ zip (seq k (length l)) l <-> (k <= i)%nat /\ l !! (i - k)%nat = Some y.
Proof.
  induction l as [|x l IH]; intros k i y.
  - split.
    + intros H. by apply elem_of_nil in H.
    + intros [_ H]. by rewrite lookup_nil in H.
  - cbn [length seq zip zip_with]. rewrite elem_of_cons.
    change (zip_with pair (seq (S k) (length l)) l) with (zip (seq (S k) (length l)) l).
    rewrite IH. split.
    + intros [Heq|[Hk Hl]].
      * injection Heq as -> ->. split; [lia|]. by rewrite Nat.sub_diag.
      * split; [lia|]. by replace (i - k)%nat with (S (i - S k)) by lia.
    + intros [Hk Hl]. destruct (decide (i = k)) as [->|Hne].
      * left. rewrite Nat.sub_diag in Hl. cbn in Hl. congruence.
      * right. split; [lia|]. by replace (i - k)%nat with (S (i - S k)) in Hl by lia.
Qed.

(** The positions [np.where] returns: those holding a value that
    satisfies the test. *)
Lemma positions_elem {A} (P : A -> Prop) `{!forall y, Decision (P y)} (l : list A) (i : nat) :
  i ∈ (filter (fun p : nat * A => P p.2) (zip (seq 0 (length l)) l)).*1 <->
  exists y, l !! i = Some y /\ P y.
Proof.
  rewrite list_elem_of_fmap. split.
  - intros ([j y] & -> & Hin). apply list_elem_of_filter in Hin as [HP Hin].
    apply zip_seq_elem in Hin as [_ Hl]. rewrite Nat.sub_0_r in Hl. by exists y.
  - intros (y & Hl & HP). exists (i, y). split; [done|].
    apply list_elem_of_filter. split; [done|].
    apply zip_seq_elem. split; [lia|by rewrite Nat.sub_0_r].
Qed.

Lemma take_idxes_cons {A} (a : list A) (i : nat) (idxes : list nat) :
  utils.take_idxes a (i :: idxes) =
    y ← list_getitem a i; k ← utils.take_idxes a idxes; Ok (y :: k).
Proof. reflexivity. Qed.

Lemma take_idxes_positions {A B} (P : B -> Prop) `{!forall y, Decision (P y)}
    (targets : list B) :
  forall (a pre : list A),
    (length targets <= length a)%nat ->
    utils.take_idxes (pre ++ a)
      (filter (fun p : nat * B => P p.2) (zip (seq (length pre) (length targets)) targets)).*1
    = Ok (filter (fun p : A * B => P p.2) (zip a targets)).*1.
Proof.
  induction targets as [|t targets IH]; intros a pre Hlen.
  - destruct a; reflexivity.
  - destruct a as [|x a]; [cbn in Hlen; lia|]. cbn [length] in Hlen.
    cbn [length seq zip zip_with].
    change (zip_with pair (seq (S (length pre)) (length targets)) targets)
      with (zip (seq (S (length pre)) (length targets)) targets).
    change (zip_with pair a targets) with (zip a targets).
    rewrite !filter_cons. cbn [snd].
    assert (Hrest :
      utils.take_idxes (pre ++ x :: a)
        (filter (fun p : nat * B => P p.2)
                (zip (seq (S (length pre)) (length targets)) targets)).*1
      = Ok (filter (fun p : A * B => P p.2) (zip a targets)).*1).
    { specialize (IH a (pre ++ [x])). rewrite length_app, Nat.add_1_r in IH.
      rewrite <- app_assoc in IH. apply IH. lia. }
    destruct (decide (P t)).
    + rewrite !fmap_cons. cbn [fst]. rewrite take_idxes_cons.
      unfold list_getitem at 1. rewrite list_lookup_middle by done.
      rewrite Hrest. reflexivity.
    + exact Hrest.
Qed.

Lemma take_idxes_where {A B} (P : B -> Prop) `{!forall y, Decision (P y)}
    (targets : list B) (a : list A) :
  (length targets <= length a)%nat ->
  utils.take_idxes a
    (filter (fun p : nat * B => P p.2) (zip (seq 0 (length targets)) targets)).*1
  = Ok (filter (fun p : A * B => P p.2) (zip a targets)).*1.
Proof. exact (take_idxes_positions P targets a []). Qed.

Lemma filter_zip_length {A B} (P : B -> Prop) `{!forall y, Decision (P y)}
    (targets : list B) :
  forall a : list A,
    (length targets <= length a)%nat ->
    length (filter (fun p : A * B => P p.2) (zip a targets)) = length (filter P targets).
Proof.
  induction targets as [|t targets IH]; intros a Hlen.
  - by destruct a.
  - destruct a as [|x a]; [cbn in Hlen; lia|]. cbn [length] in Hlen.
    cbn [zip zip_with]. change (zip_with pair a targets) with (zip a targets).
    rewrite !filter_cons. cbn [snd].
    destruct (decide (P t)); cbn [length]; rewrite IH by lia; reflexivity.
Qed.

Lemma take_idxes_constant {A} (a : list A) (c : A) (idxes : list nat) :
  (forall i, i ∈ idxes -> a !! i = Some c) ->
  utils.take_idxes a idxes = Ok (replicate (length idxes) c).
Proof.
  induction idxes as [|i idxes IH]; intros H; [reflexivity|].
  rewrite take_idxes_cons. unfold list_getitem at 1.
  rewrite (H i) by by left. rewrite IH by (intros j Hj; apply H; by right).
  reflexivity.
Qed.

(** X16.  [select_class_samples] on samples that are at least as many
    as the targets: the samples it returns are, in their order, those
    standing at a position where the target is the selected class, and
    the targets it returns are as many copies of that class.  When a
    position holding the selected class is beyond the samples, it
    raises [IndexError]. *)
Theorem X16_select_class_samples_keeps_the_class
    {A} (samples : list A) (targets : list Z) (selected_class : Z) :
  ((length targets <= length samples)%nat ->
   exists s,
     utils.select_class_samples samples targets selected_class =
       Ok (s, replicate (length s) selected_class) /\
     s = (filter (fun p : A * Z => p.2 = selected_class) (zip samples targets)).*1) /\
  ((exists i, targets !! i = Some selected_class /\ (length samples <= i)%nat) ->
   utils.select_class_samples samples targets selected_class = Raise IndexError).
Proof.
  unfold utils.select_class_samples. cbv zeta. split.
  - intros Hlen.
    exists (filter (fun p : A * Z => p.2 = selected_class) (zip samples targets)).*1.
    split; [|reflexivity].
    pose proof (take_idxes_where (fun t => t = selected_class) targets samples Hlen) as Hs.
    cbv beta in Hs. rewrite Hs.
    rewrite (take_idxes_constant targets selected_class).
    + cbn. do 3 f_equal. rewrite !length_fmap.
      pose proof (filter_zip_length (fun t => t = selected_class) targets samples Hlen) as H1.
      pose proof (filter_zip_length (fun t => t = selected_class) targets
                    (seq 0 (length targets))) as H2.
      cbv beta in H1, H2. rewrite H1, H2; [done|by rewrite length_seq].
    + intros i Hi.
      pose proof (positions_elem (fun t => t = selected_class) targets i) as Hpos.
      cbv beta in Hpos. apply Hpos in Hi as (y & Hy & ->). exact Hy.
  - intros (i & Hi & Hge).
    assert (Hraise :
      utils.take_idxes samples
        (filter (fun p : nat * Z => p.2 = selected_class)
                (zip (seq 0 (length targets)) targets)).*1 = Raise IndexError);
      [|by rewrite Hraise].
    apply mapM_result_total.
    + intros j e. unfold list_getitem. destruct (samples !! j); [discriminate|].
      by intros [= <-].
    + intros Hall. rewrite Forall_forall in Hall. destruct (Hall i) as [y Hy].
      * pose proof (positions_elem (fun t => t = selected_class) targets i) as Hpos.
        cbv beta in Hpos. apply Hpos. by exists selected_class.
      * unfold list_getitem in Hy. by rewrite lookup_ge_None_2 in Hy.
Qed.

(** ** The groups of [compute_accuracy] *)

Lemma np_max_spec (a : list Z) :
  a ≠ [] ->
  exists the_max, utils.np_max a = Ok the_max /\ the_max ∈ a /\
                  forall y, y ∈ a -> y <= the_max.
Proof.
  destruct a as [|x a]; [done|]. intros _. exists (foldr Z.max x a).
  split; [reflexivity|]. induction a as [|z a [Hin Hle]].
  - cbn. split; [by left|]. intros y Hy. apply list_elem_of_singleton in Hy. lia.
  - cbn [foldr]. split.
    + destruct (Z.max_spec z (foldr Z.max x a)) as [[_ ->]|[_ ->]].
      * rewrite !elem_of_cons. rewrite elem_of_cons in Hin. tauto.
      * rewrite !elem_of_cons. tauto.
    + intros y Hy. rewrite !elem_of_cons in Hy.
      assert (Hy' : y = z \/ y ∈ x :: a) by (rewrite elem_of_cons; tauto).
      destruct Hy' as [->|Hy']; [lia|]. pose proof (Hle y Hy'). lia.
Qed.

Lemma group_idxes_elem (ytrue : list Z) (class_id task_size : Z) (i : nat) :
  i ∈ utils.group_idxes ytrue class_id task_size <->
  exists y, ytrue !! i = Some y /\ class_id <= y < class_id + task_size.
Proof.
  unfold utils.group_idxes.
  pose proof (positions_elem (fun y => class_id <= y < class_id + task_size) ytrue i) as H.
  cbv beta in H. exact H.
Qed.

Lemma accuracy_groups_elem (ytrue : list Z) (task_size the_max : Z) :
  0 < task_size -> utils.np_max ytrue = Ok the_max ->
  exists groups,
    utils.accuracy_groups ytrue task_size = Ok groups /\
    forall g, g ∈ groups <->
      exists j, 0 <= j /\ j * task_size < the_max /\
                g = (j * task_size, utils.group_idxes ytrue (j * task_size) task_size).
Proof.
  intros Hts Hmax. unfold utils.accuracy_groups. rewrite Hmax. cbn.
  unfold range_step. rewrite decide_False by lia. rewrite decide_True by lia. cbn.
  eexists. split; [reflexivity|]. intros g.
  rewrite list_elem_of_In, in_map_iff. split.
  - intros (c & <- & Hc). apply in_map_iff in Hc as (j & <- & Hj).
    apply list_elem_of_In, elem_of_seqZ in Hj.
    exists j. split_and!; [lia| |done].
    assert (j + 1 <= (the_max - 0 + task_size - 1) / task_size) as Hle by lia.
    apply (Z.mul_le_mono_nonneg_r _ _ task_size) in Hle; [|lia].
    pose proof (Z.mul_div_le (the_max - 0 + task_size - 1) task_size Hts). lia.
  - intros (j & Hj & Hlt & ->). exists (j * task_size). split; [done|].
    apply in_map_iff. exists j. split; [lia|].
    apply list_elem_of_In, elem_of_seqZ. split; [lia|].
    apply Z.div_le_lower_bound with (b := task_size) (q := j + 1) (a := the_max - 0 + task_size - 1) in Hts as Hq; lia.
Qed.

(** X17.  The per-group accuracies of [compute_accuracy], for a positive
    [task_size] and labels that are not negative: the groups start at
    the multiples of [task_size] below the largest label; a sample
    counts in exactly one group, the one of its label, unless its label
    is the largest one and that is a multiple of [task_size]: such a
    sample counts in no group. *)
Theorem X17_accuracy_groups_leave_out_top_class (ytrue : list Z) (task_size : Z) :
  0 < task_size -> ytrue ≠ [] -> Forall (fun y => 0 <= y) ytrue ->
  exists the_max groups,
    utils.np_max ytrue = Ok the_max /\
    utils.accuracy_groups ytrue task_size = Ok groups /\
    (forall g, g ∈ groups ->
       0 <= g.1 < the_max /\ g.1 `mod` task_size = 0 /\
       g.2 = utils.group_idxes ytrue g.1 task_size) /\
    forall i y, ytrue !! i = Some y ->
      (y = the_max /\ the_max `mod` task_size = 0 ->
       forall g, g ∈ groups -> i ∉ g.2) /\
      (y < the_max \/ the_max `mod` task_size ≠ 0 ->
       exists g, g ∈ groups /\ g.1 = task_size * (y / task_size) /\ i ∈ g.2 /\
                 forall g', g' ∈ groups -> i ∈ g'.2 -> g' = g).
Proof.
  intros Hts Hne Hpos.
  destruct (np_max_spec ytrue Hne) as (the_max & Hmax & Hin & Hle).
  destruct (accuracy_groups_elem ytrue task_size the_max Hts Hmax) as (groups & Hrun & Hg).
  exists the_max, groups. split_and!; [done|done| |].
  - intros g Hgin. apply Hg in Hgin as (j & Hj & Hlt & ->). cbn.
    split_and!; [lia|lia| |done]. apply Z.mod_mul. lia.
  - intros i y Hy.
    assert (Hy0 : 0 <= y).
    { rewrite Forall_forall in Hpos. apply Hpos. by eapply list_elem_of_lookup_2. }
    assert (Hym : y <= the_max) by (apply Hle; by eapply list_elem_of_lookup_2).
    split.
    + intros [-> Hmod] g Hgin Hi. apply Hg in Hgin as (j & Hj & Hlt & ->). cbn in Hi.
      apply group_idxes_elem in Hi as (y' & Hy' & Hrange).
      assert (y' = the_max) by congruence. subst y'.
      apply Z.mod_divide in Hmod; [|lia]. destruct Hmod as [k Hk].
      assert (j < k) by nia. assert ((j + 1) * task_size <= k * task_size) by nia. lia.
    + intros Hcase.
      pose proof (Z.div_mod y task_size ltac:(lia)) as Hdm.
      pose proof (Z.mod_pos_bound y task_size Hts) as Hmb.
      assert (Hq : 0 <= y / task_size) by (apply Z.div_pos; lia).
      assert (Hlt : y / task_size * task_size < the_max).
      { destruct Hcase as [Hlt|Hmod]; [lia|].
        destruct (decide (y = the_max)) as [->|]; lia. }
      exists (y / task_size * task_size,
              utils.group_idxes ytrue (y / task_size * task_size) task_size).
      split_and!.
      * apply Hg. by exists (y / task_size).
      * cbn. lia.
      * cbn. apply group_idxes_elem. exists y. split; [done|lia].
      * intros g' Hg' Hi'. apply Hg in Hg' as (j & Hj & Hjlt & ->). cbn in Hi'.
        apply group_idxes_elem in Hi' as (y' & Hy' & Hrange).
        assert (y' = y) by congruence. subst y'.
        assert (j = y / task_size) by nia. by subst j.
Qed.

Lemma X17_accuracy_groups_leave_out_top_class_witness :
  exists groups,
    utils.accuracy_groups [0; 3; 7; 10] 5 = Ok groups /\
    forall g, g ∈ groups -> 3%nat ∉ g.2.
Proof.
  destruct (X17_accuracy_groups_leave_out_top_class [0; 3; 7; 10] 5)
    as (the_max & groups & Hmax & Hrun & _ & Hcover).
  - lia.
  - discriminate.
  - repeat constructor; lia.
  - exists groups. split; [exact Hrun|].
    apply (Hcover 3%nat 10); [reflexivity|].
    injection Hmax as <-. split; reflexivity.
Defined.

Lemma string_app_In (a b : string) (c : ascii) :
  In c (String.list_ascii_of_string (a +:+ b)) <->
  In c (String.list_ascii_of_string a) \/ In c (String.list_ascii_of_string b).
Proof.
  induction a as [|x a IH].
  - cbn. tauto.
  - change (In c (x :: String.list_ascii_of_string (a +:+ b)) <->
            In c (x :: String.list_ascii_of_string a) \/
            In c (String.list_ascii_of_string b)).
    cbn [In]. rewrite IH. tauto.
Qed.

(** No group is filed under the key ["total"]. *)
Lemma group_label_not_total (class_id task_size : Z) :
  utils.group_label class_id task_size ≠ "total".
Proof.
  intros Heq.
  assert (Hin : In "-"%char (String.list_ascii_of_string (utils.group_label class_id task_size))).
  { unfold utils.group_label. rewrite !string_app_In. right. left. cbn. by left. }
  rewrite Heq in Hin. cbn in Hin. intuition discriminate.
Qed.

Lemma take_idxes_Ok {A} (a : list A) (idxes : list nat) :
  (forall i, i ∈ idxes -> (i < length a)%nat) ->
  exists r, utils.take_idxes a idxes = Ok r.
Proof.
  intros H. destruct (mapM_result_Ok (list_getitem a) idxes) as (r & Hr & _).
  - intros i Hi. unfold list_getitem.
    destruct (lookup_lt_is_Some_2 a i (H i Hi)) as [y ->]. by exists y.
  - by exists r.
Qed.

Lemma accuracy_groups_Ok (ytrue : list Z) (task_size : Z) :
  ytrue ≠ [] -> task_size ≠ 0 ->
  exists groups,
    utils.accuracy_groups ytrue task_size = Ok groups /\
    forall g i, g ∈ groups -> i ∈ g.2 -> (i < length ytrue)%nat.
Proof.
  intros Hne Hts. destruct (np_max_spec ytrue Hne) as (the_max & Hmax & _).
  unfold utils.accuracy_groups. rewrite Hmax. cbn.
  assert (Hrange : exists class_ids, range_step 0 the_max task_size = Ok class_ids).
  { unfold range_step. rewrite decide_False by done. case_decide; by eexists. }
  destruct Hrange as [class_ids ->]. cbn. eexists. split; [reflexivity|].
  intros g i Hg Hi. apply list_elem_of_In, in_map_iff in Hg as (c & <- & _). cbn in Hi.
  apply group_idxes_elem in Hi as (y & Hy & _). by eapply lookup_lt_Some.
Qed.

Section AccuracyResult.

Variable round3 : Float64.f64 -> Float64.f64.

Lemma accuracy_loop (ypred ytrue : list Z) (task_size : Z) (groups : list (Z * list nat)) :
  length ypred = length ytrue ->
  (forall g i, g ∈ groups -> i ∈ g.2 -> (i < length ytrue)%nat) ->
  forall all_acc0 : gmap string Float64.f64,
  exists all_acc,
    foldM (fun (all_acc : gmap string Float64.f64) (g : Z * list nat) =>
             p ← utils.take_idxes ypred g.2;
             t ← utils.take_idxes ytrue g.2;
             Ok (<[utils.group_label g.1 task_size :=
                     utils.rounded_ratio round3 (utils.count_equal p t)
                                         (Z.of_nat (length g.2))]> all_acc))
          groups all_acc0 = Ok all_acc /\
    all_acc !! "total" = all_acc0 !! "total" /\
    forall key, is_Some (all_acc !! key) <->
      is_Some (all_acc0 !! key) \/
      exists g, g ∈ groups /\ key = utils.group_label g.1 task_size.
Proof.
  intros Hlen. induction groups as [|g groups IH]; intros Hin all_acc0.
  - exists all_acc0. split_and!; [done|done|]. intros key. split; [by left|].
    intros [H|(g & Hg & _)]; [done|by apply elem_of_nil in Hg].
  - destruct (take_idxes_Ok ypred g.2) as [p Hp].
    { intros i Hi. rewrite Hlen. apply (Hin g i); [by left|done]. }
    destruct (take_idxes_Ok ytrue g.2) as [t Ht].
    { intros i Hi. apply (Hin g i); [by left|done]. }
    assert (Hin' : forall g' i, g' ∈ groups -> i ∈ g'.2 -> (i < length ytrue)%nat).
    { intros g' i Hg'. apply Hin. by right. }
    destruct (IH Hin'
                 (<[utils.group_label g.1 task_size :=
                      utils.rounded_ratio round3 (utils.count_equal p t)
                                          (Z.of_nat (length g.2))]> all_acc0))
      as (all_acc & Hrun & Htotal & Hkeys).
    exists all_acc. split_and!.
    + cbn [foldM]. rewrite Hp. cbn. rewrite Ht. cbn. exact Hrun.
    + rewrite Htotal. apply lookup_insert_ne. apply group_label_not_total.
    + intros key. rewrite Hkeys, lookup_insert_is_Some. split.
      * intros [[<-|[_ H]]|(g' & Hg' & ->)].
        -- right. exists g. split; [by left|done].
        -- by left.
        -- right. exists g'. split; [by right|done].
      * intros [H|(g' & Hg' & ->)].
        -- destruct (decide (utils.group_label g.1 task_size = key)); left; [by left|].
           right. done.
        -- apply elem_of_cons in Hg' as [->|Hg']; [left; by left|].
           right. by exists g'.
Qed.

End AccuracyResult.

(** X18.  [compute_accuracy] on two arrays of one length: an empty
    array of labels and a [task_size] of zero are refused with a
    [ValueError]; otherwise the result holds the overall accuracy under
    ["total"], which no group overwrites, and besides it exactly one
    entry per group of classes. *)
Theorem X18_compute_accuracy_entries
    (round3 : Float64.f64 -> Float64.f64) (ypred ytrue : list Z) (task_size : Z) :
  (ytrue = [] ->
   exists msg, utils.compute_accuracy round3 ypred ytrue task_size = Raise (ValueError msg)) /\
  (ytrue ≠ [] -> task_size = 0 ->
   exists msg, utils.compute_accuracy round3 ypred ytrue task_size = Raise (ValueError msg)) /\
  (ytrue ≠ [] -> task_size ≠ 0 -> length ypred = length ytrue ->
   exists groups all_acc,
     utils.accuracy_groups ytrue task_size = Ok groups /\
     utils.compute_accuracy round3 ypred ytrue task_size = Ok all_acc /\
     all_acc !! "total" =
       Some (utils.rounded_ratio round3 (utils.count_equal ypred ytrue)
                                 (Z.of_nat (length ytrue))) /\
     forall key, is_Some (all_acc !! key) <->
       key = "total" \/ exists g, g ∈ groups /\ key = utils.group_label g.1 task_size).
Proof.
  split_and!.
  - intros ->. eexists. reflexivity.
  - intros Hne ->. destruct (np_max_spec ytrue Hne) as (the_max & Hmax & _).
    unfold utils.compute_accuracy, utils.accuracy_groups. rewrite Hmax. eexists. reflexivity.
  - intros Hne Hts Hlen.
    destruct (accuracy_groups_Ok ytrue task_size Hne Hts) as (groups & Hgroups & Hin).
    destruct (accuracy_loop round3 ypred ytrue task_size groups Hlen Hin
                {[ "total" := utils.rounded_ratio round3 (utils.count_equal ypred ytrue)
                                                  (Z.of_nat (length ytrue)) ]})
      as (all_acc & Hrun & Htotal & Hkeys).
    exists groups, all_acc. split_and!.
    + done.
    + unfold utils.compute_accuracy. rewrite Hgroups. exact Hrun.
    + rewrite Htotal. apply lookup_singleton_eq.
    + intros key. rewrite Hkeys. split.
      * intros [[v Hv]|H]; [left|by right].
        apply lookup_singleton_Some in Hv as [<- _]. done.
      * intros [->|H]; [left|by right]. rewrite lookup_singleton_eq. by eexists.
Qed.

(** ** The targets of the distillation loss *)

Lemma add_n_classes_shape (self self' : ICarl.t) (n : Z) (fresh : nat -> tensor1) :
  _add_n_classes n fresh self = Ok self' ->
  exists c, self' = with_classifier c (with_n_classes (_n_classes self + n) self).
Proof.
  unfold _add_n_classes. intros H.
  apply bind_Ok in H as (classifier & _ & H).
  apply bind_Ok in H as (w & _ & H).
  apply bind_Ok in H as (m & _ & H).
  injection H as <-. eexists. reflexivity.
Qed.

Lemma before_task_previous_preds
    (sigmoid : f32 -> f32) (self self' : ICarl.t)
    (train_loader : Loader) (val_loader : option Loader) (fresh : nat -> tensor1) :
  _task self ≠ 0 ->
  _before_task sigmoid self train_loader val_loader fresh = Ok self' ->
  _task self' = _task self /\ _new_task_index self' = _new_task_index self /\
  _clf_loss self' = _clf_loss self /\ _distil_loss self' = _distil_loss self /\
  _n_classes self' = _n_classes self + _task_size self /\
  exists preds,
    _compute_predictions sigmoid self train_loader = Ok preds /\
    _previous_preds self' = Some preds.
Proof.
  intros Ht. unfold _before_task. rewrite decide_False by done. intros Hrun.
  apply bind_Ok in Hrun as (preds & Hpreds & Hrun).
  apply bind_Ok in Hrun as (self1 & H1 & Hrun).
  apply add_n_classes_shape in Hrun as [c ->]. cbn.
  destruct val_loader as [l|].
  - case_decide.
    + injection H1 as <-. cbn. split_and!; try done. by exists preds.
    + apply bind_Ok in H1 as (pv & _ & H1). injection H1 as <-. cbn.
      split_and!; try done. by exists preds.
  - injection H1 as <-. cbn. split_and!; try done. by exists preds.
Qed.

Lemma list_getitem_Ok {A} (l : list A) (i : nat) (x : A) :
  l !! i = Some x -> list_getitem l i = Ok x.
Proof. unfold list_getitem. by intros ->. Qed.

Lemma getrow_in_range (m : tensor2) (i : Z) (row : tensor1) :
  0 <= i < Z.of_nat (length m) -> m !! Z.to_nat i = Some row -> getrow m i = Ok row.
Proof.
  intros Hi Hrow. unfold getrow, row_index.
  rewrite (decide_False (P := i < 0)) by lia. rewrite decide_True by lia.
  exact (list_getitem_Ok m _ row Hrow).
Qed.

Lemma compute_predictions_lookup
    (sigmoid : f32 -> f32) (self : ICarl.t) (data_loader : Loader) (preds : tensor2) :
  Forall (fun s => 0 <= idx s < _n_train_data self) (concat (batches data_loader)) ->
  NoDup (map idx (concat (batches data_loader))) ->
  _compute_predictions sigmoid self data_loader = Ok preds ->
  forall s, s ∈ concat (batches data_loader) ->
    getrow preds (idx s) = Ok (map sigmoid (forward self (input s))).
Proof.
  intros Hall Hnd. unfold _compute_predictions. case_decide as Hdec; [|discriminate].
  destruct Hdec as [Hn Hc]. intros Hrun s Hs.
  set (preds0 := replicate (Z.to_nat (_n_train_data self))
                           (zeros (Z.to_nat (_n_classes self)))) in *.
  assert (Hlen0 : length preds0 = Z.to_nat (_n_train_data self)) by apply length_replicate.
  destruct (predictions_loop (fun s => forward self (input s))
              (concat (batches data_loader)) preds0)
    as (rows & Hrows & Hlen & Hin & _).
  { eapply Forall_impl; [exact Hall|]. intros s' Hs'. cbv beta in *. rewrite Hlen0. lia. }
  { done. }
  rewrite Hrows in Hrun. cbn in Hrun.
  assert (Hpreds : preds = map (map sigmoid) rows) by congruence.
  rewrite Forall_forall in Hall. pose proof (Hall s Hs) as Hidx.
  assert (Hlenp : length preds = Z.to_nat (_n_train_data self)).
  { rewrite Hpreds. etrans; [apply length_map|]. by etrans. }
  apply getrow_in_range; [lia|].
  rewrite Hpreds.
  exact (eq_trans (lookup_map (map sigmoid) rows _)
                  (f_equal (fmap (map sigmoid)) (Hin s Hs))).
Qed.

(** X19.  In the training that follows [_before_task] on a task other
    than the first, with [new_task_index] at the number of classes the
    head had before it grew: for a batch of the training loader
    (positions distinct and within [0, n_train_data)) and logits and
    one-hot targets of [n_classes + task_size] columns, the
    distillation loss is given the logit columns below
    [new_task_index] and, for the same samples, the sigmoid of the
    logits the model returned before its head grew; the classification
    loss is given the other columns of the logits and of the targets.
    The two arguments of each loss have one shape: one row per sample,
    [n_classes] columns for the distillation loss and [task_size]
    columns for the classification loss. *)
Theorem X19_distillation_targets_are_old_predictions
    (sigmoid : f32 -> f32) (self self' : ICarl.t)
    (train_loader : Loader) (val_loader : option Loader) (fresh : nat -> tensor1)
    (b : batch) (logits targets : tensor2) :
  _task self ≠ 0 -> 0 <= _task_size self ->
  _new_task_index self = _n_classes self ->
  length (weight (_classifier self)) = Z.to_nat (_n_classes self) ->
  Forall (fun s => 0 <= idx s < _n_train_data self) (concat (batches train_loader)) ->
  NoDup (map idx (concat (batches train_loader))) ->
  _before_task sigmoid self train_loader val_loader fresh = Ok self' ->
  Forall (fun s => s ∈ concat (batches train_loader)) b ->
  length logits = length b -> length targets = length b ->
  Forall (fun r => length r = Z.to_nat (_n_classes self')) logits ->
  Forall (fun r => length r = Z.to_nat (_n_classes self')) targets ->
  _compute_loss self' logits targets (map idx b) true =
    Ok (_clf_loss self (map (fun r => slice_from r (_new_task_index self)) logits)
                       (map (fun r => slice_from r (_new_task_index self)) targets),
        _distil_loss self (map (fun r => slice_to r (_new_task_index self)) logits)
                          (map (fun s => map sigmoid (forward self (input s))) b)) /\
  length (map (fun r => slice_to r (_new_task_index self)) logits) =
    length (map (fun s => map sigmoid (forward self (input s))) b) /\
  Forall (fun r => length r = Z.to_nat (_n_classes self))
         (map (fun r => slice_to r (_new_task_index self)) logits) /\
  Forall (fun r => length r = Z.to_nat (_n_classes self))
         (map (fun s => map sigmoid (forward self (input s))) b) /\
  length (map (fun r => slice_from r (_new_task_index self)) logits) =
    length (map (fun r => slice_from r (_new_task_index self)) targets) /\
  Forall (fun r => length r = Z.to_nat (_task_size self))
         (map (fun r => slice_from r (_new_task_index self)) logits) /\
  Forall (fun r => length r = Z.to_nat (_task_size self))
         (map (fun r => slice_from r (_new_task_index self)) targets).
Proof.
  intros Ht Hts Hnti Hw Hall Hnd Hrun Hb Hll Hlt Hlw Htw.
  destruct (before_task_previous_preds sigmoid self self' train_loader val_loader fresh
              Ht Hrun) as (Htask & Hidx & Hclf & Hdistil & Hn' & preds & Hpreds & Hprev).
  destruct (compute_predictions_shape sigmoid self train_loader preds Hw Hpreds)
    as (Hc & _ & _).
  assert (Hfrom : forall r : tensor1,
            length r = Z.to_nat (_n_classes self') ->
            length (slice_from r (_new_task_index self)) = Z.to_nat (_task_size self)).
  { intros r Hr. unfold slice_from. rewrite decide_True by lia.
    rewrite length_drop, Hr, Hn', Hnti. lia. }
  assert (Hto : forall r : tensor1,
            length r = Z.to_nat (_n_classes self') ->
            length (slice_to r (_new_task_index self)) = Z.to_nat (_n_classes self)).
  { intros r Hr. rewrite slice_to_nonneg by lia.
    rewrite length_take, Hr, Hn', Hnti. lia. }
  split_and!.
  - unfold _compute_loss. rewrite decide_False by by rewrite Htask.
    rewrite Hprev, Hidx, Hclf, Hdistil. cbn.
    assert (Hsoft : mapM (M := result) (getrow preds) (map idx b) =
                    Ok (map (fun s => map sigmoid (forward self (input s))) b)).
    { clear -Hall Hnd Hpreds Hb. induction b as [|s b IH]; [reflexivity|].
      apply Forall_cons in Hb as [Hs Hb]. cbn [map].
      change (mapM (getrow preds) (idx s :: map idx b)) with
        (y ← getrow preds (idx s); k ← mapM (M := result) (getrow preds) (map idx b);
         Ok (y :: k)).
      rewrite (compute_predictions_lookup sigmoid self train_loader preds
                 Hall Hnd Hpreds s Hs).
      rewrite (IH Hb). reflexivity. }
    rewrite Hsoft. reflexivity.
  - by rewrite !length_map.
  - eapply Forall_map_intro; [exact Hlw|]. exact Hto.
  - eapply (Forall_map_intro _ _ (fun _ => True)); [by apply Forall_true|].
    intros s _. unfold forward, linear. by rewrite !length_map.
  - etrans; [apply length_map|]. etrans; [|symmetry; apply length_map].
    exact (eq_trans Hll (eq_sym Hlt)).
  - eapply Forall_map_intro; [exact Hlw|]. exact Hfrom.
  - eapply Forall_map_intro; [exact Htw|]. exact Hfrom.
Qed.

Lemma X19_distillation_targets_are_old_predictions_witness :
  exists self',
    _before_task (fun x => x) one_task_learner second_task_train_loader None
                 (fun _ => [of_Z 1]) = Ok self' /\
    _compute_loss self' [[zero; zero; zero; zero]] [[zero; zero; zero; of_Z 1]]
                  [1] true = Ok (zero, zero).
Proof.
  destruct (_before_task (fun x => x) one_task_learner second_task_train_loader None
                         (fun _ => [of_Z 1])) as [self'|] eqn:Hrun;
    [|vm_compute in Hrun; discriminate].
  exists self'. split; [reflexivity|].
  assert (Hn : _n_classes self' = 4).
  { destruct (before_task_previous_preds (fun x => x) one_task_learner self'
                second_task_train_loader None (fun _ => [of_Z 1]))
      as (_ & _ & _ & _ & Hn & _); [discriminate|exact Hrun|exact Hn]. }
  apply (X19_distillation_targets_are_old_predictions (fun x => x) one_task_learner self'
           second_task_train_loader None (fun _ => [of_Z 1])
           [mkSample 21 1 [of_Z 2] 3]).
  - discriminate.
  - by vm_compute.
  - reflexivity.
  - reflexivity.
  - vm_compute. repeat constructor; discriminate.
  - vm_compute. repeat constructor; rewrite ?elem_of_cons, ?elem_of_nil; intuition discriminate.
  - exact Hrun.
  - repeat constructor.
  - reflexivity.
  - reflexivity.
  - rewrite Hn. repeat constructor.
  - rewrite Hn. repeat constructor.
Defined.
